(** * Inventory manager: store, sell transaction and CSV persistence

    A shallow embedding of [main.cpp]: the two global vectors and the two
    id counters become one explicit [State] record that every logic
    function takes and returns; [int] is a [Z] with its 32-bit
    wrap-around written out, [double] is the kernel's binary64 float,
    [std::string] is [string] (a list of 8-bit characters). The console
    front end ([ui_*] and [main]) only reads the arguments of the logic
    functions and prints their results; it and the console output of
    the persistence functions are not part of the model. *)

From Stdlib Require Import ZArith String Ascii Floats Uint63 Lia.
From stdpp Require Import base option list numbers.

Local Open Scope string_scope.
Local Open Scope Z_scope.

(** ** Machine integers *)

Definition int_min : Z := -2147483648.
Definition int_max : Z := 2147483647.

Definition int_range (z : Z) : Prop := int_min <= z <= int_max.

(** Two's complement reduction of an [int] result (what an [int]
    addition or subtraction leaves in a 32-bit register). *)
Definition wrap_int (z : Z) : Z := (z + 2 ^ 31) mod 2 ^ 32 - 2 ^ 31.

(** Conversion [int -> double] of the usual arithmetic conversions; it
    is exact for every 32-bit value. *)
Definition double_of_int (z : Z) : float :=
  if z <? 0 then PrimFloat.opp (PrimFloat.of_uint63 (Uint63.of_Z (- z)))
  else PrimFloat.of_uint63 (Uint63.of_Z z).

(** ** Data model *)

Module Item.
Record t : Type := mk {
  id : Z;
  name : string;
  size_color : string;
  quantity : Z;
  purchase_price : float;
  selling_price : float
}.
End Item.

Module Sale.
Record t : Type := mk {
  id : Z;
  item_id : Z;
  item_name : string;
  quantity_sold : Z;
  profit : float;
  date_sold : string
}.
End Sale.

(** The global in-memory storage. *)
Record State : Type := mkState {
  items : list Item.t;
  sales : list Sale.t;
  nextItemId : Z;
  nextSaleId : Z
}.

(** The globals as their initialisers leave them. *)
Definition init_state : State :=
  {| items := []; sales := []; nextItemId := 1; nextSaleId := 1 |}.

(** ** Core logic functions *)

(** [find_if(items.begin(), items.end(), [id](const Item& item) { return
    item.id == id; })]: position and value of the first match. *)
Definition find_item (id : Z) (l : list Item.t) : option (nat * Item.t) :=
  list_find (λ it, Item.id it = id) l.

Definition logic_addItem (st : State) (name size : string) (qty : Z)
    (buy sell : float) : Z * State :=
  let id := nextItemId st in
  (id,
   {| items := items st ++ [Item.mk id name size qty buy sell];
      sales := sales st;
      nextItemId := wrap_int (id + 1);
      nextSaleId := nextSaleId st |}).

Definition logic_deleteItem (st : State) (id : Z) : bool * State :=
  match find_item id (items st) with
  | Some (i, _) =>
      (true,
       {| items := delete i (items st);
          sales := sales st;
          nextItemId := nextItemId st;
          nextSaleId := nextSaleId st |})
  | None => (false, st)
  end.

Definition logic_updateItem (st : State) (id qty : Z) (buy sell : float)
    : bool * State :=
  match find_item id (items st) with
  | Some (i, it) =>
      let it' := Item.mk (Item.id it) (Item.name it) (Item.size_color it)
                         qty buy sell in
      (true,
       {| items := <[i := it']> (items st);
          sales := sales st;
          nextItemId := nextItemId st;
          nextSaleId := nextSaleId st |})
  | None => (false, st)
  end.

(** [logic_sellItem]: the return code, the value left in [profitOut]
    (written on success only) and the new state. [now] is what
    [getCurrentDate()] returns at the call. *)
Definition logic_sellItem (st : State) (id qty : Z) (now : string)
    (profitOut : float) : Z * float * State :=
  match find_item id (items st) with
  | None => (1, profitOut, st)
  | Some (i, it) =>
      if qty >? Item.quantity it then (2, profitOut, st)
      else
        let profit :=
          PrimFloat.mul
            (PrimFloat.sub (Item.selling_price it) (Item.purchase_price it))
            (double_of_int qty) in
        let it' := Item.mk (Item.id it) (Item.name it) (Item.size_color it)
                           (wrap_int (Item.quantity it - qty))
                           (Item.purchase_price it) (Item.selling_price it) in
        let sale := Sale.mk (nextSaleId st) (Item.id it') (Item.name it')
                            qty profit now in
        (0, profit,
         {| items := <[i := it']> (items st);
            sales := sales st ++ [sale];
            nextItemId := nextItemId st;
            nextSaleId := wrap_int (nextSaleId st + 1) |})
  end.

(** [seedData]: three [push_back]s, each taking [nextItemId++]. *)
Definition seedData (st : State) : State :=
  let push (st : State) (name size : string) (qty : Z) (buy sell : float) :=
    {| items := items st ++ [Item.mk (nextItemId st) name size qty buy sell];
       sales := sales st;
       nextItemId := wrap_int (nextItemId st + 1);
       nextSaleId := nextSaleId st |} in
  let st := push st "Widget" "Small" 10 5%float 8%float in
  let st := push st "Bolt" "Red" 3 0.5%float 1%float in
  push st "Gadget" "Blue" 20 10%float 15%float.

(** ** Text helpers *)

Definition TAB : ascii := "009"%char.
Definition LF : ascii := "010"%char.
Definition VT : ascii := "011"%char.
Definition FF : ascii := "012"%char.
Definition CR : ascii := "013"%char.
Definition SP : ascii := " "%char.
Definition COMMA : ascii := ","%char.

(** Membership in the set [" \t\n\r"] that [trim] strips. *)
Definition is_trim_ws (c : ascii) : bool :=
  Ascii.eqb c SP || Ascii.eqb c TAB || Ascii.eqb c LF || Ascii.eqb c CR.

(** [s.find_first_not_of(" \t\n\r")], [None] for [npos]. *)
Fixpoint find_first_not_of (s : string) : option nat :=
  match s with
  | EmptyString => None
  | String c s' =>
      if is_trim_ws c then S <$> find_first_not_of s' else Some 0%nat
  end.

(** [s.find_last_not_of(" \t\n\r")], [None] for [npos]. *)
Fixpoint find_last_not_of (s : string) : option nat :=
  match s with
  | EmptyString => None
  | String c s' =>
      match find_last_not_of s' with
      | Some i => Some (S i)
      | None => if is_trim_ws c then None else Some 0%nat
      end
  end.

Definition trim (s : string) : string :=
  match find_first_not_of s with
  | None => ""
  | Some start =>
      match find_last_not_of s with
      | None => ""
      | Some end_ => substring start (end_ - start + 1) s
      end
  end.

Definition empty (s : string) : bool :=
  match s with EmptyString => true | String _ _ => false end.

(** One call [getline(in, x, delim)] on a stream that still holds [s]:
    [None] when the stream is exhausted (the call fails and the loop
    ends), otherwise the characters up to the first delimiter or the
    end, and what the stream holds afterwards. *)
Fixpoint getline (delim : ascii) (s : string) : option (string * string) :=
  match s with
  | EmptyString => None
  | String c s' =>
      if Ascii.eqb c delim then Some ("", s')
      else match getline delim s' with
           | Some (x, rest) => Some (String c x, rest)
           | None => Some (String c "", "")
           end
  end.

(** The strings that the loop [while (getline(in, x, delim))] reads from
    a stream holding [s]: the pieces between delimiters, where a stream
    that is exhausted yields nothing more (so no empty piece follows a
    final delimiter). [getline_all_unfold] below is the loop equation. *)
Fixpoint getline_all (delim : ascii) (s : string) : list string :=
  match s with
  | EmptyString => []
  | String c s' =>
      if Ascii.eqb c delim then "" :: getline_all delim s'
      else match getline_all delim s' with
           | [] => [String c ""]
           | x :: xs => String c x :: xs
           end
  end.

Definition parseCSV (line : string) : list string := getline_all COMMA line.

(** ** Exceptions of the numeric conversions *)

Inductive exn : Type := invalid_argument | out_of_range.

(** A computation that returns or throws. *)
Inductive result (A : Type) : Type :=
  | Ok (a : A)
  | Throw (e : exn).
Arguments Ok {A} a.
Arguments Throw {A} e.

#[global] Instance result_ret : MRet result := λ A a, Ok a.
#[global] Instance result_bind : MBind result := λ A B f m,
  match m with Ok a => f a | Throw e => Throw e end.

(** ** Integers as text *)

Definition is_digit (c : ascii) : bool :=
  (48 <=? nat_of_ascii c)%nat && (nat_of_ascii c <=? 57)%nat.

Definition digit_val (c : ascii) : Z := Z.of_nat (nat_of_ascii c) - 48.

Definition digit_char (d : Z) : ascii := ascii_of_nat (Z.to_nat (48 + d)).

(** Decimal digits of a non-negative number, most significant first,
    put in front of [acc]. *)
Fixpoint put_digits (fuel : nat) (n : Z) (acc : string) : string :=
  let acc' := String (digit_char (n mod 10)) acc in
  match fuel with
  | O => acc'
  | S fuel' => if n <? 10 then acc' else put_digits fuel' (n / 10) acc'
  end.

(** [os << n] for an [int] (or any integer) [n] in the default format. *)
Definition put_int (z : Z) : string :=
  if z <? 0 then String "-" (put_digits (Z.to_nat (Z.log2 (- z))) (- z) "")
  else put_digits (Z.to_nat (Z.log2 z)) z "".

(** [isspace] in the C locale. *)
Definition isspace (c : ascii) : bool :=
  Ascii.eqb c SP || Ascii.eqb c TAB || Ascii.eqb c LF || Ascii.eqb c VT
  || Ascii.eqb c FF || Ascii.eqb c CR.

Fixpoint skip_space (s : string) : string :=
  match s with
  | String c s' => if isspace c then skip_space s' else s
  | EmptyString => s
  end.

(** The value of the longest run of decimal digits at the front of [s],
    continuing the number read so far, [acc]. *)
Fixpoint read_digits (s : string) (acc : Z) : Z :=
  match s with
  | String c s' =>
      if is_digit c then read_digits s' (acc * 10 + digit_val c) else acc
  | EmptyString => acc
  end.

Definition starts_with_digit (s : string) : bool :=
  match s with String c _ => is_digit c | EmptyString => false end.

(** An optional sign at the front of [s]: whether it is a minus, and
    what follows it. *)
Definition read_sign (s : string) : bool * string :=
  match s with
  | String "-" s' => (true, s')
  | String "+" s' => (false, s')
  | _ => (false, s)
  end.

(** [std::stoi(s)] (base 10, position not requested): [strtol] skips
    white space, takes an optional sign and the longest run of digits and
    ignores what follows; no digit throws [invalid_argument], a value
    that is no [int] throws [out_of_range]. *)
Definition stoi (s : string) : result Z :=
  let '(neg, s) := read_sign (skip_space s) in
  if starts_with_digit s then
    let v := read_digits s 0 in
    let v := if neg : bool then - v else v in
    if (int_min <=? v) && (v <=? int_max) then Ok v else Throw out_of_range
  else Throw invalid_argument.

(** ** Doubles as text

    How a [double] is written by [operator<<] and read by [std::stod]
    is the C++ library's business; the persistence code is modelled
    over any such pair. *)
Class DoubleText : Type := {
  put_double : float → string;
  stod : string → result float
}.

(** ** File persistence *)

(** The two files: [None] when the file cannot be opened for reading
    (it does not exist). *)
Record Disk : Type := mkDisk {
  items_csv : option string;
  sales_csv : option string
}.

Section Persistence.
Context `{DoubleText}.

Definition sep (a b : string) : string := a ++ String COMMA b.

Definition item_line (it : Item.t) : string :=
  sep (put_int (Item.id it))
 (sep (Item.name it)
 (sep (Item.size_color it)
 (sep (put_int (Item.quantity it))
 (sep (put_double (Item.purchase_price it))
      (put_double (Item.selling_price it) ++ String LF ""))))).

Definition sale_line (s : Sale.t) : string :=
  sep (put_int (Sale.id s))
 (sep (put_int (Sale.item_id s))
 (sep (Sale.item_name s)
 (sep (put_int (Sale.quantity_sold s))
 (sep (put_double (Sale.profit s))
      (Sale.date_sold s ++ String LF ""))))).

Fixpoint write_all {A} (line : A → string) (l : list A) : string :=
  match l with
  | [] => ""
  | x :: l' => line x ++ write_all line l'
  end.

(** [saveData]: each file is rewritten from the vector when its
    [ofstream] opens ([open_items], [open_sales]) and is left as it
    was otherwise. *)
Definition saveData (open_items open_sales : bool) (st : State)
    (d : Disk) : Disk :=
  {| items_csv :=
       if open_items then Some (write_all item_line (items st))
       else items_csv d;
     sales_csv :=
       if open_sales then Some (write_all sale_line (sales st))
       else sales_csv d |}.

(** The body of the item loop for the fields of one line. *)
Definition load_item (data : list string) (st : State) : result State :=
  match data with
  | d0 :: d1 :: d2 :: d3 :: d4 :: d5 :: _ =>
      id ← stoi d0;
      qty ← stoi d3;
      buy ← stod d4;
      sell ← stod d5;
      mret {| items := items st ++ [Item.mk id d1 d2 qty buy sell];
              sales := sales st;
              nextItemId := if id >=? nextItemId st then wrap_int (id + 1)
                            else nextItemId st;
              nextSaleId := nextSaleId st |}
  | _ => mret st
  end.

Definition load_sale (data : list string) (st : State) : result State :=
  match data with
  | d0 :: d1 :: d2 :: d3 :: d4 :: d5 :: _ =>
      id ← stoi d0;
      item_id ← stoi d1;
      qty ← stoi d3;
      profit ← stod d4;
      mret {| items := items st;
              sales := sales st ++ [Sale.mk id item_id d2 qty profit d5];
              nextItemId := nextItemId st;
              nextSaleId := if id >=? nextSaleId st then wrap_int (id + 1)
                            else nextSaleId st |}
  | _ => mret st
  end.

(** [while (getline(file, line)) { if (trim(line).empty()) continue; ... }] *)
Fixpoint load_lines (body : list string → State → result State)
    (lines : list string) (st : State) : result State :=
  match lines with
  | [] => mret st
  | line :: rest =>
      if empty (trim line) then load_lines body rest st
      else st' ← body (parseCSV line) st; load_lines body rest st'
  end.

Definition load_file (body : list string → State → result State)
    (file : option string) (st : State) : result State :=
  match file with
  | Some content => load_lines body (getline_all LF content) st
  | None => mret st
  end.

(** [loadData]: an exception of [stoi] or [stod] leaves the function
    (nothing in the program catches it). *)
Definition loadData (st : State) (d : Disk) : result State :=
  let st := {| items := []; sales := sales st;
               nextItemId := nextItemId st; nextSaleId := nextSaleId st |} in
  let st := {| items := items st; sales := [];
               nextItemId := nextItemId st; nextSaleId := nextSaleId st |} in
  let st := {| items := items st; sales := sales st;
               nextItemId := 1; nextSaleId := nextSaleId st |} in
  let st := {| items := items st; sales := sales st;
               nextItemId := nextItemId st; nextSaleId := 1 |} in
  st ← load_file load_item (items_csv d) st;
  st ← load_file load_sale (sales_csv d) st;
  mret (match items st, sales st with
        | [], [] => seedData st
        | _, _ => st
        end).
End Persistence.

(** ** Sequences of logic-layer calls *)

Inductive op : Type :=
  | Add (name size : string) (qty : Z) (buy sell : float)
  | Delete (id : Z)
  | Update (id qty : Z) (buy sell : float)
  | Sell (id qty : Z) (now : string).

(** One call: the id that [logic_addItem] returned, if the call was
    one, and the state it leaves. *)
Definition step (st : State) (o : op) : option Z * State :=
  match o with
  | Add name size qty buy sell =>
      let '(id, st') := logic_addItem st name size qty buy sell in
      (Some id, st')
  | Delete id => (None, (logic_deleteItem st id).2)
  | Update id qty buy sell => (None, (logic_updateItem st id qty buy sell).2)
  | Sell id qty now => (None, (logic_sellItem st id qty now 0%float).2)
  end.

(** The calls of [ops] in order: the ids returned by the adds among
    them, in call order, and the final state. *)
Fixpoint run (ops : list op) (st : State) : list Z * State :=
  match ops with
  | [] => ([], st)
  | o :: ops' =>
      let '(r, st') := step st o in
      let '(ids, st'') := run ops' st' in
      ((from_option (λ id, [id]) [] r ++ ids)%list, st'')
  end.

Definition is_add (o : op) : bool :=
  match o with Add _ _ _ _ _ => true | _ => false end.

Definition count_adds (ops : list op) : nat := length (filter is_add ops).

(** The store invariant behind id lookup: every item's id is below the
    next id to be given out. *)
Definition ids_below (st : State) : Prop :=
  ∀ it, it ∈ items st → Item.id it < nextItemId st.

(** Every stock level is a non-negative [int]. *)
Definition stock_nonneg (st : State) : Prop :=
  ∀ it, it ∈ items st → 0 <= Item.quantity it <= int_max.

(** A sequence of sell calls, each with its id, quantity and date. *)
Fixpoint sell_all (calls : list (Z * Z * string)) (st : State) : State :=
  match calls with
  | [] => st
  | (id, q, now) :: calls' =>
      sell_all calls' (logic_sellItem st id q now 0%float).2
  end.

(** ** A reference instance of [DoubleText]

    [operator<<] in its default state writes a [double] as [printf]'s
    [%g] does with six significant digits; [std::stod] reads with
    [strtod] and throws where it reports no conversion or a range
    error. This instance follows those two descriptions for binary64
    with round-to-nearest; it serves to run the persistence code on
    concrete data. It departs from the library at two corners that no
    statement below evaluates: a NaN is written [nan] whatever its sign
    (the type [float] has one NaN), and tininess is judged on the
    rounded result, so a text just below the least normal number that
    rounds up to it is read without a range error. *)

(** Whether [10^k <= n/d]. *)
Definition pow10_le (k n d : Z) : bool :=
  if 0 <=? k then 10 ^ k * d <=? n else d <=? n * 10 ^ (- k).

(** The largest [k' >= k] with [10^k' <= n/d], searched upwards from a
    [k] with [10^k <= n/d]. *)
Fixpoint log10_from (fuel : nat) (k n d : Z) : Z :=
  match fuel with
  | O => k
  | S fuel' =>
      if pow10_le (k + 1) n d then log10_from fuel' (k + 1) n d else k
  end.

(** [n/d] rounded to the nearest integer, ties to even. *)
Definition round_half_even (n d : Z) : Z :=
  let q := n / d in
  let r := n mod d in
  match 2 * r ?= d with
  | Lt => q
  | Gt => q + 1
  | Eq => if Z.even q then q else q + 1
  end.

Fixpoint strip_zeros (s : string) : string :=
  match s with
  | EmptyString => ""
  | String c s' =>
      match strip_zeros s' with
      | EmptyString => if Ascii.eqb c "0" then "" else String c ""
      | r => String c r
      end
  end.

Fixpoint zeros (n : nat) : string :=
  match n with O => "" | S n' => String "0" (zeros n') end.

Definition with_point (int_part frac : string) : string :=
  if empty frac then int_part else (int_part ++ String "." frac)%string.

(** [%g] with precision 6 for the positive rational [n/d] (a binary64
    magnitude, so at least [10^-324] and below [10^309]): the six
    significant digits [N] and the decimal exponent [X] after rounding,
    then fixed notation when [-4 <= X < 6] and scientific notation
    otherwise, without trailing zeros. *)
Definition put_general (n d : Z) : string :=
  let x0 := log10_from 640 (-324) n d in
  let N := if 0 <=? 5 - x0 then round_half_even (n * 10 ^ (5 - x0)) d
           else round_half_even n (d * 10 ^ (x0 - 5)) in
  let '(N, X) := if N =? 10 ^ 6 then (10 ^ 5, x0 + 1) else (N, x0) in
  let ds := put_digits 5 N "" in
  if (-4 <=? X) && (X <? 6) then
    if 0 <=? X then
      with_point (substring 0 (Z.to_nat (X + 1)) ds)
                 (strip_zeros (substring (Z.to_nat (X + 1)) 6 ds))
    else
      let lead := zeros (Z.to_nat (- X - 1)) in
      ("0." ++ lead ++ strip_zeros ds)%string
  else
    let mark := if X <? 0 then "e-" else "e+" in
    let pad := if Z.abs X <? 10 then "0" else "" in
    (with_point (substring 0 1 ds) (strip_zeros (substring 1 6 ds))
     ++ mark ++ pad ++ put_int (Z.abs X))%string.

Definition put_double_ref (x : float) : string :=
  match Prim2SF x with
  | S754_nan => "nan"
  | S754_infinity s => if s then "-inf" else "inf"
  | S754_zero s => if s then "-0" else "0"
  | S754_finite s m e =>
      let sign := if s then "-" else "" in
      let digits := if 0 <=? e then put_general (Zpos m * 2 ^ e) 1
                    else put_general (Zpos m) (2 ^ (- e)) in
      (sign ++ digits)%string
  end.

Definition to_lower (c : ascii) : ascii :=
  let n := nat_of_ascii c in
  if (65 <=? n)%nat && (n <=? 90)%nat then ascii_of_nat (n + 32) else c.

(** Whether [s] starts with the lower-case word [w], in any case. *)
Fixpoint prefix_ci (w s : string) : bool :=
  match w, s with
  | EmptyString, _ => true
  | String a w', String b s' => Ascii.eqb a (to_lower b) && prefix_ci w' s'
  | String _ _, EmptyString => false
  end.

Definition dec_val (c : ascii) : option Z :=
  if is_digit c then Some (digit_val c) else None.

Definition hex_val (c : ascii) : option Z :=
  let n := nat_of_ascii (to_lower c) in
  if is_digit c then Some (digit_val c)
  else if (97 <=? n)%nat && (n <=? 102)%nat then Some (Z.of_nat n - 87)
  else None.

(** The longest run of digits of the given base at the front of [s]:
    its value continuing [acc], its length added to [n], and the rest. *)
Fixpoint read_run (val : ascii → option Z) (base : Z) (s : string)
    (acc n : Z) : Z * Z * string :=
  match s with
  | String c s' =>
      match val c with
      | Some v => read_run val base s' (acc * base + v) (n + 1)
      | None => (acc, n, s)
      end
  | EmptyString => (acc, n, s)
  end.

(** Digits with an optional point among them: the digits read as one
    integer, how many followed the point, and the rest; [None] when
    there is no digit at all. *)
Definition read_mantissa (val : ascii → option Z) (base : Z) (s : string)
    : option (Z * Z * string) :=
  let '(i, ni, r) := read_run val base s 0 0 in
  let '(m, nf, r') :=
    match r with
    | String "." r1 => read_run val base r1 i 0
    | _ => (i, 0, r)
    end in
  if ni + nf =? 0 then None else Some (m, nf, r').

(** An exponent part introduced by [marker] (in either case): its
    value, 0 when there is none. *)
Definition read_exponent (marker : ascii) (s : string) : Z :=
  match s with
  | String c r =>
      if Ascii.eqb marker (to_lower c) then
        let '(neg, r1) := read_sign r in
        if starts_with_digit r1 then
          if neg : bool then - read_digits r1 0 else read_digits r1 0
        else 0
      else 0
  | EmptyString => 0
  end.

(** The number that the text denotes, as a fraction [n/d] with
    [0 <= n] and [0 < d]; [None] when no number can be read. *)
Definition read_number (s : string) : option (Z * Z) :=
  let hex :=
    if prefix_ci "0x" s then
      match read_mantissa hex_val 16 (substring 2 (String.length s) s) with
      | Some (m, nf, r) => Some (m, read_exponent "p" r - 4 * nf, 2)
      | None => None
      end
    else None in
  let scaled :=
    match hex with
    | Some h => Some h
    | None =>
        match read_mantissa dec_val 10 s with
        | Some (m, nf, r) => Some (m, read_exponent "e" r - nf, 10)
        | None => None
        end
    end in
  match scaled with
  | Some (m, e, b) => Some (if 0 <=? e then (m * b ^ e, 1) else (m, b ^ (- e)))
  | None => None
  end.

(** [n/d] rounded to binary64, to nearest with ties to even. *)
Definition round_ratio (neg : bool) (n d : Z) : spec_float :=
  if n =? 0 then S754_zero neg
  else
    let '(q, e, l) := SFdiv_core_binary prec emax n 0 d 0 in
    binary_round_aux prec emax neg q e l.

(** Where [strtod] reports a range error: the result overflows, or it
    is tiny (zero or subnormal) and not the number read. *)
Definition range_error (n d : Z) (r : spec_float) : bool :=
  match r with
  | S754_infinity _ => true
  | S754_zero _ => negb (n =? 0)
  | S754_finite _ m e =>
      (Zpos (digits2_pos m) <? prec) &&
      negb (if 0 <=? e then Zpos m * 2 ^ e * d =? n
            else Zpos m * d =? n * 2 ^ (- e))
  | S754_nan => false
  end.

Definition stod_ref (s : string) : result float :=
  let '(neg, s) := read_sign (skip_space s) in
  if prefix_ci "inf" s then Ok (if neg then neg_infinity else infinity)
  else if prefix_ci "nan" s then Ok nan
  else
    match read_number s with
    | None => Throw invalid_argument
    | Some (n, d) =>
        let r := round_ratio neg n d in
        if range_error n d r then Throw out_of_range else Ok (SF2Prim r)
    end.

Definition reference_text : DoubleText :=
  {| put_double := put_double_ref; stod := stod_ref |}.

(** ** Well-formed records for the CSV format *)

(** Whether the character [c] occurs in [s]. *)
Fixpoint has_char (c : ascii) (s : string) : bool :=
  match s with
  | EmptyString => false
  | String x s' => Ascii.eqb x c || has_char c s'
  end.

(** A text field that the format can carry: it holds neither the field
    delimiter nor the line delimiter. *)
Definition plain (s : string) : Prop :=
  has_char COMMA s = false ∧ has_char LF s = false.

Section Wellformed.
Context `{DoubleText}.

(** A [double] that the text format carries unchanged. *)
Definition double_ok (x : float) : Prop :=
  stod (put_double x) = Ok x ∧ plain (put_double x).

Definition item_ok (it : Item.t) : Prop :=
  int_min <= Item.id it < int_max ∧
  int_range (Item.quantity it) ∧
  plain (Item.name it) ∧
  plain (Item.size_color it) ∧
  double_ok (Item.purchase_price it) ∧
  double_ok (Item.selling_price it) ∧
  put_double (Item.selling_price it) ≠ "".

Definition sale_ok (s : Sale.t) : Prop :=
  int_min <= Sale.id s < int_max ∧
  int_range (Sale.item_id s) ∧
  int_range (Sale.quantity_sold s) ∧
  plain (Sale.item_name s) ∧
  double_ok (Sale.profit s) ∧
  plain (Sale.date_sold s) ∧
  Sale.date_sold s ≠ "".

(** The line of an item or a sale without its end-of-line. *)
Definition item_text (it : Item.t) : string :=
  sep (put_int (Item.id it))
 (sep (Item.name it)
 (sep (Item.size_color it)
 (sep (put_int (Item.quantity it))
 (sep (put_double (Item.purchase_price it))
      (put_double (Item.selling_price it)))))).

Definition sale_text (s : Sale.t) : string :=
  sep (put_int (Sale.id s))
 (sep (put_int (Sale.item_id s))
 (sep (Sale.item_name s)
 (sep (put_int (Sale.quantity_sold s))
 (sep (put_double (Sale.profit s))
      (Sale.date_sold s))))).
End Wellformed.

(** The counter after the loop has seen the ids [ids], from [c]. *)
Definition next_id (c : Z) (ids : list Z) : Z :=
  foldl (λ c id, if id >=? c then wrap_int (id + 1) else c) c ids.

(** How many digits [put_digits] writes. *)
Fixpoint count_digits (fuel : nat) (n : Z) : nat :=
  match fuel with
  | O => 1
  | S fuel' => if n <? 10 then 1 else S (count_digits fuel' (n / 10))
  end.

(** ** Signs of binary64 values *)

(** Strictly positive and strictly negative values (zeros and NaN are
    neither), and negative values of magnitude at least 1. *)
Definition sf_positive (x : spec_float) : Prop :=
  match x with
  | S754_finite false _ _ | S754_infinity false => True
  | _ => False
  end.

Definition sf_negative (x : spec_float) : Prop :=
  match x with
  | S754_finite true _ _ | S754_infinity true => True
  | _ => False
  end.

Definition sf_negative_ge1 (x : spec_float) : Prop :=
  match x with
  | S754_finite true m e => 1 <= Zpos (digits2_pos m) + e
  | S754_infinity true => True
  | _ => False
  end.

(** What [loadData] maintains while it reads items: as long as no id
    read is [INT_MAX], every id is below the counter, the counter is at
    least 1, and it is still 1 while no item has been read. *)
Definition load_inv (st : State) : Prop :=
  (∀ it, it ∈ items st → Item.id it < int_max) →
  ids_below st ∧ 1 <= nextItemId st ∧ (items st = [] → nextItemId st = 1).

(** ** The other helper utilities *)

(** [toLowerStr]: [tolower] on every character (the program runs in the
    C locale, where only [A]..[Z] change). *)
Fixpoint toLowerStr (s : string) : string :=
  match s with
  | EmptyString => ""
  | String c s' => String (to_lower c) (toLowerStr s')
  end.

Definition isCancel (s : string) : bool :=
  let t := toLowerStr (trim s) in
  String.eqb t "cancel" || String.eqb t "c".

(** What is left of [s] after its leading decimal digits. *)
Fixpoint skip_digits (s : string) : string :=
  match s with
  | String c s' => if is_digit c then skip_digits s' else s
  | EmptyString => s
  end.

(** The range of [long] (64 bits, as on the LP64 targets). *)
Definition long_min : Z := - 2 ^ 63.
Definition long_max : Z := 2 ^ 63 - 1.

(** [std::stol(s, &idx)] in base 10: the number read and the count of
    characters processed (white space, sign and digits); no digit
    throws [invalid_argument], a value that is no [long] throws
    [out_of_range]. *)
Definition stol (s : string) : result (Z * nat) :=
  let '(neg, r) := read_sign (skip_space s) in
  if starts_with_digit r then
    let v := read_digits r 0 in
    let v := if neg : bool then - v else v in
    if (long_min <=? v) && (v <=? long_max)
    then Ok (v, (String.length s - String.length (skip_digits r))%nat)
    else Throw out_of_range
  else Throw invalid_argument.

(** [toInt]: [Some] of the value stored in [out] when the function
    returns true, [None] when it returns false. The conversion
    [static_cast<int>] keeps the low 32 bits of the [long]. *)
Definition toInt (s : string) : option Z :=
  match stol (trim s) with
  | Ok (v, idx) =>
      if (idx =? String.length (trim s))%nat then Some (wrap_int v) else None
  | Throw _ => None
  end.

(** [std::stod(s, &idx)]: the value and the count of characters
    processed, left to the C++ library like [DoubleText]. *)
Class DoubleScan : Type := {
  stod_idx : string → result (float * nat)
}.

Definition toDouble `{DoubleScan} (s : string) : option float :=
  match stod_idx (trim s) with
  | Ok (v, idx) =>
      if (idx =? String.length (trim s))%nat then Some v else None
  | Throw _ => None
  end.

(** ** Predicates on texts *)

(** Whether every character of [s] satisfies [p]. *)
Fixpoint string_forall (p : ascii → bool) (s : string) : bool :=
  match s with
  | EmptyString => true
  | String c s' => p c && string_forall p s'
  end.

(** The last character of a text. *)
Fixpoint last_char (s : string) : option ascii :=
  match s with
  | EmptyString => None
  | String c EmptyString => Some c
  | String _ s' => last_char s'
  end.

Definition ends_with (c : ascii) (s : string) : bool :=
  match last_char s with Some x => Ascii.eqb x c | None => false end.

Definition first_char (s : string) : option ascii :=
  match s with EmptyString => None | String c _ => Some c end.

(** A text that is empty or whose first and last characters are not
    among the ones that [trim] strips. *)
Definition trimmed (s : string) : Prop :=
  match first_char s, last_char s with
  | Some a, Some b => is_trim_ws a = false ∧ is_trim_ws b = false
  | _, _ => s = ""
  end.

(** The pieces [l] put together again with the delimiter between them. *)
Fixpoint join (delim : ascii) (l : list string) : string :=
  match l with
  | [] => ""
  | [x] => x
  | x :: rest => x ++ String delim (join delim rest)
  end.

(** ** More store invariants *)

(** No two items of the store share an id. *)
Definition unique_ids (st : State) : Prop := NoDup (Item.id <$> items st).

(** Every sale id is below the next sale id to be given out. *)
Definition sale_ids_below (st : State) : Prop :=
  ∀ s, s ∈ sales st → Sale.id s < nextSaleId st.

Definition is_sell (o : op) : bool :=
  match o with Sell _ _ _ => true | _ => false end.

Definition count_sells (ops : list op) : nat := length (filter is_sell ops).

(** ** What a load leaves *)

(** The fields of an item or a sale that the load loops fill from the
    text: numbers that [stoi] returned and pieces of a line cut at the
    commas. *)
Definition loaded_item (it : Item.t) : Prop :=
  int_range (Item.id it) ∧ int_range (Item.quantity it) ∧
  plain (Item.name it) ∧ plain (Item.size_color it).

Definition loaded_sale (s : Sale.t) : Prop :=
  int_range (Sale.id s) ∧ int_range (Sale.item_id s) ∧
  int_range (Sale.quantity_sold s) ∧
  plain (Sale.item_name s) ∧ plain (Sale.date_sold s).

Definition loaded_store (st : State) : Prop :=
  Forall loaded_item (items st) ∧ Forall loaded_sale (sales st) ∧
  int_range (nextItemId st).

(** The invariant of the sale loop, as [load_inv] is the one of the item
    loop. *)
Definition load_sales_inv (st : State) : Prop :=
  (∀ s, s ∈ sales st → Sale.id s < int_max) →
  sale_ids_below st ∧ 1 <= nextSaleId st.

(** How often the character [c] occurs in [s]. *)
Fixpoint count_char (c : ascii) (s : string) : nat :=
  match s with
  | EmptyString => 0
  | String x s' => (if Ascii.eqb x c then 1 else 0) + count_char c s'
  end.

(** ** The clock *)

(** The fields of [struct tm] that [getCurrentDate] reads from what
    [localtime] returns. *)
Record tm : Type := mk_tm {
  tm_year : Z;
  tm_mon : Z;
  tm_mday : Z;
  tm_hour : Z;
  tm_min : Z;
  tm_sec : Z
}.

(** [ss << setfill('0') << setw(2) << n]: the text of [n], filled on the
    left to two characters. The fill character stays set and the width
    goes back to 0 after each number. *)
Definition put_int_w2 (n : Z) : string :=
  let s := put_int n in
  if (String.length s <? 2)%nat then String "0" s else s.

(** [getCurrentDate] for the local time [t]. *)
Definition getCurrentDate (t : tm) : string :=
  put_int (wrap_int (1900 + tm_year t)) ++ "-" ++
  put_int_w2 (wrap_int (1 + tm_mon t)) ++ "-" ++
  put_int_w2 (tm_mday t) ++ " " ++
  put_int_w2 (tm_hour t) ++ ":" ++
  put_int_w2 (tm_min t) ++ ":" ++
  put_int_w2 (tm_sec t).

(** A local time as [localtime] gives it for a time in the years 1000 to
    9999. *)
Definition tm_ok (t : tm) : Prop :=
  1000 <= 1900 + tm_year t <= 9999 ∧ 0 <= tm_mon t <= 11 ∧
  1 <= tm_mday t <= 31 ∧ 0 <= tm_hour t <= 23 ∧
  0 <= tm_min t <= 59 ∧ 0 <= tm_sec t <= 60.

(** The characters of a time stamp. *)
Definition is_date_char (c : ascii) : bool :=
  is_digit c || Ascii.eqb c "-" || Ascii.eqb c ":" || Ascii.eqb c SP.

(** ** The console *)

(** The standard streams: what [cin] still holds, and what has been
    written to [cout]. The end-of-file flag of [cin] is not kept apart:
    it is raised by a read that comes to the end of the input, the stream
    is empty from then on, and [getline], [ignore] and [operator>>] do on
    an empty stream what they do on one with the flag raised. *)
Record Console : Type := mkConsole {
  cin : string;
  cout : string
}.

Definition nl : string := String LF "".

(** [cout << s] *)
Definition print (s : string) (c : Console) : Console :=
  {| cin := cin c; cout := cout c ++ s |}.

(** [cin.ignore(numeric_limits<streamsize>::max(), '\n')]: the input is
    dropped up to and with the next line feed, all of it when there is
    none. *)
Definition cin_ignore (c : Console) : Console :=
  {| cin := match getline LF (cin c) with
            | Some (_, rest) => rest
            | None => ""
            end;
     cout := cout c |}.

(** [promptLine]: the message is written, and the next line of input is
    returned without its line feed; the empty string when [getline]
    fails. *)
Definition promptLine (msg : string) (c : Console) : string * Console :=
  let c := print msg c in
  match getline LF (cin c) with
  | Some (s, rest) => (s, {| cin := rest; cout := cout c |})
  | None => ("", c)
  end.

(** [std::replace(s.begin(), s.end(), old, new)] *)
Fixpoint replace (old new : ascii) (s : string) : string :=
  match s with
  | EmptyString => ""
  | String c s' =>
      String (if Ascii.eqb c old then new else c) (replace old new s')
  end.

(** [hay.find(needle) != string::npos] *)
Fixpoint contains (needle hay : string) : bool :=
  String.prefix needle hay ||
  match hay with
  | String _ hay' => contains needle hay'
  | EmptyString => false
  end.

(** [isCancel(line) || !conv(line, out)] is false: the value left in
    [out]. *)
Definition accepted {A : Type} (conv : string → option A) (line : string)
    : option A :=
  if isCancel line then None else conv line.

(** ** The dialogs *)

Section Dialogs.
Context `{DoubleText} `{DoubleScan}.

Definition ui_addItem (st : State) (c : Console) : State * Console :=
  let c := cin_ignore c in
  let '(name, c) := promptLine "Item name (or type 'cancel' to return): " c in
  if isCancel name || empty (trim name)
  then (st, print ("Cancelled." ++ nl) c) else
  let name := replace COMMA SP name in
  let '(size, c) := promptLine "Size/Color (or type 'cancel' to return): " c in
  if isCancel size then (st, print ("Cancelled." ++ nl) c) else
  let size := replace COMMA SP size in
  let '(line, c) := promptLine "Quantity (or type 'cancel' to return): " c in
  match accepted toInt line with
  | None => (st, print ("Cancelled or invalid quantity." ++ nl) c)
  | Some qty =>
  let '(line, c) :=
    promptLine "Purchase price (or type 'cancel' to return): " c in
  match accepted toDouble line with
  | None => (st, print ("Cancelled or invalid purchase price." ++ nl) c)
  | Some buy =>
  let '(line, c) :=
    promptLine "Selling price (or type 'cancel' to return): " c in
  match accepted toDouble line with
  | None => (st, print ("Cancelled or invalid selling price." ++ nl) c)
  | Some sell =>
  let '(newId, st) := logic_addItem st name size qty buy sell in
  (st, print ("Item added successfully! Assigned ID: " ++ put_int newId ++ nl) c)
  end end end.

Definition ui_updateItem (st : State) (c : Console) : State * Console :=
  let c := cin_ignore c in
  let '(line, c) := promptLine "Item ID (or type 'cancel' to return): " c in
  match accepted toInt line with
  | None => (st, print ("Cancelled or invalid ID." ++ nl) c)
  | Some id =>
  let '(line, c) :=
    promptLine "New quantity (or type 'cancel' to return): " c in
  match accepted toInt line with
  | None => (st, print ("Cancelled or invalid quantity." ++ nl) c)
  | Some qty =>
  let '(line, c) :=
    promptLine "New purchase price (or type 'cancel' to return): " c in
  match accepted toDouble line with
  | None => (st, print ("Cancelled or invalid purchase price." ++ nl) c)
  | Some buy =>
  let '(line, c) :=
    promptLine "New selling price (or type 'cancel' to return): " c in
  match accepted toDouble line with
  | None => (st, print ("Cancelled or invalid selling price." ++ nl) c)
  | Some sell =>
  let '(ok, st) := logic_updateItem st id qty buy sell in
  (st, print (if ok : bool then "Item updated!" ++ nl
              else "Item not found." ++ nl) c)
  end end end end.

(** The line that [ui_searchItem] and [ui_listItems] write for an item. *)
Definition show_item (it : Item.t) : string :=
  "ID: " ++ put_int (Item.id it) ++
  " | " ++ Item.name it ++
  " | " ++ Item.size_color it ++
  " | Qty: " ++ put_int (Item.quantity it) ++
  " | Buy: " ++ put_double (Item.purchase_price it) ++
  " | Sell: " ++ put_double (Item.selling_price it) ++ nl.

Definition ui_searchItem (st : State) (c : Console) : Console :=
  let c := cin_ignore c in
  let '(key, c) := promptLine "Search name (or type 'cancel' to return): " c in
  if isCancel key || empty (trim key) then print ("Cancelled." ++ nl) c else
  let lowerKey := toLowerStr key in
  let c := print (nl ++ "--- SEARCH RESULTS ---" ++ nl) c in
  let found :=
    List.filter (λ it, contains lowerKey (toLowerStr (Item.name it)))
                (items st) in
  let c := print (write_all show_item found) c in
  match found with
  | [] => print ("No matches found." ++ nl) c
  | _ :: _ => c
  end.

Definition ui_lowStock (st : State) (c : Console) : Console :=
  let '(line, c) :=
    promptLine "Show low stock items? Press Enter to continue or type 'cancel' to return: " c in
  if isCancel line then print ("Cancelled." ++ nl) c else
  let c := print (nl ++ "--- LOW STOCK ITEMS ---" ++ nl) c in
  let found := List.filter (λ it, Item.quantity it <=? 5) (items st) in
  let c :=
    print (write_all (λ it, Item.name it ++ " | Qty: " ++
                            put_int (Item.quantity it) ++ " ⚠️" ++ nl)
                     found) c in
  let c := match found with
           | [] => print ("No low stock items." ++ nl) c
           | _ :: _ => c
           end in
  (promptLine "Press Enter to return to menu..." c).2.

(** [now] is the local time at the call. *)
Definition ui_sellItem (now : tm) (st : State) (c : Console)
    : State * Console :=
  let c := cin_ignore c in
  let '(line, c) := promptLine "Item ID (or type 'cancel' to return): " c in
  match accepted toInt line with
  | None => (st, print ("Cancelled or invalid ID." ++ nl) c)
  | Some id =>
  let '(line, c) :=
    promptLine "Quantity sold (or type 'cancel' to return): " c in
  match accepted toInt line with
  | None => (st, print ("Cancelled or invalid quantity." ++ nl) c)
  | Some qty =>
  let '(result, profit, st) :=
    logic_sellItem st id qty (getCurrentDate now) 0%float in
  (st,
   if result =? 0 then print ("Item sold! Profit: " ++ put_double profit ++ nl) c
   else if result =? 1 then print ("Item not found!" ++ nl) c
   else if result =? 2 then print ("Not enough stock!" ++ nl) c
   else c)
  end end.

Definition show_sale (s : Sale.t) : string :=
  "SaleID: " ++ put_int (Sale.id s) ++
  " | " ++ Sale.item_name s ++
  " | Qty: " ++ put_int (Sale.quantity_sold s) ++
  " | Profit: " ++ put_double (Sale.profit s) ++
  " | Date: " ++ Sale.date_sold s ++ nl.

Definition ui_salesHistory (st : State) (c : Console) : Console :=
  let '(line, c) :=
    promptLine "Show sales history? Press Enter to continue or type 'cancel' to return: " c in
  if isCancel line then print ("Cancelled." ++ nl) c else
  let c := print (nl ++ "--- SALES HISTORY ---" ++ nl) c in
  let c := match sales st with
           | [] => print ("No sales recorded yet." ++ nl) c
           | _ :: _ => print (write_all show_sale (rev (sales st))) c
           end in
  (promptLine "Press Enter to return to menu..." c).2.

Definition ui_listItems (st : State) (c : Console) : Console :=
  let c := print (nl ++ "--- ITEM LIST ---" ++ nl) c in
  let c := match items st with
           | [] => print ("No items in inventory." ++ nl) c
           | _ :: _ => print (write_all show_item (items st)) c
           end in
  (promptLine "Press Enter to return to menu..." c).2.

Definition ui_checkConnection (st : State) (c : Console) : Console :=
  let c := print (nl ++ "Checking database connection..." ++ nl) c in
  let c := print (" [OK] Application memory initialized." ++ nl) c in
  let c := print (" [OK] Item storage active (" ++
                  put_int (Z.of_nat (length (items st))) ++ " items)." ++ nl) c in
  let c := print (" [OK] Sales storage active (" ++
                  put_int (Z.of_nat (length (sales st))) ++ " records)." ++ nl) c in
  let c := print ("Database connection is HEALTHY (Local Mode)." ++ nl) c in
  (promptLine "Press Enter to return to menu..." c).2.

Definition ui_deleteItem (st : State) (c : Console) : State * Console :=
  let c := cin_ignore c in
  let '(line, c) :=
    promptLine "Item ID to DELETE (or type 'cancel' to return): " c in
  match accepted toInt line with
  | None => (st, print ("Cancelled or invalid ID." ++ nl) c)
  | Some id =>
  match find_item id (items st) with
  | None => (st, print ("Item not found." ++ nl) c)
  | Some (_, it) =>
  let c := print ("Deleting Item: " ++ Item.name it ++ " (Qty: " ++
                  put_int (Item.quantity it) ++ ")" ++ nl) c in
  let '(confirm, c) := promptLine "Are you sure? (y/n): " c in
  if negb (String.eqb (toLowerStr (trim confirm)) "y")
  then (st, print ("Deletion cancelled." ++ nl) c) else
  let '(ok, st) := logic_deleteItem st id in
  (st, print (if ok : bool then "Item deleted successfully." ++ nl
              else "Error deleting item." ++ nl) c)
  end end.

(** ** The menu *)

(** What [saveData] and [loadData] write to [cout]. *)
Definition saveData_out (open_items open_sales : bool) : string :=
  (if open_items then " [Saved] Items to items.csv" ++ nl
   else " [Error] Could not save items!" ++ nl) ++
  (if open_sales then " [Saved] Sales to sales.csv" ++ nl
   else " [Error] Could not save sales!" ++ nl).

Definition loadData_out (d : Disk) : result string :=
  st1 ← load_file load_item (items_csv d) init_state;
  st2 ← load_file load_sale (sales_csv d) st1;
  mret ((match items_csv d with
         | Some _ => " [Loaded] " ++ put_int (Z.of_nat (length (items st1)))
                       ++ " items." ++ nl
         | None => ""
         end) ++
        (match sales_csv d with
         | Some _ => " [Loaded] " ++ put_int (Z.of_nat (length (sales st2)))
                       ++ " sales records." ++ nl
         | None => ""
         end) ++
        (match items st2, sales st2 with
         | [], [] => " [Info] No previous data found. Seeded default items."
                       ++ nl
         | _, _ => ""
         end)).

(** [cin >> choice] on a stream that holds [s]: white space is skipped,
    then a sign and digits are taken. The value is [None] when the
    extraction fails, for want of a digit or because the number is no
    [int]; the second component is what the stream holds afterwards. *)
Definition extract_int (s : string) : option Z * string :=
  let '(neg, r) := read_sign (skip_space s) in
  if starts_with_digit r then
    let v := read_digits r 0 in
    let v := if neg : bool then - v else v in
    (if (int_min <=? v) && (v <=? int_max) then Some v else None,
     skip_digits r)
  else (None, r).

(** [if (!(cin >> choice)) { cin.clear(); cin.ignore(...); choice = 0; }] *)
Definition cin_choice (c : Console) : Z * Console :=
  match extract_int (cin c) with
  | (Some v, rest) => (v, {| cin := rest; cout := cout c |})
  | (None, rest) => (0, cin_ignore {| cin := rest; cout := cout c |})
  end.

Definition menu : string :=
  nl ++ "===== INVENTORY MANAGER (Local Storage) =====" ++ nl ++
  "1. Add Item" ++ nl ++
  "2. Update Item" ++ nl ++
  "3. Delete Item" ++ nl ++
  "4. Search Item" ++ nl ++
  "5. Low Stock Alert" ++ nl ++
  "6. Sell Item" ++ nl ++
  "7. Sales History" ++ nl ++
  "8. List All Items" ++ nl ++
  "9. Check System Status" ++ nl ++
  "10. Save & Exit" ++ nl ++
  "Choice: ".

(** Whether the two [ofstream]s of [saveData] open. *)
Variables open_items open_sales : bool.

(** The [switch] of [main]; [now] is the local time during this pass of
    the loop. *)
Definition dispatch (now : tm) (choice : Z) (st : State) (c : Console)
    (d : Disk) : State * Console * Disk :=
  if choice =? 1 then let '(st, c) := ui_addItem st c in (st, c, d)
  else if choice =? 2 then let '(st, c) := ui_updateItem st c in (st, c, d)
  else if choice =? 3 then let '(st, c) := ui_deleteItem st c in (st, c, d)
  else if choice =? 4 then (st, ui_searchItem st c, d)
  else if choice =? 5 then (st, ui_lowStock st c, d)
  else if choice =? 6 then let '(st, c) := ui_sellItem now st c in (st, c, d)
  else if choice =? 7 then (st, ui_salesHistory st c, d)
  else if choice =? 8 then (st, ui_listItems st c, d)
  else if choice =? 9 then (st, ui_checkConnection st c, d)
  else if choice =? 10 then
    (st, print (saveData_out open_items open_sales) c,
     saveData open_items open_sales st d)
  else (st, c, d).

(** The local time during each pass of the loop, counted from 0. *)
Variable clock : nat → tm.

(** The [do ... while (choice != 10)] loop of [main], from its pass
    number [n] on: [None] when [fuel] passes do not bring it to its
    end. *)
Fixpoint menu_loop (fuel n : nat) (st : State) (c : Console) (d : Disk)
    : option (State * Console * Disk) :=
  match fuel with
  | O => None
  | S fuel' =>
      let c := print menu c in
      let '(choice, c) := cin_choice c in
      let '(st, c, d) := dispatch (clock n) choice st c d in
      if choice =? 10 then Some (st, c, d)
      else menu_loop fuel' (S n) st c d
  end.

(** [main]: an exception of [loadData] ends the program; otherwise the
    store, the console and the files at the return of [main], or [None]
    when the loop is still running after [fuel] passes. *)
Definition main (fuel : nat) (c : Console) (d : Disk)
    : result (option (State * Console * Disk)) :=
  let c := print ("Running in STANDALONE mode (In-Memory + CSV Persistence)"
                  ++ nl) c in
  st ← loadData init_state d;
  out ← loadData_out d;
  mret (menu_loop fuel 0 st (print out c) d).
End Dialogs.

(** Every text of the store is free of commas and line feeds. *)
Definition texts_plain (st : State) : Prop :=
  (∀ it, it ∈ items st → plain (Item.name it) ∧ plain (Item.size_color it)) ∧
  (∀ s, s ∈ sales st → plain (Sale.item_name s) ∧ plain (Sale.date_sold s)).

(** A call whose texts are free of commas and line feeds. *)
Definition op_plain (o : op) : Prop :=
  match o with
  | Add name size _ _ _ => plain name ∧ plain size
  | Sell _ _ now => plain now
  | Delete _ | Update _ _ _ _ => True
  end.

(** The store [st'] comes from [st] by logic-layer calls with such
    texts: by any number of them, or by one at most. *)
Definition session (st st' : State) : Prop :=
  ∃ ops, Forall op_plain ops ∧ st' = (run ops st).2.

Definition one_call (st st' : State) : Prop :=
  ∃ ops, (length ops <= 1)%nat ∧ Forall op_plain ops ∧ st' = (run ops st).2.

(** ** A reference instance of [DoubleScan]

    [stod] with the position, for the reference text format: the value
    of [stod_ref] and the count of the characters that make the
    number. *)

Definition drop_chars (n : nat) (s : string) : string :=
  substring n (String.length s - n) s.

(** What is left after an exponent part introduced by [marker]. *)
Definition skip_exponent (marker : ascii) (s : string) : string :=
  match s with
  | String c r =>
      if Ascii.eqb marker (to_lower c) then
        let '(_, r1) := read_sign r in
        if starts_with_digit r1 then skip_digits r1 else s
      else s
  | EmptyString => s
  end.

(** What is left after the number that [read_number] reads. *)
Definition number_rest (s : string) : string :=
  let hex :=
    if prefix_ci "0x" s then
      match read_mantissa hex_val 16 (drop_chars 2 s) with
      | Some (_, _, r) => Some (skip_exponent "p" r)
      | None => None
      end
    else None in
  match hex with
  | Some r => r
  | None =>
      match read_mantissa dec_val 10 s with
      | Some (_, _, r) => skip_exponent "e" r
      | None => s
      end
  end.

(** What is left after the optional [(n-char-sequence)] of a NaN. *)
Fixpoint skip_nchars (s : string) : string :=
  match s with
  | String c s' =>
      let n := nat_of_ascii (to_lower c) in
      if is_digit c || Ascii.eqb c "_" || ((97 <=? n)%nat && (n <=? 122)%nat)
      then skip_nchars s' else s
  | EmptyString => s
  end.

Definition nan_rest (r : string) : string :=
  match r with
  | String "(" r1 =>
      match skip_nchars r1 with
      | String ")" r2 => r2
      | _ => r
      end
  | _ => r
  end.

Definition stod_idx_ref (s : string) : result (float * nat) :=
  let '(_, r) := read_sign (skip_space s) in
  let rest :=
    if prefix_ci "infinity" r then drop_chars 8 r
    else if prefix_ci "inf" r then drop_chars 3 r
    else if prefix_ci "nan" r then nan_rest (drop_chars 3 r)
    else number_rest r in
  match stod_ref s with
  | Ok v => Ok (v, (String.length s - String.length rest)%nat)
  | Throw e => Throw e
  end.

Definition reference_scan : DoubleScan := {| stod_idx := stod_idx_ref |}.

(** * Properties *)

(** ** Machine integers *)

Lemma wrap_int_id (z : Z) : int_range z → wrap_int z = z.
Proof.
  unfold int_range, int_min, int_max, wrap_int. intros Hz.
  rewrite Z.mod_small; lia.
Qed.

Lemma wrap_int_range (z : Z) : int_range (wrap_int z).
Proof.
  unfold int_range, int_min, int_max, wrap_int.
  pose proof (Z.mod_pos_bound (z + 2 ^ 31) (2 ^ 32)). lia.
Qed.

(** ** Binary64 facts behind the sign of a profit

    The kernel's floats are specified by [SpecFloat]; what is needed
    here is that rounding never turns a number of magnitude at least
    [2^emin] into a zero, and keeps its sign. *)

Section Binary64.
Local Abbreviation digits m := (Zpos (digits2_pos m)).
Local Abbreviation emin := (SpecFloat.emin prec emax).

Lemma shr_1_digits (mrs : shr_record) :
  Zdigits2 (shr_m (shr_1 mrs)) = Z.max 0 (Zdigits2 (shr_m mrs) - 1) ∧
  (0 <= shr_m mrs → 0 <= shr_m (shr_1 mrs)).
Proof.
  destruct mrs as [m r s]. destruct m as [|p|p]; simpl.
  - split; [done|lia].
  - destruct p; simpl; split; lia.
  - destruct p; simpl; split; lia.
Qed.

Lemma iter_shr_digits (p : positive) (mrs : shr_record) :
  Zdigits2 (shr_m (SpecFloat.iter_pos shr_1 p mrs)) =
    Z.max 0 (Zdigits2 (shr_m mrs) - Zpos p) ∧
  (0 <= shr_m mrs → 0 <= shr_m (SpecFloat.iter_pos shr_1 p mrs)).
Proof.
  revert mrs. induction p as [p IH|p IH|]; intros mrs; simpl.
  - destruct (shr_1_digits mrs) as [H1 H1'].
    destruct (IH (shr_1 mrs)) as [H2 H2'].
    destruct (IH (SpecFloat.iter_pos shr_1 p (shr_1 mrs))) as [H3 H3'].
    rewrite H3, H2, H1. split; [lia|auto].
  - destruct (IH mrs) as [H2 H2'].
    destruct (IH (SpecFloat.iter_pos shr_1 p mrs)) as [H3 H3'].
    rewrite H3, H2. split; [lia|auto].
  - apply shr_1_digits.
Qed.

Lemma Zdigits2_pos (z : Z) :
  0 <= z → 0 < Zdigits2 z → ∃ m, z = Zpos m.
Proof. destruct z; simpl; intros; [lia|eauto|lia]. Qed.

Lemma shr_fexp_digits (m : positive) (e : Z) (l : location) :
  emin < digits m + e →
  ∃ mrs e' m',
    shr_fexp prec emax (Zpos m) e l = (mrs, e') ∧
    shr_m mrs = Zpos m' ∧
    digits m' + e' = digits m + e ∧
    emin <= e'.
Proof.
  intros Hd. unfold shr_fexp, shr. cbn [Zdigits2].
  set (n := fexp prec emax (digits m + e) - e).
  assert (Hn : n < digits m ∧ emin <= e + n ∧ (n <= 0 → emin <= e)).
  { unfold n, fexp. unfold SpecFloat.emin, prec, emax in *. lia. }
  assert (Hm : shr_m (shr_record_of_loc (Zpos m) l) = Zpos m)
    by (by destruct l as [|[]]).
  destruct n as [|p|p] eqn:En.
  - exists (shr_record_of_loc (Zpos m) l), e, m. split_and!; [done..|lia].
  - destruct (iter_shr_digits p (shr_record_of_loc (Zpos m) l)) as [H1 H2].
    rewrite Hm in H1, H2. cbn [Zdigits2] in H1.
    destruct (Zdigits2_pos (shr_m (SpecFloat.iter_pos shr_1 p
                (shr_record_of_loc (Zpos m) l)))) as [m' Hm'];
      [apply H2; lia|lia|].
    eexists _, _, m'. split; [reflexivity|]. split; [done|].
    rewrite Hm' in H1. cbn [Zdigits2] in H1. lia.
  - exists (shr_record_of_loc (Zpos m) l), e, m. split_and!; [done..|lia].
Qed.

Lemma digits2_succ (p : positive) :
  digits p <= digits (Pos.succ p).
Proof.
  induction p as [p IH|p IH|]; simpl; [|lia..].
  rewrite !Pos2Z.inj_succ. lia.
Qed.

Lemma round_nearest_even_digits (m : positive) (l : location) :
  ∃ m', round_nearest_even (Zpos m) l = Zpos m' ∧ digits m <= digits m'.
Proof.
  pose proof (digits2_succ m) as Hs.
  assert (Hs' : Zpos m + 1 = Zpos (Pos.succ m)) by lia.
  destruct l as [|[]]; simpl round_nearest_even.
  - exists m. split; [done|lia].
  - destruct m; [rewrite Hs'|..]; eauto with lia.
  - exists m. split; [done|lia].
  - rewrite Hs'. eauto.
Qed.

(** Rounding a mantissa of magnitude at least [2^emin]: the result has
    the sign asked for, is not a zero, and is no smaller in binary
    order of magnitude. *)
Lemma binary_round_aux_sign (s : bool) (m : positive) (e : Z) (l : location) :
  emin < digits m + e →
  match binary_round_aux prec emax s (Zpos m) e l with
  | S754_finite s' m' e' => s' = s ∧ digits m + e <= digits m' + e'
  | S754_infinity s' => s' = s
  | _ => False
  end.
Proof.
  intros Hd. unfold binary_round_aux.
  destruct (shr_fexp_digits m e l Hd) as (mrs1 & e1 & m1 & -> & Hm1 & Hd1 & He1).
  rewrite Hm1.
  destruct (round_nearest_even_digits m1 (loc_of_shr_record mrs1))
    as (m2 & -> & Hd2).
  destruct (shr_fexp_digits m2 e1 loc_Exact) as (mrs3 & e3 & m3 & -> & -> & Hd3 & _);
    [lia|].
  destruct (e3 <=? emax - prec); [split; [done|lia]|done].
Qed.
Lemma iter_xO_spec (m d : positive) :
  Zpos (Pos.iter xO m d) = Zpos m * 2 ^ Zpos d ∧
  digits (Pos.iter xO m d) = digits m + Zpos d.
Proof.
  induction d as [|d IH] using Pos.peano_ind.
  - simpl. split; lia.
  - rewrite Pos.iter_succ, Pos2Z.inj_succ, Z.pow_succ_r by lia.
    destruct IH as [IH1 IH2]. cbn [digits2_pos].
    rewrite Pos2Z.inj_xO, IH1, Pos2Z.inj_succ, IH2. split; lia.
Qed.

Lemma shl_align_spec (m : positive) (e e' : Z) :
  ∃ mz ez,
    shl_align m e e' = (mz, ez) ∧
    ez = Z.min e e' ∧
    Zpos mz = Zpos m * 2 ^ (e - ez) ∧
    digits mz + ez = digits m + e.
Proof.
  unfold shl_align. destruct (e' - e) as [|d|d] eqn:Ed.
  - exists m, e. split_and!; [done|lia| |lia].
    replace (e - e) with 0 by lia. lia.
  - exists m, e. split_and!; [done|lia| |lia].
    replace (e - e) with 0 by lia. lia.
  - destruct (iter_xO_spec m d) as [H1 H2].
    eexists _, _. split; [reflexivity|].
    replace (e - e') with (Zpos d) by lia. split_and!; [lia|done|lia].
Qed.

Lemma binary_round_sign (s : bool) (m : positive) (e : Z) :
  emin < digits m + e →
  match binary_round prec emax s m e with
  | S754_finite s' m' e' => s' = s ∧ digits m + e <= digits m' + e'
  | S754_infinity s' => s' = s
  | _ => False
  end.
Proof.
  intros Hd. unfold binary_round.
  destruct (shl_align_spec m e (fexp prec emax (digits m + e)))
    as (mz & ez & -> & _ & _ & Hz).
  rewrite <- Hz. apply binary_round_aux_sign. lia.
Qed.

Lemma digits_bounds (m : positive) :
  2 ^ (digits m - 1) <= Zpos m < 2 ^ digits m.
Proof.
  induction m as [m IH|m IH|]; cbn [digits2_pos].
  - rewrite Pos2Z.inj_succ.
    replace (Z.succ (digits m) - 1) with (Z.succ (digits m - 1)) by lia.
    rewrite !Z.pow_succ_r by lia. lia.
  - rewrite Pos2Z.inj_succ.
    replace (Z.succ (digits m) - 1) with (Z.succ (digits m - 1)) by lia.
    rewrite !Z.pow_succ_r by lia. lia.
  - simpl. lia.
Qed.

Lemma digits_mul (a b : positive) :
  digits a + digits b - 1 <= digits (a * b).
Proof.
  pose proof (digits_bounds a) as [Ha _].
  pose proof (digits_bounds b) as [Hb _].
  pose proof (digits_bounds (a * b)) as [_ Hab].
  rewrite Pos2Z.inj_mul in Hab.
  assert (Hlow : 2 ^ (digits a - 1 + (digits b - 1)) <= Zpos a * Zpos b).
  { rewrite Z.pow_add_r by lia. apply Z.mul_le_mono_nonneg; lia. }
  assert (Hlt : 2 ^ (digits a - 1 + (digits b - 1)) < 2 ^ digits (a * b))
    by lia.
  apply Z.pow_lt_mono_r_iff in Hlt; lia.
Qed.

(** The exponent of a valid float is at least [emin]. *)
Lemma valid_emin (m : positive) (e : Z) :
  bounded prec emax m e = true → emin <= e.
Proof.
  unfold bounded, canonical_mantissa, fexp. intros Hb.
  apply andb_true_iff in Hb as [Hc _]. apply Z.eqb_eq in Hc. lia.
Qed.

(** A positive value times a negative one of magnitude at least 1 is
    negative: the product cannot round to a zero. *)
Lemma SFmul_sign (x y : spec_float) :
  SpecFloat.valid_binary prec emax x = true →
  sf_positive x → sf_negative_ge1 y →
  sf_negative (SFmul prec emax x y).
Proof.
  intros Hv Hx Hy.
  destruct x as [sx|sx| |sx mx ex]; try done; destruct sx; try done;
    destruct y as [sy|sy| |sy my ey]; try done; destruct sy; try done.
  simpl in *. apply valid_emin in Hv.
  pose proof (binary_round_aux_sign true (mx * my) (ex + ey) loc_Exact) as Hr.
  pose proof (digits_mul mx my).
  destruct (binary_round_aux prec emax true (Z.pos (mx * my)) (ex + ey)
              loc_Exact) as [s|s| |s m e]; simpl.
  - apply Hr. lia.
  - rewrite Hr by lia. done.
  - apply Hr. lia.
  - destruct Hr as [-> _]; [lia|done].
Qed.
Lemma valid_canonical (m : positive) (e : Z) :
  bounded prec emax m e = true →
  emin <= e ∧ digits m <= prec ∧ (emin < e → digits m = prec).
Proof.
  unfold bounded, canonical_mantissa, fexp. intros Hb.
  apply andb_true_iff in Hb as [Hc _]. apply Z.eqb_eq in Hc. lia.
Qed.

(** Among valid floats of one sign, the smaller exponent means the
    smaller magnitude, also once both mantissas are aligned. *)
Lemma aligned_lt (m1 m2 : positive) (e1 e2 : Z) :
  bounded prec emax m1 e1 = true → bounded prec emax m2 e2 = true →
  e1 < e2 →
  Zpos m1 < Zpos m2 * 2 ^ (e2 - e1).
Proof.
  intros H1 H2 He.
  apply valid_canonical in H1 as (Hm1 & Hd1 & _).
  apply valid_canonical in H2 as (_ & _ & Hd2).
  pose proof (digits_bounds m1) as [_ Hb1].
  pose proof (digits_bounds m2) as [Hb2 _].
  rewrite Hd2 in Hb2 by lia.
  assert (Hp1 : 2 ^ digits m1 <= 2 ^ prec) by (apply Z.pow_le_mono_r; lia).
  assert (Hp2 : 2 ^ 1 <= 2 ^ (e2 - e1)) by (apply Z.pow_le_mono_r; lia).
  assert (Hp3 : 2 ^ prec = 2 ^ (prec - 1) * 2 ^ 1) by reflexivity.
  assert (Hp4 : 2 ^ (prec - 1) * 2 ^ 1 <= Zpos m2 * 2 ^ (e2 - e1))
    by (apply Z.mul_le_mono_nonneg; lia).
  lia.
Qed.

Lemma binary_normalize_positive (z e : Z) :
  0 < z → emin <= e → sf_positive (binary_normalize prec emax z e false).
Proof.
  intros Hz He. destruct z as [|d|d]; try lia. simpl.
  pose proof (binary_round_sign false d e ltac:(lia)) as Hr.
  destruct (binary_round prec emax false d e) as [s|s| |s m' e'];
    try done; [by rewrite Hr|by destruct Hr as [-> _]].
Qed.

Lemma SFsub_finite_positive (sx sy : bool) (mx my : positive) (ex ey : Z) :
  bounded prec emax mx ex = true → bounded prec emax my ey = true →
  SFcompare (S754_finite sy my ey) (S754_finite sx mx ex) = Some Lt →
  sf_positive (SFsub prec emax (S754_finite sx mx ex) (S754_finite sy my ey)).
Proof.
  intros Hx Hy Hlt. cbn [SFsub].
  destruct (shl_align_spec mx ex (Z.min ex ey)) as (mx' & ? & -> & -> & Hmx & _).
  destruct (shl_align_spec my ey (Z.min ex ey)) as (my' & ? & -> & -> & Hmy & _).
  cbn [fst].
  pose proof (valid_emin mx ex Hx). pose proof (valid_emin my ey Hy).
  apply binary_normalize_positive; [|lia].
  assert (H2x : 0 < 2 ^ (ex - Z.min ex (Z.min ex ey)))
    by (apply Z.pow_pos_nonneg; lia).
  assert (H2y : 0 < 2 ^ (ey - Z.min ey (Z.min ex ey)))
    by (apply Z.pow_pos_nonneg; lia).
  destruct sx, sy; simpl in Hlt |- *; try done.
  (* opposite signs are settled by computation *)
  - (* both negative: [y] has the larger magnitude *)
    destruct (Z.compare_spec ey ex) as [He|He|He]; try done.
    + subst ey. rewrite !Z.min_id, Z.sub_diag, Z.pow_0_r in *.
      injection Hlt as Hlt.
      apply (f_equal CompOpp) in Hlt. rewrite CompOpp_involutive in Hlt.
      change (my > mx)%positive in Hlt. lia.
    + pose proof (aligned_lt mx my ex ey Hx Hy He).
      replace (Z.min ex (Z.min ex ey)) with ex in * by lia.
      replace (Z.min ey (Z.min ex ey)) with ex in * by lia.
      rewrite Z.sub_diag, Z.pow_0_r in *. lia.
  - (* both positive: [y] has the smaller magnitude *)
    destruct (Z.compare_spec ey ex) as [He|He|He]; try done.
    + subst ey. rewrite !Z.min_id, Z.sub_diag, Z.pow_0_r in *.
      injection Hlt as Hlt.
      change (my < mx)%positive in Hlt. lia.
    + pose proof (aligned_lt my mx ey ex Hy Hx He).
      replace (Z.min ex (Z.min ex ey)) with ey in * by lia.
      replace (Z.min ey (Z.min ex ey)) with ey in * by lia.
      rewrite Z.sub_diag, Z.pow_0_r in *. lia.
Qed.

(** [x - y] is positive whenever [y < x]: the difference of two
    distinct floats does not round to a zero. *)
Lemma SFsub_positive (x y : spec_float) :
  SpecFloat.valid_binary prec emax x = true →
  SpecFloat.valid_binary prec emax y = true →
  SFltb y x = true → sf_positive (SFsub prec emax x y).
Proof.
  intros Hx Hy Hlt. unfold SFltb in Hlt.
  destruct (SFcompare y x) as [[]|] eqn:Hc; try done. clear Hlt.
  destruct x as [sx|sx| |sx mx ex], y as [sy|sy| |sy my ey];
    try (by apply SFsub_finite_positive); try done;
    repeat match goal with s : bool |- _ => destruct s end;
    simpl in Hc; done.
Qed.

Lemma double_of_int_negative (q : Z) :
  int_min <= q < 0 → sf_negative_ge1 (Prim2SF (double_of_int q)).
Proof.
  intros Hq. unfold double_of_int.
  destruct (Z.ltb_spec q 0) as [_|]; [|lia].
  rewrite FloatAxioms.opp_spec, FloatAxioms.of_uint63_spec, Uint63.of_Z_spec.
  assert (HwB : wB = 2 ^ 63) by reflexivity.
  rewrite Z.mod_small by (unfold int_min in *; lia).
  destruct (- q) as [|d|d] eqn:Eq; try lia. simpl.
  pose proof (binary_round_sign false d 0
                ltac:(unfold SpecFloat.emin, prec, emax; lia)) as Hr.
  destruct (binary_round prec emax false d 0) as [s|s| |s m' e'];
    try done; simpl.
  - by rewrite Hr.
  - destruct Hr as [-> Hr]. simpl. lia.
Qed.

(** A positive margin times a negative quantity is a negative profit. *)
Lemma profit_negative (sell buy : float) (q : Z) :
  int_min <= q < 0 → PrimFloat.ltb buy sell = true →
  PrimFloat.ltb (PrimFloat.mul (PrimFloat.sub sell buy) (double_of_int q))
                0%float = true.
Proof.
  intros Hq Hlt. rewrite FloatAxioms.ltb_spec in Hlt |- *.
  pose proof (SFsub_positive _ _ (Prim2SF_valid sell) (Prim2SF_valid buy) Hlt)
    as Hpos.
  pose proof (Prim2SF_valid (PrimFloat.sub sell buy)) as Hv.
  pose proof (double_of_int_negative q Hq) as Hneg.
  rewrite FloatAxioms.mul_spec. rewrite FloatAxioms.sub_spec in Hv |- *.
  pose proof (SFmul_sign _ _ Hv Hpos Hneg) as Hm. unfold SF64mul, SF64sub.
  destruct (SFmul prec emax _ _) as [s|s| |s m e]; try done;
    destruct s; done.
Qed.
End Binary64.

(** ** Text helpers *)

Lemma append_String (c : ascii) (a b : string) :
  (String c a ++ b)%string = String c (a ++ b)%string.
Proof. reflexivity. Qed.

Lemma append_assoc (a b c : string) :
  ((a ++ b) ++ c)%string = (a ++ (b ++ c))%string.
Proof. induction a as [|x a IH]; simpl; [done|by rewrite IH]. Qed.

Lemma has_char_app (c : ascii) (a b : string) :
  has_char c (a ++ b)%string = has_char c a || has_char c b.
Proof.
  induction a as [|x a IH]; simpl; [done|].
  by rewrite IH, orb_assoc.
Qed.

Lemma getline_all_unfold (d : ascii) (s : string) :
  getline_all d s =
  match getline d s with
  | None => []
  | Some (x, rest) => x :: getline_all d rest
  end.
Proof.
  induction s as [|c s IH]; simpl; [done|].
  destruct (Ascii.eqb c d); [done|].
  rewrite IH. by destruct (getline d s) as [[x rest]|].
Qed.

Lemma getline_all_cons (d : ascii) (s rest : string) :
  has_char d s = false →
  getline_all d (s ++ String d rest)%string = s :: getline_all d rest.
Proof.
  induction s as [|c s IH]; simpl; intros Hs.
  - by rewrite Ascii.eqb_refl.
  - apply orb_false_iff in Hs as [Hc Hs]. rewrite Hc, IH by done. done.
Qed.

Lemma getline_all_last (d : ascii) (s : string) :
  has_char d s = false → s ≠ "" → getline_all d s = [s].
Proof.
  induction s as [|c s IH]; simpl; intros Hs Hne; [done|].
  apply orb_false_iff in Hs as [Hc Hs]. rewrite Hc.
  destruct s as [|c' s']; [done|].
  by rewrite IH.
Qed.

Lemma trim_not_empty (c : ascii) (s : string) :
  is_trim_ws c = false → empty (trim (String c s)) = false.
Proof.
  intros Hc. unfold trim. simpl. rewrite Hc.
  destruct (find_last_not_of s) as [e|];
    rewrite Nat.sub_0_r, Nat.add_1_r; reflexivity.
Qed.

(** ** Integers as text *)

Lemma digit_char_spec (d : Z) :
  0 <= d < 10 →
  is_digit (digit_char d) = true ∧ digit_val (digit_char d) = d.
Proof.
  intros Hd.
  assert (d = 0 ∨ d = 1 ∨ d = 2 ∨ d = 3 ∨ d = 4 ∨ d = 5 ∨ d = 6 ∨ d = 7
          ∨ d = 8 ∨ d = 9) as Hcases by lia.
  repeat destruct Hcases as [->|Hcases]; try subst d; by vm_compute.
Qed.

Lemma is_digit_neq (c x : ascii) :
  is_digit c = true → is_digit x = false → Ascii.eqb c x = false.
Proof.
  intros Hc Hx. destruct (Ascii.eqb_spec c x) as [->|]; [congruence|done].
Qed.

Lemma put_digits_head (fuel : nat) (n : Z) (acc : string) :
  ∃ c s, put_digits fuel n acc = String c s ∧ is_digit c = true.
Proof.
  revert n acc. induction fuel as [|fuel IH]; intros n acc; simpl.
  - eexists _, _. split; [done|].
    apply digit_char_spec, Z.mod_pos_bound. lia.
  - destruct (n <? 10); [|apply IH].
    eexists _, _. split; [done|].
    apply digit_char_spec, Z.mod_pos_bound. lia.
Qed.

Lemma has_char_put_digits (x : ascii) (fuel : nat) (n : Z) (acc : string) :
  is_digit x = false →
  has_char x (put_digits fuel n acc) = has_char x acc.
Proof.
  intros Hx. revert n acc.
  assert (Hd : ∀ n acc, has_char x (String (digit_char (n mod 10)) acc)
                        = has_char x acc).
  { intros n acc. simpl. rewrite is_digit_neq; [done| |done].
    apply digit_char_spec, Z.mod_pos_bound. lia. }
  induction fuel as [|fuel IH]; intros n acc; cbn [put_digits].
  - apply Hd.
  - destruct (n <? 10); [apply Hd|]. by rewrite IH, Hd.
Qed.

Lemma read_digits_put_digits (fuel : nat) (n : Z) (acc : string) (a : Z) :
  0 <= n < 10 ^ Z.of_nat (S fuel) →
  read_digits (put_digits fuel n acc) a =
  read_digits acc (a * 10 ^ Z.of_nat (count_digits fuel n) + n).
Proof.
  revert n acc a.
  assert (Hd : ∀ n acc a, 0 <= n < 10 →
            read_digits (String (digit_char (n mod 10)) acc) a =
            read_digits acc (a * 10 ^ Z.of_nat 1 + n)).
  { intros n acc a Hn. rewrite Z.mod_small by done.
    destruct (digit_char_spec n Hn) as [H1 H2]. simpl.
    rewrite H1, H2. f_equal. }
  induction fuel as [|fuel IH]; intros n acc a Hn;
    cbn [put_digits count_digits].
  - apply Hd. simpl in Hn. lia.
  - destruct (Z.ltb_spec n 10) as [Hlt|Hge]; [apply Hd; lia|].
    rewrite IH.
    + pose proof (Z.mod_pos_bound n 10 ltac:(lia)) as Hm.
      destruct (digit_char_spec _ Hm) as [H1 H2]. simpl read_digits.
      rewrite H1, H2. f_equal.
      rewrite (Nat2Z.inj_succ (count_digits _ _)), Z.pow_succ_r by lia.
      pose proof (Z.div_mod n 10 ltac:(lia)). lia.
    + rewrite Nat2Z.inj_succ, Z.pow_succ_r in Hn by lia.
      split; [apply Z.div_pos; lia|].
      apply Z.div_lt_upper_bound; lia.
Qed.

Lemma log2_fuel (n : Z) : 0 <= n → n < 10 ^ Z.of_nat (S (Z.to_nat (Z.log2 n))).
Proof.
  intros Hn. rewrite Nat2Z.inj_succ, Z2Nat.id by apply Z.log2_nonneg.
  destruct (decide (n = 0)) as [->|Hne]; [by vm_compute|].
  pose proof (Z.log2_spec n ltac:(lia)) as [_ Hlt].
  eapply Z.lt_le_trans; [exact Hlt|].
  apply Z.pow_le_mono_l. lia.
Qed.

Lemma put_int_head (z : Z) :
  ∃ c s, put_int z = String c s ∧ is_trim_ws c = false.
Proof.
  unfold put_int. destruct (z <? 0).
  - eexists _, _. split; [done|]. reflexivity.
  - destruct (put_digits_head (Z.to_nat (Z.log2 z)) z "") as (c & s & -> & Hc).
    exists c, s. split; [done|].
    unfold is_trim_ws.
    rewrite !is_digit_neq by (done || reflexivity). done.
Qed.

Lemma put_int_plain (z : Z) : plain (put_int z).
Proof.
  unfold plain, put_int. destruct (z <? 0); simpl;
    rewrite !has_char_put_digits by reflexivity; done.
Qed.

Lemma stoi_put_int (z : Z) : int_range z → stoi (put_int z) = Ok z.
Proof.
  intros Hz. unfold put_int.
  destruct (Z.ltb_spec z 0) as [Hneg|Hpos].
  - unfold stoi. cbn [skip_space isspace]. simpl.
    destruct (put_digits_head (Z.to_nat (Z.log2 (- z))) (- z) "")
      as (c & s & E & Hc).
    pose proof (read_digits_put_digits (Z.to_nat (Z.log2 (- z))) (- z) "" 0
                  ltac:(split; [lia|apply log2_fuel; lia])) as Hr.
    rewrite E in *. cbn [starts_with_digit]. rewrite Hc, Hr. simpl.
    rewrite Z.mul_0_l, Z.add_0_l, Z.opp_involutive.
    unfold int_range in Hz.
    destruct (Z.leb_spec int_min z); [|lia].
    destruct (Z.leb_spec z int_max); [|lia]. done.
  - destruct (put_digits_head (Z.to_nat (Z.log2 z)) z "") as (c & s & E & Hc).
    pose proof (read_digits_put_digits (Z.to_nat (Z.log2 z)) z "" 0
                  ltac:(split; [lia|apply log2_fuel; lia])) as Hr.
    rewrite E in *. unfold stoi. cbn [skip_space].
    assert (Hsp : isspace c = false).
    { unfold isspace. rewrite !is_digit_neq by (done || reflexivity). done. }
    rewrite Hsp.
    assert (Hm : Ascii.eqb c "-" = false) by (by apply is_digit_neq).
    assert (Hp : Ascii.eqb c "+" = false) by (by apply is_digit_neq).
    assert (Hsign : read_sign (String c s) = (false, String c s)).
    { unfold read_sign.
      destruct (Ascii.eqb_spec c "-") as [->|]; [done|].
      destruct (Ascii.eqb_spec c "+") as [->|]; [done|].
      destruct c as [[] [] [] [] [] [] [] []]; try done. }
    rewrite Hsign. cbn [starts_with_digit]. rewrite Hc, Hr. simpl.
    rewrite Z.mul_0_l, Z.add_0_l.
    unfold int_range in Hz.
    destruct (Z.leb_spec int_min z); [|lia].
    destruct (Z.leb_spec z int_max); [|lia]. done.
Qed.

(** ** Lookup by id *)

Lemma find_item_Some (id : Z) (l : list Item.t) (i : nat) (it : Item.t) :
  find_item id l = Some (i, it) ↔
  l !! i = Some it ∧ Item.id it = id ∧
  ∀ j y, l !! j = Some y → (j < i)%nat → Item.id y ≠ id.
Proof. apply (list_find_Some (λ it, Item.id it = id)). Qed.

Lemma find_item_None (id : Z) (l : list Item.t) :
  find_item id l = None ↔ ∀ it, it ∈ l → Item.id it ≠ id.
Proof.
  unfold find_item.
  rewrite (list_find_None (λ it, Item.id it = id)), list.Forall_forall.
  reflexivity.
Qed.

Lemma find_item_present (id : Z) (l : list Item.t) :
  (∃ it, it ∈ l ∧ Item.id it = id) ↔ ∃ i it, find_item id l = Some (i, it).
Proof.
  split.
  - intros (it & Hin & Hid).
    destruct (find_item id l) as [[i x]|] eqn:E; [eauto|].
    rewrite find_item_None in E. by destruct (E it Hin).
  - intros (i & it & E). apply find_item_Some in E as (Hl & Hid & _).
    exists it. split; [|done]. by eapply list_elem_of_lookup_2.
Qed.

(** With distinct ids, every item of the store is the one its id finds. *)
Lemma find_item_unique (l : list Item.t) (i : nat) (it : Item.t) :
  NoDup (Item.id <$> l) → l !! i = Some it →
  find_item (Item.id it) l = Some (i, it).
Proof.
  intros Hnd Hl. apply find_item_Some. split_and!; [done..|].
  intros j y Hj Hlt Heq.
  assert (i = j); [|lia].
  apply (NoDup_lookup (Item.id <$> l) i j (Item.id it)); [done|..];
    rewrite list_lookup_fmap; [rewrite Hl|rewrite Hj]; simpl; congruence.
Qed.

(** ** [logic_updateItem] *)

(** C8. [update(id, qty, buy, sell)]: when an item with that id exists
    the call returns true and the first such item, and only it, gets the
    three new values, keeping its id, name and variant; the other items,
    the ledger and both counters are as before. When no item has that id
    the call returns false and the state is as before. *)
Theorem logic_updateItem_frame (st : State) (id qty : Z) (buy sell : float) :
  ((∃ it, it ∈ items st ∧ Item.id it = id) →
   ∃ i it st',
     logic_updateItem st id qty buy sell = (true, st') ∧
     items st !! i = Some it ∧ Item.id it = id ∧
     (∀ j y, items st !! j = Some y → (j < i)%nat → Item.id y ≠ id) ∧
     items st' !! i =
       Some (Item.mk (Item.id it) (Item.name it) (Item.size_color it)
                     qty buy sell) ∧
     (∀ j, j ≠ i → items st' !! j = items st !! j) ∧
     length (items st') = length (items st) ∧
     sales st' = sales st ∧
     nextItemId st' = nextItemId st ∧
     nextSaleId st' = nextSaleId st) ∧
  ((¬ ∃ it, it ∈ items st ∧ Item.id it = id) →
   logic_updateItem st id qty buy sell = (false, st)).
Proof.
  split.
  - intros Hex. apply find_item_present in Hex as (i & it & E).
    exists i, it. eexists. unfold logic_updateItem. rewrite E.
    apply find_item_Some in E as (Hl & Hid & Hfirst).
    split; [reflexivity|]. simpl. split_and!; try done.
    + apply list_lookup_insert_eq. by eapply lookup_lt_Some.
    + intros j Hj. by apply list_lookup_insert_ne.
    + apply length_insert.
  - intros Hno. unfold logic_updateItem.
    destruct (find_item id (items st)) as [[i it]|] eqn:E; [|done].
    destruct Hno. apply find_item_present. eauto.
Qed.

(** ** [logic_sellItem] *)

(** C2. [sell(id, q)] fails in two ways only: with code 1 exactly when
    no item has the id, and with code 2 exactly when the item found has
    less than [q] in stock; on both the whole state (and [profitOut]) is
    as before. Every other call returns 0. *)
Theorem logic_sellItem_failures (st : State) (id q : Z) (now : string)
    (p0 : float) :
  ∃ rc p st',
    logic_sellItem st id q now p0 = (rc, p, st') ∧
    (rc = 0 ∨ rc = 1 ∨ rc = 2) ∧
    (rc = 1 ↔ find_item id (items st) = None) ∧
    (rc = 1 ↔ ¬ ∃ it, it ∈ items st ∧ Item.id it = id) ∧
    (rc = 2 ↔ ∃ i it, find_item id (items st) = Some (i, it) ∧
                     q > Item.quantity it) ∧
    (rc ≠ 0 → st' = st ∧ p = p0).
Proof.
  unfold logic_sellItem.
  destruct (find_item id (items st)) as [[i it]|] eqn:E.
  - assert (Hpres : ∃ it, it ∈ items st ∧ Item.id it = id)
      by (apply find_item_present; eauto).
    destruct (Z.gtb_spec q (Item.quantity it)) as [Hgt|Hle].
    + exists 2, p0, st. split; [done|]. split_and!.
      * auto.
      * split; [lia|done].
      * split; [lia|tauto].
      * split; [|done]. intros _. exists i, it. split; [done|lia].
      * done.
    + eexists 0, _, _. split; [done|]. split_and!.
      * auto.
      * split; [lia|done].
      * split; [lia|tauto].
      * split; [lia|]. intros (i' & it' & [= <- <-] & Hq). lia.
      * by intros [].
  - assert (Habs : ¬ ∃ it, it ∈ items st ∧ Item.id it = id).
    { intros Hpres. apply find_item_present in Hpres as (? & ? & ?).
      congruence. }
    exists 1, p0, st. split; [done|]. split_and!.
    + auto.
    + done.
    + done.
    + split; [lia|]. by intros (? & ? & ? & _).
    + done.
Qed.

(** C1. [sell(id, q)] on the item that [id] finds, with [q] at most its
    quantity: the call returns 0 and puts in [profitOut] the product
    [(selling_price - purchase_price) * q] in [double] arithmetic; the
    item keeps everything but its quantity, which becomes
    [quantity - q] as [int] subtraction computes it (the integer
    difference whenever that is an [int], as it is for every
    [0 <= q <= quantity]); every other item is as before; the ledger
    is the old ledger followed by one sale that carries [q], the item's
    id and name, the profit, the next sale id and the date of the call. *)
Theorem logic_sellItem_success (st : State) (id q : Z) (now : string)
    (p0 : float) (i : nat) (it : Item.t) :
  find_item id (items st) = Some (i, it) →
  q <= Item.quantity it →
  ∃ st' it' s,
    let profit :=
      PrimFloat.mul
        (PrimFloat.sub (Item.selling_price it) (Item.purchase_price it))
        (double_of_int q) in
    logic_sellItem st id q now p0 = (0, profit, st') ∧
    items st' !! i = Some it' ∧
    Item.quantity it' = wrap_int (Item.quantity it - q) ∧
    (int_range (Item.quantity it - q) →
     Item.quantity it' = Item.quantity it - q) ∧
    (0 <= q → int_range (Item.quantity it) →
     Item.quantity it' = Item.quantity it - q) ∧
    Item.id it' = Item.id it ∧ Item.name it' = Item.name it ∧
    Item.size_color it' = Item.size_color it ∧
    Item.purchase_price it' = Item.purchase_price it ∧
    Item.selling_price it' = Item.selling_price it ∧
    (∀ j, j ≠ i → items st' !! j = items st !! j) ∧
    length (items st') = length (items st) ∧
    sales st' = (sales st ++ [s])%list ∧
    Sale.quantity_sold s = q ∧
    Sale.item_id s = id ∧ Sale.item_id s = Item.id it ∧
    Sale.item_name s = Item.name it ∧
    Sale.profit s = profit ∧
    Sale.id s = nextSaleId st ∧
    Sale.date_sold s = now ∧
    nextItemId st' = nextItemId st.
Proof.
  intros E Hq. unfold logic_sellItem. rewrite E.
  apply find_item_Some in E as (Hl & Hid & _).
  destruct (Z.gtb_spec q (Item.quantity it)) as [Hgt|_]; [lia|].
  eexists _,
    (Item.mk (Item.id it) (Item.name it) (Item.size_color it)
       (wrap_int (Item.quantity it - q))
       (Item.purchase_price it) (Item.selling_price it)),
    (Sale.mk (nextSaleId st) (Item.id it) (Item.name it) q _ now).
  cbv zeta. split; [reflexivity|]. simpl.
  split_and!; try done.
  - apply list_lookup_insert_eq. by eapply lookup_lt_Some.
  - intros Hr. by apply wrap_int_id.
  - intros H0 Hr. apply wrap_int_id.
    unfold int_range, int_min, int_max in *. lia.
  - intros j Hj. by apply list_lookup_insert_ne.
  - apply length_insert.
Qed.

Lemma logic_sellItem_success_witness :
  ∃ st' it' s,
    logic_sellItem (seedData init_state) 2 3 "2024-01-01 10:00:00" 0%float
      = (0, 1.5%float, st') ∧
    items st' !! 1%nat = Some it' ∧ Item.quantity it' = 0 ∧
    sales st' = [s] ∧ Sale.quantity_sold s = 3 ∧ Sale.item_id s = 2.
Proof.
  destruct (logic_sellItem_success (seedData init_state) 2 3
              "2024-01-01 10:00:00" 0%float 1%nat
              (Item.mk 2 "Bolt" "Red" 3 0.5%float 1%float))
    as (st' & it' & s & H); [reflexivity | simpl; lia |].
  cbv zeta in H. exists st', it', s.
  destruct H as (H1 & H2 & H3 & _ & _ & _ & _ & _ & _ & _ & _ & _ & H4 & H5 & H6 & _).
  split_and!; [exact H1 | exact H2 | exact H3 | exact H4 | exact H5 | exact H6].
Defined.

(** C1, the claim as stated fails where the subtraction overflows: on
    the seeded store item 1 holds 10 units and [-2147483647] is at most
    that, the sale is accepted, but the quantity left is not
    [10 - (-2147483647)], which is no [int]. *)
Lemma logic_sellItem_success_overflow :
  ∃ it p st' it',
    find_item 1 (items (seedData init_state)) = Some (0%nat, it) ∧
    -2147483647 <= Item.quantity it ∧
    logic_sellItem (seedData init_state) 1 (-2147483647)
      "2024-01-01 10:00:00" 0%float = (0, p, st') ∧
    items st' !! 0%nat = Some it' ∧
    Item.quantity it' ≠ Item.quantity it - (-2147483647).
Proof.
  do 4 eexists. split; [reflexivity|]. split; [by vm_compute|].
  split; [vm_compute; reflexivity|]. split; [reflexivity|].
  by vm_compute.
Qed.

(** ** Sales of a quantity that is not positive *)

Lemma profit_of_nothing (margin : float) :
  PrimFloat.ltb (PrimFloat.mul margin (double_of_int 0)) 0%float = false.
Proof.
  rewrite FloatAxioms.ltb_spec, FloatAxioms.mul_spec.
  change (Prim2SF (double_of_int 0)) with (S754_zero false).
  change (Prim2SF 0%float) with (S754_zero false).
  by destruct (Prim2SF margin) as [[]|[]| |[] m e].
Qed.

(** C4, as amended. [logic_sellItem] has no test on the sign of the
    quantity: for the item that the id finds and a quantity [q <= 0]
    that is at most the item's quantity (every [q <= 0] when the stock
    is not negative), the call returns 0, the quantity becomes
    [quantity - q] as [int] subtraction computes it, which is
    [quantity + |q|] whenever that is an [int], and the sale recorded
    carries the profit [(selling_price - purchase_price) * q] of
    [double] arithmetic, which is negative when the selling price
    exceeds the purchase price and [q < 0], and is not negative when
    [q = 0]. *)
Theorem logic_sellItem_nonpositive (st : State) (id q : Z) (now : string)
    (p0 : float) (i : nat) (it : Item.t) :
  find_item id (items st) = Some (i, it) →
  int_min <= q <= 0 →
  q <= Item.quantity it →
  ∃ st' it' s,
    let profit :=
      PrimFloat.mul
        (PrimFloat.sub (Item.selling_price it) (Item.purchase_price it))
        (double_of_int q) in
    logic_sellItem st id q now p0 = (0, profit, st') ∧
    items st' !! i = Some it' ∧
    Item.quantity it' = wrap_int (Item.quantity it - q) ∧
    (int_range (Item.quantity it + Z.abs q) →
     Item.quantity it' = Item.quantity it + Z.abs q) ∧
    sales st' = (sales st ++ [s])%list ∧
    Sale.quantity_sold s = q ∧
    Sale.item_id s = id ∧
    Sale.profit s = profit ∧
    (q < 0 →
     PrimFloat.ltb (Item.purchase_price it) (Item.selling_price it) = true →
     PrimFloat.ltb (Sale.profit s) 0%float = true) ∧
    (q = 0 → PrimFloat.ltb (Sale.profit s) 0%float = false).
Proof.
  intros E Hq Hle. unfold logic_sellItem. rewrite E.
  apply find_item_Some in E as (Hl & Hid & _).
  destruct (Z.gtb_spec q (Item.quantity it)) as [Hgt|_]; [lia|].
  eexists _,
    (Item.mk (Item.id it) (Item.name it) (Item.size_color it)
       (wrap_int (Item.quantity it - q))
       (Item.purchase_price it) (Item.selling_price it)),
    (Sale.mk (nextSaleId st) (Item.id it) (Item.name it) q _ now).
  cbv zeta. split; [reflexivity|]. simpl.
  split_and!; try done.
  - apply list_lookup_insert_eq. by eapply lookup_lt_Some.
  - intros Hr. rewrite wrap_int_id; [lia|].
    by replace (Item.quantity it - q) with (Item.quantity it + Z.abs q) by lia.
  - intros Hneg Hlt. apply profit_negative; [lia|done].
  - intros ->. apply profit_of_nothing.
Qed.

Lemma logic_sellItem_nonpositive_witness :
  ∃ st' it' s,
    logic_sellItem (seedData init_state) 1 (-5) "2024-01-01 10:00:00" 0%float
      = (0, (-15)%float, st') ∧
    items st' !! 0%nat = Some it' ∧ Item.quantity it' = 15 ∧
    sales st' = [s] ∧ Sale.quantity_sold s = -5 ∧
    PrimFloat.ltb (Sale.profit s) 0%float = true.
Proof.
  destruct (logic_sellItem_nonpositive (seedData init_state) 1 (-5)
              "2024-01-01 10:00:00" 0%float 0%nat
              (Item.mk 1 "Widget" "Small" 10 5%float 8%float))
    as (st' & it' & s & H);
    [reflexivity | vm_compute; split; discriminate | simpl; lia |].
  cbv zeta in H. exists st', it', s.
  destruct H as (H1 & H2 & H3 & _ & H4 & H5 & _ & _ & H6 & _).
  split_and!; [exact H1 | exact H2 | exact H3 | exact H4 | exact H5 |].
  apply H6; [lia | reflexivity].
Defined.

(** C4, the claim as stated fails for [q = 0]: the sale is accepted
    and the selling price exceeds the purchase price, but the profit
    recorded is zero, not negative. *)
Lemma logic_sellItem_zero_profit :
  let st := seedData init_state in
  ∃ it p st' s,
    find_item 1 (items st) = Some (0%nat, it) ∧
    0 <= 0 ∧
    logic_sellItem st 1 0 "2024-01-01 10:00:00" 0%float = (0, p, st') ∧
    sales st' = [s] ∧
    PrimFloat.ltb (Item.purchase_price it) (Item.selling_price it) = true ∧
    Sale.profit s = 0%float ∧
    PrimFloat.ltb (Sale.profit s) 0%float = false.
Proof.
  cbv zeta. do 4 eexists.
  split; [reflexivity|]. split; [done|]. split; [reflexivity|].
  split; [reflexivity|]. split_and!; reflexivity.
Qed.

(** It fails as well on an item whose stock is negative (an update or
    an add can store any quantity): a negative quantity above the stock
    level is rejected. *)
Lemma logic_sellItem_negative_stock_rejects :
  logic_sellItem
    {| items := [Item.mk 1 "Widget" "Small" (-10) 5%float 8%float];
       sales := []; nextItemId := 2; nextSaleId := 1 |}
    1 (-5) "2024-01-01 10:00:00" 0%float
  = (2, 0%float,
     {| items := [Item.mk 1 "Widget" "Small" (-10) 5%float 8%float];
        sales := []; nextItemId := 2; nextSaleId := 1 |}).
Proof. reflexivity. Qed.

(** ** Stock levels under [logic_sellItem] *)

(** Selling a non-negative quantity keeps every stock level a
    non-negative [int]. *)
Lemma logic_sellItem_stock_nonneg (st : State) (id q : Z) (now : string)
    (p0 : float) :
  stock_nonneg st → 0 <= q →
  stock_nonneg (logic_sellItem st id q now p0).2.
Proof.
  intros Hst Hq. unfold logic_sellItem.
  destruct (find_item id (items st)) as [[i it]|] eqn:E; [|done].
  destruct (Z.gtb_spec q (Item.quantity it)) as [Hgt|Hle]; [done|].
  apply find_item_Some in E as (Hl & _ & _).
  intros x Hx. simpl in Hx. apply list_elem_of_lookup in Hx as [j Hj].
  pose proof (Hst it (list_elem_of_lookup_2 _ _ _ Hl)) as Hit.
  destruct (decide (i = j)) as [->|Hne].
  - rewrite list_lookup_insert_eq in Hj by (by eapply lookup_lt_Some).
    injection Hj as <-. simpl.
    rewrite wrap_int_id; unfold int_range, int_min, int_max in *; lia.
  - rewrite list_lookup_insert_ne in Hj by done.
    apply Hst. by eapply list_elem_of_lookup_2.
Qed.

(** A rejected sale leaves every quantity as it was. *)
Lemma logic_sellItem_rejected (st : State) (id q : Z) (now : string)
    (p0 : float) :
  (logic_sellItem st id q now p0).1.1 = 2 →
  (logic_sellItem st id q now p0).2 = st.
Proof.
  unfold logic_sellItem.
  destruct (find_item id (items st)) as [[i it]|]; [|done].
  by destruct (q >? Item.quantity it).
Qed.

Lemma sell_all_stock_nonneg (calls : list (Z * Z * string)) (st : State) :
  stock_nonneg st → Forall (λ c, 0 <= c.1.2) calls →
  stock_nonneg (sell_all calls st).
Proof.
  revert st. induction calls as [|[[id q] now] calls IH]; intros st Hst Hq.
  - done.
  - inversion Hq as [|? ? Hq1 Hq2]; subst. simpl.
    apply IH; [|done]. by apply logic_sellItem_stock_nonneg.
Qed.

(** C5. The non-negative stock invariant does not survive a sale of a
    negative quantity: on the seeded store, where every quantity is
    non-negative, [sell(1, -2147483647)] is accepted (10 is not less
    than the quantity asked) and leaves item 1 with
    [10 - (-2147483647)] reduced to an [int], which is negative. *)
Theorem logic_sellItem_negative_stock :
  let st := seedData init_state in
  (∀ it, it ∈ items st → 0 <= Item.quantity it) ∧
  ∃ p st' it',
    logic_sellItem st 1 (-2147483647) "2024-01-01 10:00:00" 0%float
      = (0, p, st') ∧
    items st' !! 0%nat = Some it' ∧
    Item.id it' = 1 ∧
    Item.quantity it' = -2147483639 ∧
    Item.quantity it' < 0.
Proof.
  split.
  - intros it Hin. cbn in Hin.
    repeat (apply elem_of_cons in Hin as [->|Hin]; [by vm_compute|]).
    by apply elem_of_nil in Hin.
  - do 3 eexists. split; [vm_compute; reflexivity|].
    split; [reflexivity|]. split_and!; [reflexivity..|done].
Qed.

(** ** [logic_addItem] and the id counter *)

Lemma ids_below_init : ids_below init_state.
Proof. intros it Hin. by apply elem_of_nil in Hin. Qed.

Lemma ids_below_seed : ids_below (seedData init_state).
Proof.
  intros it Hin. cbn in Hin.
  repeat (apply elem_of_cons in Hin as [->|Hin]; [by vm_compute|]).
  by apply elem_of_nil in Hin.
Qed.

Lemma logic_deleteItem_ids_below (st : State) (id : Z) :
  ids_below st →
  ids_below (logic_deleteItem st id).2 ∧
  nextItemId (logic_deleteItem st id).2 = nextItemId st.
Proof.
  intros Hinv. unfold logic_deleteItem.
  destruct (find_item id (items st)) as [[i it]|]; [|done].
  split; [|done]. intros x Hx. simpl in *. apply Hinv.
  by eapply list_elem_of_delete_inv.
Qed.

Lemma insert_same_id (l : list Item.t) (i : nat) (it it' x : Item.t) :
  l !! i = Some it → Item.id it' = Item.id it → x ∈ <[i := it']> l →
  ∃ y, y ∈ l ∧ Item.id y = Item.id x.
Proof.
  intros Hl Hid Hx. apply list_elem_of_lookup in Hx as [j Hj].
  destruct (decide (i = j)) as [->|Hne].
  - rewrite list_lookup_insert_eq in Hj by (by eapply lookup_lt_Some).
    injection Hj as <-. exists it. split; [|done].
    by eapply list_elem_of_lookup_2.
  - rewrite list_lookup_insert_ne in Hj by done.
    exists x. split; [|done]. by eapply list_elem_of_lookup_2.
Qed.

Lemma logic_updateItem_ids_below (st : State) (id qty : Z) (buy sell : float) :
  ids_below st →
  ids_below (logic_updateItem st id qty buy sell).2 ∧
  nextItemId (logic_updateItem st id qty buy sell).2 = nextItemId st.
Proof.
  intros Hinv. unfold logic_updateItem.
  destruct (find_item id (items st)) as [[i it]|] eqn:E; [|done].
  apply find_item_Some in E as (Hl & _ & _).
  split; [|done]. intros x Hx. simpl in *.
  eapply insert_same_id in Hx as (y & Hy & <-); [|done|done].
  by apply Hinv.
Qed.

Lemma logic_sellItem_ids_below (st : State) (id q : Z) (now : string)
    (p0 : float) :
  ids_below st →
  ids_below (logic_sellItem st id q now p0).2 ∧
  nextItemId (logic_sellItem st id q now p0).2 = nextItemId st.
Proof.
  intros Hinv. unfold logic_sellItem.
  destruct (find_item id (items st)) as [[i it]|] eqn:E; [|done].
  destruct (q >? Item.quantity it); [done|].
  apply find_item_Some in E as (Hl & _ & _).
  split; [|done]. intros x Hx. simpl in *.
  eapply insert_same_id in Hx as (y & Hy & <-); [|done|done].
  by apply Hinv.
Qed.

Lemma logic_addItem_ids_below (st : State) name size qty buy sell :
  ids_below st → int_range (nextItemId st + 1) →
  ids_below (logic_addItem st name size qty buy sell).2 ∧
  nextItemId (logic_addItem st name size qty buy sell).2 = nextItemId st + 1.
Proof.
  intros Hinv Hr. unfold logic_addItem. simpl.
  rewrite wrap_int_id by done. split; [|done].
  intros x Hx. simpl in *. apply elem_of_app in Hx as [Hx|Hx].
  - apply Hinv in Hx. lia.
  - apply list_elem_of_singleton in Hx as ->. simpl. lia.
Qed.

(** The ids that the adds of a run return are the consecutive values of
    the counter, as long as the counter stays an [int]. *)
Lemma run_ids (ops : list op) (st : State) :
  ids_below st → int_min <= nextItemId st →
  nextItemId st + Z.of_nat (count_adds ops) <= int_max →
  (run ops st).1 =
    (λ k : nat, nextItemId st + Z.of_nat k) <$> seq 0 (count_adds ops) ∧
  ids_below (run ops st).2 ∧
  nextItemId (run ops st).2 = nextItemId st + Z.of_nat (count_adds ops).
Proof.
  revert st. induction ops as [|o ops IH]; intros st Hinv Hlo Hhi.
  - unfold count_adds. simpl. split_and!; [done|done|lia].
  - assert (Hstep : ∃ r st', step st o = (r, st') ∧ ids_below st' ∧
              nextItemId st' = nextItemId st + (if is_add o then 1 else 0) ∧
              r = if is_add o then Some (nextItemId st) else None).
    { destruct o as [name size qty buy sell|id|id qty buy sell|id qty now];
        simpl.
      - unfold count_adds in Hhi. simpl in Hhi.
        destruct (logic_addItem_ids_below st name size qty buy sell Hinv)
          as [H1 H2]; [unfold int_range; lia|].
        unfold logic_addItem in *. simpl in *. eauto 10.
      - destruct (logic_deleteItem_ids_below st id Hinv) as [H1 H2].
        do 2 eexists. split_and!; [done|done|lia|done].
      - destruct (logic_updateItem_ids_below st id qty buy sell Hinv)
          as [H1 H2].
        do 2 eexists. split_and!; [done|done|lia|done].
      - destruct (logic_sellItem_ids_below st id qty now 0%float Hinv)
          as [H1 H2].
        do 2 eexists. split_and!; [done|done|lia|done]. }
    destruct Hstep as (r & st' & Hs & Hinv' & Hnext & Hr).
    simpl. rewrite Hs.
    assert (Hc : count_adds (o :: ops) =
                 ((if is_add o then 1 else 0) + count_adds ops)%nat).
    { unfold count_adds. simpl. unfold filter. simpl.
      destruct (is_add o); simpl; done. }
    rewrite Hc in *.
    destruct (IH st' Hinv') as (IH1 & IH2 & IH3).
    { destruct (is_add o); lia. }
    { destruct (is_add o); lia. }
    destruct (run ops st') as [ids st''] eqn:Hrun. simpl in *.
    split_and!; [|done|destruct (is_add o); lia].
    rewrite IH1, Hr, Hnext. destruct (is_add o); simpl.
    + f_equal; [f_equal; lia|].
      rewrite <- fmap_S_seq, <- list_fmap_compose.
      apply list_fmap_ext. intros ? k _. simpl. lia.
    + apply list_fmap_ext. intros ? k _. simpl. lia.
Qed.

(** C7. From a state whose item ids are all below the counter (the
    initial state, the seeded state and every state the logic layer
    reaches from them), after any calls of add, delete, update and sell,
    an add returns an id under which an immediate lookup finds exactly
    the item just inserted, with the field values given; no item of the
    store had that id; and the ids returned by the adds of the run and
    by this one are the consecutive values of the counter, hence
    strictly increasing and never repeated, starting at 1 when the
    counter starts at 1. The counter is assumed to stay an [int]. *)
Theorem logic_addItem_fresh_increasing (st : State) (ops : list op)
    (name size : string) (qty : Z) (buy sell : float) :
  ids_below st → int_min <= nextItemId st →
  nextItemId st + Z.of_nat (count_adds ops) <= int_max →
  ∃ ids st1 new st2,
    run ops st = (ids, st1) ∧
    logic_addItem st1 name size qty buy sell = (new, st2) ∧
    find_item new (items st2) =
      Some (length (items st1), Item.mk new name size qty buy sell) ∧
    (∀ it, it ∈ items st1 → Item.id it ≠ new) ∧
    (ids ++ [new])%list =
      ((λ k : nat, nextItemId st + Z.of_nat k) <$>
         seq 0 (S (count_adds ops))) ∧
    (∀ a b x y, (ids ++ [new])%list !! a = Some x →
                (ids ++ [new])%list !! b = Some y → (a < b)%nat → x < y) ∧
    (nextItemId st = 1 → (ids ++ [new])%list !! 0%nat = Some 1).
Proof.
  intros Hinv Hlo Hhi.
  destruct (run_ids ops st Hinv Hlo Hhi) as (Hids & Hinv1 & Hnext).
  destruct (run ops st) as [ids st1] eqn:Hrun. simpl in *.
  exists ids, st1, (nextItemId st1). eexists.
  split; [done|]. split; [reflexivity|]. simpl.
  assert (Hall : (ids ++ [nextItemId st1])%list =
            ((λ k : nat, nextItemId st + Z.of_nat k) <$>
               seq 0 (S (count_adds ops)))).
  { rewrite seq_S, fmap_app, <- Hids. simpl. by rewrite Hnext. }
  assert (Hfresh : ∀ it, it ∈ items st1 → Item.id it ≠ nextItemId st1).
  { intros it Hin. apply Hinv1 in Hin. lia. }
  split_and!; [|done|done| |].
  - apply find_item_Some. split_and!.
    + by rewrite lookup_app_r, Nat.sub_diag.
    + done.
    + intros j y Hj Hlt. rewrite lookup_app_l in Hj by done.
      apply Hfresh. by eapply list_elem_of_lookup_2.
  - rewrite Hall. intros a b x y Ha Hb Hab.
    rewrite list_lookup_fmap in Ha, Hb.
    destruct (seq 0 (S (count_adds ops)) !! a) as [ka|] eqn:Ea; [|done].
    destruct (seq 0 (S (count_adds ops)) !! b) as [kb|] eqn:Eb; [|done].
    apply lookup_seq in Ea as [-> _]. apply lookup_seq in Eb as [-> _].
    simpl in *. injection Ha as <-. injection Hb as <-. lia.
  - intros H1. rewrite Hall. simpl. rewrite H1. done.
Qed.

Lemma logic_addItem_fresh_increasing_witness :
  ∃ ids st1 new st2,
    run [Add "Cog" "Green" 2 1%float 2%float; Delete 1;
         Sell 1 1 "2024-01-01 10:00:00"; Add "Nut" "" 7 1%float 3%float]
        init_state = (ids, st1) ∧
    logic_addItem st1 "Pin" "Long" 4 2%float 5%float = (new, st2) ∧
    (ids ++ [new])%list = [1; 2; 3] ∧
    find_item new (items st2) =
      Some (1%nat, Item.mk 3 "Pin" "Long" 4 2%float 5%float).
Proof.
  destruct (logic_addItem_fresh_increasing init_state
              [Add "Cog" "Green" 2 1%float 2%float; Delete 1;
               Sell 1 1 "2024-01-01 10:00:00"; Add "Nut" "" 7 1%float 3%float]
              "Pin" "Long" 4 2%float 5%float)
    as (ids & st1 & new & st2 & H1 & H2 & H3 & _ & H5 & _).
  - exact ids_below_init.
  - vm_compute. discriminate.
  - vm_compute. discriminate.
  - exists ids, st1, new, st2.
    vm_compute in H1. injection H1 as <- <-.
    vm_compute in H2. injection H2 as <- <-.
    split_and!; reflexivity.
Defined.

(** C7, the claim as stated fails where the counter passes [INT_MAX].
    A store loaded from a file with the ids [INT_MIN] and [INT_MAX] has
    its counter at [INT_MIN]: an add returns the id of the first item,
    and the lookup of that id finds the old item, not the one inserted.
    And from a store loaded from a file whose largest id is
    [INT_MAX - 1], two adds return [INT_MAX] and then [INT_MIN]: the
    ids do not increase. *)
Lemma logic_addItem_counter_wraps :
  ∃ st new st' st2,
    loadData (H := reference_text) init_state
      {| items_csv :=
           Some ("-2147483648,A,x,1,1,1" ++
                 String LF ("2147483647,B,y,1,1,1" ++ String LF ""))%string;
         sales_csv := None |} = Ok st ∧
    logic_addItem st "C" "z" 2 3%float 4%float = (new, st') ∧
    find_item new (items st') =
      Some (0%nat, Item.mk (-2147483648) "A" "x" 1 1%float 1%float) ∧
    find_item new (items st') ≠
      Some (2%nat, Item.mk new "C" "z" 2 3%float 4%float) ∧
    loadData (H := reference_text) init_state
      {| items_csv := Some ("2147483646,B,y,1,1,1" ++ String LF "")%string;
         sales_csv := None |} = Ok st2 ∧
    (run [Add "C" "z" 2 3%float 4%float; Add "D" "w" 2 3%float 4%float]
         st2).1 = [2147483647; -2147483648].
Proof.
  do 4 eexists. split; [vm_compute; reflexivity|].
  split; [vm_compute; reflexivity|]. split; [vm_compute; reflexivity|].
  split; [by vm_compute|]. split; [vm_compute; reflexivity|].
  vm_compute. reflexivity.
Qed.

(** The scenario of the specification, on the seeded store: the added
    item gets id 4, selling 5 of its 2 units is refused and changes
    nothing, selling 2 succeeds with profit 2 and empties the stock. *)
Example cog_scenario :
  let st0 := seedData init_state in
  let '(id, st1) := logic_addItem st0 "Cog" "Green" 2 1%float 2%float in
  let '(rc2, p2, st2) := logic_sellItem st1 id 5 "2024-01-01 10:00:00" 0%float in
  let '(rc3, p3, st3) := logic_sellItem st2 id 2 "2024-01-01 10:00:01" 0%float in
  id = 4 ∧
  rc2 = 2 ∧ st2 = st1 ∧
  rc3 = 0 ∧ p3 = 2%float ∧
  items st3 !! 3%nat = Some (Item.mk 4 "Cog" "Green" 0 1%float 2%float) ∧
  sales st3 = [Sale.mk 1 4 "Cog" 2 2%float "2024-01-01 10:00:01"].
Proof. vm_compute. split_and!; reflexivity. Qed.

(** ** [loadData] *)

Section Load.
Context `{DoubleText}.

(** C9. With neither file there to open, [loadData] leaves exactly
    the three seeded items, with ids 1, 2 and 3, no sale, and the
    counters at 4 and 1, whatever the memory held before. *)
Theorem loadData_absent_seeds (st : State) :
  loadData st {| items_csv := None; sales_csv := None |} =
  Ok {| items := [Item.mk 1 "Widget" "Small" 10 5%float 8%float;
                  Item.mk 2 "Bolt" "Red" 3 0.5%float 1%float;
                  Item.mk 3 "Gadget" "Blue" 20 10%float 15%float];
        sales := [];
        nextItemId := 4;
        nextSaleId := 1 |}.
Proof. reflexivity. Qed.

(** C10. [loadData] starts from empty vectors and counters at 1: its
    outcome is the one it has on the initial state, whatever the
    memory held, and loading the same files a second time changes
    nothing. *)
Theorem loadData_forgets_memory (st : State) (d : Disk) :
  loadData st d = loadData init_state d ∧
  (∀ st', loadData st d = loadData st' d) ∧
  (loadData st d ≫= λ st', loadData st' d) = loadData st d.
Proof.
  assert (Hind : ∀ st1 st2, loadData st1 d = loadData st2 d)
    by reflexivity.
  split_and!; [apply Hind|apply Hind|].
  destruct (loadData st d) as [st'|e] eqn:E; simpl; [|done].
  by rewrite (Hind st' st).
Qed.

(** C6. A line with six fields whose id is not a number makes
    [loadData] throw: the line is not skipped, the well-formed line
    after it is not loaded, and the exception of [stoi] reaches the
    caller. *)
Theorem loadData_malformed_number_throws (st : State) :
  loadData st
    {| items_csv :=
         Some ("abc,Widget,Small,10,5,8" ++ String LF
                 ("2,Bolt,Red,3,0.5,1" ++ String LF ""))%string;
       sales_csv := None |}
  = Throw invalid_argument.
Proof. reflexivity. Qed.

(** What the guard of the loops does skip: blank lines and lines with
    fewer than six fields. *)
Lemma load_lines_skips_short (body : list string → State → result State)
    (line : string) (rest : list string) (st : State) :
  (length (parseCSV line) < 6)%nat →
  (body = load_item ∨ body = load_sale) →
  load_lines body (line :: rest) st = load_lines body rest st.
Proof.
  intros Hlen Hbody. simpl. destruct (empty (trim line)); [done|].
  destruct (parseCSV line) as [|d0 [|d1 [|d2 [|d3 [|d4 [|d5 l]]]]]];
    simpl in Hlen; try lia; by destruct Hbody as [-> | ->].
Qed.
End Load.

(** The same happens for a price that is no number, here with the
    reference text format. *)
Example loadData_malformed_price_throws :
  loadData (H := reference_text) init_state
    {| items_csv := Some ("1,Widget,Small,10,abc,8" ++ String LF "")%string;
       sales_csv := None |}
  = Throw invalid_argument.
Proof. vm_compute. reflexivity. Qed.

(** And a number that is no [int] throws [out_of_range]. *)
Example loadData_huge_id_throws :
  loadData (H := reference_text) init_state
    {| items_csv := Some ("2147483648,Widget,Small,10,5,8" ++ String LF "")%string;
       sales_csv := None |}
  = Throw out_of_range.
Proof. vm_compute. reflexivity. Qed.

(** ** Save, then load *)

Lemma next_id_spec (ids : list Z) (c : Z) :
  Forall (λ id, int_min <= id < int_max) ids →
  c <= next_id c ids ∧ Forall (λ id, id < next_id c ids) ids.
Proof.
  revert c. induction ids as [|id ids IH]; intros c Hids.
  - split; [done|constructor].
  - inversion Hids as [|? ? Hid Hids']; subst. unfold next_id. simpl.
    fold (next_id (if id >=? c then wrap_int (id + 1) else c) ids).
    destruct (IH (if id >=? c then wrap_int (id + 1) else c) Hids')
      as [Hle Hall].
    assert (Hw : wrap_int (id + 1) = id + 1).
    { apply wrap_int_id. unfold int_range, int_min, int_max in *. lia. }
    rewrite Hw in *.
    destruct (Z.geb_spec id c); (split; [lia|constructor; [lia|done]]).
Qed.

Section Roundtrip.
Context `{DoubleText}.

Lemma load_lines_fmap {A : Type} (text : A → string)
    (body : list string → State → result State) (push : State → A → State)
    (ok : A → Prop) (l : list A) (st : State) :
  (∀ x st, ok x → empty (trim (text x)) = false ∧
                  body (parseCSV (text x)) st = Ok (push st x)) →
  Forall ok l →
  load_lines body (text <$> l) st = Ok (foldl push st l).
Proof.
  intros Hbody Hl. revert st.
  induction Hl as [|x l Hx Hl IH]; intros st; [done|].
  destruct (Hbody x st Hx) as [Htrim Hb].
  cbn [fmap list_fmap load_lines foldl]. rewrite Htrim, Hb. simpl. apply IH.
Qed.

Lemma getline_all_write_all {A : Type} (line text : A → string) (l : list A) :
  (∀ x, line x = (text x ++ String LF "")%string) →
  Forall (λ x, has_char LF (text x) = false) l →
  getline_all LF (write_all line l) = text <$> l.
Proof.
  intros Hline Hl. induction Hl as [|x l Hx Hl IH]; [done|].
  cbn [write_all fmap list_fmap]. rewrite Hline, append_assoc. simpl append.
  rewrite getline_all_cons by done. by rewrite IH.
Qed.

Lemma sep_assoc (a b c : string) :
  (sep a b ++ c)%string = sep a (b ++ c)%string.
Proof. unfold sep. by rewrite append_assoc. Qed.

Lemma item_line_text (it : Item.t) :
  item_line it = (item_text it ++ String LF "")%string.
Proof. unfold item_line, item_text. by rewrite !sep_assoc. Qed.

Lemma sale_line_text (s : Sale.t) :
  sale_line s = (sale_text s ++ String LF "")%string.
Proof. unfold sale_line, sale_text. by rewrite !sep_assoc. Qed.

Lemma has_char_sep (c : ascii) (a b : string) :
  has_char c (sep a b) = has_char c a || Ascii.eqb COMMA c || has_char c b.
Proof. unfold sep. rewrite has_char_app. simpl. by rewrite orb_assoc. Qed.

Lemma parseCSV_sep (a b : string) :
  has_char COMMA a = false → parseCSV (sep a b) = a :: parseCSV b.
Proof. intros Ha. unfold parseCSV, sep. by apply getline_all_cons. Qed.

Lemma sep_head (a b : string) (c : ascii) (s : string) :
  a = String c s → sep a b = String c (sep s b).
Proof. by intros ->. Qed.

Lemma item_text_ok (it : Item.t) (st : State) :
  item_ok it →
  empty (trim (item_text it)) = false ∧
  load_item (parseCSV (item_text it)) st =
    Ok {| items := items st ++ [it];
          sales := sales st;
          nextItemId := if Item.id it >=? nextItemId st
                        then wrap_int (Item.id it + 1) else nextItemId st;
          nextSaleId := nextSaleId st |}.
Proof.
  intros (Hid & Hq & [Hn _] & [Hs _] & [Hb [Hbc _]] & [Hp [Hpc _]] & Hne).
  unfold item_text. split.
  - destruct (put_int_head (Item.id it)) as (c & s & E & Hc).
    rewrite (sep_head _ _ c s E). by apply trim_not_empty.
  - rewrite !parseCSV_sep by (done || apply put_int_plain).
    unfold parseCSV. rewrite getline_all_last by done.
    unfold load_item.
    rewrite !stoi_put_int by (done || unfold int_range, int_max in *; lia).
    simpl. rewrite Hb. simpl. rewrite Hp. simpl. by destruct it.
Qed.

Lemma sale_text_ok (s : Sale.t) (st : State) :
  sale_ok s →
  empty (trim (sale_text s)) = false ∧
  load_sale (parseCSV (sale_text s)) st =
    Ok {| items := items st;
          sales := sales st ++ [s];
          nextItemId := nextItemId st;
          nextSaleId := if Sale.id s >=? nextSaleId st
                        then wrap_int (Sale.id s + 1) else nextSaleId st |}.
Proof.
  intros (Hid & Hi & Hq & [Hn _] & [Hp [Hpc _]] & [Hd _] & Hne).
  unfold sale_text. split.
  - destruct (put_int_head (Sale.id s)) as (c & r & E & Hc).
    rewrite (sep_head _ _ c r E). by apply trim_not_empty.
  - rewrite !parseCSV_sep by (done || apply put_int_plain).
    unfold parseCSV. rewrite getline_all_last by done.
    unfold load_sale.
    rewrite !stoi_put_int by (done || unfold int_range, int_max in *; lia).
    simpl. rewrite Hp. simpl. by destruct s.
Qed.

Lemma item_text_no_LF (it : Item.t) :
  item_ok it → has_char LF (item_text it) = false.
Proof.
  intros (Hid & Hq & [_ Hn] & [_ Hs] & [_ [_ Hb]] & [_ [_ Hp]] & _).
  unfold item_text. rewrite !has_char_sep, Hn, Hs, Hb, Hp.
  by rewrite !(proj2 (put_int_plain _)).
Qed.

Lemma sale_text_no_LF (s : Sale.t) :
  sale_ok s → has_char LF (sale_text s) = false.
Proof.
  intros (Hid & Hi & Hq & [_ Hn] & [_ [_ Hp]] & [_ Hd] & _).
  unfold sale_text. rewrite !has_char_sep, Hn, Hd, Hp.
  by rewrite !(proj2 (put_int_plain _)).
Qed.

Lemma foldl_push_items (l : list Item.t) (st : State) :
  foldl (λ st it,
           {| items := items st ++ [it];
              sales := sales st;
              nextItemId := if Item.id it >=? nextItemId st
                            then wrap_int (Item.id it + 1) else nextItemId st;
              nextSaleId := nextSaleId st |}) st l =
  {| items := items st ++ l;
     sales := sales st;
     nextItemId := next_id (nextItemId st) (Item.id <$> l);
     nextSaleId := nextSaleId st |}.
Proof.
  revert st. induction l as [|it l IH]; intros st.
  - simpl. rewrite app_nil_r. by destruct st.
  - cbn [foldl]. rewrite IH. simpl. by rewrite <- app_assoc.
Qed.

Lemma foldl_push_sales (l : list Sale.t) (st : State) :
  foldl (λ st s,
           {| items := items st;
              sales := sales st ++ [s];
              nextItemId := nextItemId st;
              nextSaleId := if Sale.id s >=? nextSaleId st
                            then wrap_int (Sale.id s + 1) else nextSaleId st |})
        st l =
  {| items := items st;
     sales := sales st ++ l;
     nextItemId := nextItemId st;
     nextSaleId := next_id (nextSaleId st) (Sale.id <$> l) |}.
Proof.
  revert st. induction l as [|s l IH]; intros st.
  - simpl. rewrite app_nil_r. by destruct st.
  - cbn [foldl]. rewrite IH. simpl. by rewrite <- app_assoc.
Qed.

(** What [loadData] returns on the files that a successful [saveData]
    wrote, before the seeding test. *)
Lemma loadData_saveData (st st0 : State) (d : Disk) :
  Forall item_ok (items st) → Forall sale_ok (sales st) →
  loadData st0 (saveData true true st d) =
  Ok (let st' := {| items := items st;
                    sales := sales st;
                    nextItemId := next_id 1 (Item.id <$> items st);
                    nextSaleId := next_id 1 (Sale.id <$> sales st) |} in
      match items st, sales st with
      | [], [] => seedData st'
      | _, _ => st'
      end).
Proof.
  intros Hi Hs. unfold loadData, saveData, load_file. cbn [items_csv sales_csv].
  rewrite (getline_all_write_all item_line item_text)
    by (apply item_line_text ||
        (eapply Forall_impl; [|exact Hi]; apply item_text_no_LF)).
  rewrite (load_lines_fmap item_text load_item _ item_ok)
    by (done || intros; by apply item_text_ok).
  rewrite foldl_push_items. cbn [mbind result_bind items sales nextItemId nextSaleId].
  rewrite (getline_all_write_all sale_line sale_text)
    by (apply sale_line_text ||
        (eapply Forall_impl; [|exact Hs]; apply sale_text_no_LF)).
  rewrite (load_lines_fmap sale_text load_sale _ sale_ok)
    by (done || intros; by apply sale_text_ok).
  rewrite foldl_push_sales. cbn [mbind result_bind items sales nextItemId nextSaleId].
  simpl. done.
Qed.
End Roundtrip.

(** C3, as amended. For a state that holds at least one item or sale
    and whose records the text format carries ([item_ok], [sale_ok]:
    ids and quantities that are [int]s, ids below [INT_MAX], texts
    without comma or line feed, a date that is not empty, prices and
    profits that are written and read back unchanged), saving with both
    files opened and then loading, from any memory, returns the same
    items and the same sales in the same order, and leaves both
    counters above every id present. *)
Theorem save_load_roundtrip `{DoubleText} (st st0 : State) (d : Disk) :
  Forall item_ok (items st) → Forall sale_ok (sales st) →
  ¬ (items st = [] ∧ sales st = []) →
  ∃ st',
    loadData st0 (saveData true true st d) = Ok st' ∧
    items st' = items st ∧
    sales st' = sales st ∧
    (∀ it, it ∈ items st' → Item.id it < nextItemId st') ∧
    (∀ s, s ∈ sales st' → Sale.id s < nextSaleId st') ∧
    1 <= nextItemId st' ∧ 1 <= nextSaleId st'.
Proof.
  intros Hi Hs Hne. rewrite loadData_saveData by done. cbv zeta.
  exists {| items := items st;
            sales := sales st;
            nextItemId := next_id 1 (Item.id <$> items st);
            nextSaleId := next_id 1 (Sale.id <$> sales st) |}.
  split.
  { destruct (items st) as [|it l]; [|reflexivity].
    destruct (sales st) as [|s l]; [|reflexivity].
    by destruct Hne. }
  simpl.
  destruct (next_id_spec (Item.id <$> items st) 1) as [Hi1 Hi2].
  { apply Forall_fmap. eapply Forall_impl; [|exact Hi].
    by intros it (? & _). }
  destruct (next_id_spec (Sale.id <$> sales st) 1) as [Hs1 Hs2].
  { apply Forall_fmap. eapply Forall_impl; [|exact Hs].
    by intros s (? & _). }
  split_and!; try done.
  - intros it Hin. rewrite list.Forall_forall in Hi2. apply Hi2.
    apply list_elem_of_fmap. eauto.
  - intros s Hin. rewrite list.Forall_forall in Hs2. apply Hs2.
    apply list_elem_of_fmap. eauto.
Qed.

Lemma save_load_roundtrip_witness :
  let st := (logic_sellItem (seedData init_state) 2 3
               "2024-01-01 10:00:00" 0%float).2 in
  ∃ st',
    loadData (H := reference_text) init_state
      (saveData (H := reference_text) true true st
         {| items_csv := None; sales_csv := None |}) = Ok st' ∧
    items st' = items st ∧
    sales st' = sales st.
Proof.
  cbv zeta.
  destruct (save_load_roundtrip (H := reference_text)
              (logic_sellItem (seedData init_state) 2 3
                 "2024-01-01 10:00:00" 0%float).2
              init_state {| items_csv := None; sales_csv := None |})
    as (st' & H1 & H2 & H3 & _).
  - repeat constructor; vm_compute; congruence.
  - repeat constructor; vm_compute; congruence.
  - intros [Hnil _]. vm_compute in Hnil. discriminate.
  - exists st'. split_and!; [exact H1|exact H2|exact H3].
Defined.

(** The items file that [saveData] writes for the seeded store. *)
Example saveData_seeded_items :
  items_csv (saveData (H := reference_text) true true (seedData init_state)
               {| items_csv := None; sales_csv := None |}) =
  Some ("1,Widget,Small,10,5,8" ++ String LF
        ("2,Bolt,Red,3,0.5,1" ++ String LF
         ("3,Gadget,Blue,20,10,15" ++ String LF "")))%string.
Proof. vm_compute. reflexivity. Qed.

(** C3, the claim as stated fails on the empty store: its two files
    are written empty, and loading them seeds the three default items,
    whatever the double format. *)
Lemma save_load_empty_store_seeds :
  items init_state = [] ∧ sales init_state = [] ∧
  ∀ (T : DoubleText) (st0 : State) (d : Disk),
    ∃ st', loadData st0 (saveData true true init_state d) = Ok st' ∧
           length (items st') = 3%nat ∧
           items st' ≠ items init_state.
Proof.
  split_and!; [done..|].
  intros T st0 d. eexists. split; [reflexivity|]. split; [reflexivity|].
  simpl. discriminate.
Qed.

(** Two more ways a record can fail to come back: a comma in a name
    shifts the fields (here the quantity field then holds a colour and
    [stoi] throws), and a price with more than six significant digits
    is written rounded. *)
Lemma save_load_comma_in_name :
  loadData (H := reference_text) init_state
    (saveData (H := reference_text) true true
       {| items := [Item.mk 1 "Nut, hex" "Zinc" 4 1%float 2%float];
          sales := []; nextItemId := 2; nextSaleId := 1 |}
       {| items_csv := None; sales_csv := None |})
  = Throw invalid_argument.
Proof. vm_compute. reflexivity. Qed.

Lemma save_load_rounds_price :
  ∃ st',
    loadData (H := reference_text) init_state
      (saveData (H := reference_text) true true
         {| items := [Item.mk 1 "Car" "Red" 1 1234567%float 1234567%float];
            sales := []; nextItemId := 2; nextSaleId := 1 |}
         {| items_csv := None; sales_csv := None |}) = Ok st' ∧
    items st' = [Item.mk 1 "Car" "Red" 1 1234570%float 1234570%float].
Proof. eexists. split; vm_compute; reflexivity. Qed.

(** ** The ids of a loaded store *)

Lemma stoi_int_range (s : string) (z : Z) : stoi s = Ok z → int_range z.
Proof.
  unfold stoi. destruct (read_sign (skip_space s)) as [neg r].
  destruct (starts_with_digit r); [|done].
  destruct (Z.leb_spec int_min (if neg then - read_digits r 0
                                else read_digits r 0)); [|done].
  destruct (Z.leb_spec (if neg then - read_digits r 0 else read_digits r 0)
              int_max); [|done].
  simpl. intros [= <-]. done.
Qed.

Section LoadedIds.
Context `{DoubleText}.

Lemma load_item_inv (data : list string) (st st' : State) :
  load_item data st = Ok st' → load_inv st → load_inv st'.
Proof.
  unfold load_item.
  destruct data as [|d0 [|d1 [|d2 [|d3 [|d4 [|d5 l]]]]]];
    try (by intros [= <-]).
  destruct (stoi d0) as [id|] eqn:Eid; [|done].
  destruct (stoi d3) as [qty|]; [|done].
  destruct (stod d4) as [buy|]; [|done].
  destruct (stod d5) as [sell|]; [|done].
  simpl. intros [= <-] Hinv Hmax. simpl in *.
  apply stoi_int_range in Eid as [Hlo _].
  destruct Hinv as (Hbelow & Hone & _).
  { intros it Hin. apply Hmax, elem_of_app. by left. }
  assert (Hid : id < int_max).
  { apply (Hmax (Item.mk id d1 d2 qty buy sell)), elem_of_app. right.
    by apply list_elem_of_singleton. }
  assert (Hw : wrap_int (id + 1) = id + 1).
  { apply wrap_int_id. unfold int_range. lia. }
  rewrite Hw. split_and!.
  - intros it Hin. simpl in *. apply elem_of_app in Hin as [Hin|Hin].
    + apply Hbelow in Hin. destruct (Z.geb_spec id (nextItemId st)); lia.
    + apply list_elem_of_singleton in Hin as ->. simpl.
      destruct (Z.geb_spec id (nextItemId st)); lia.
  - destruct (Z.geb_spec id (nextItemId st)); lia.
  - intros Hnil. by destruct (items st).
Qed.

Lemma load_sale_inv (data : list string) (st st' : State) :
  load_sale data st = Ok st' → load_inv st → load_inv st'.
Proof.
  unfold load_sale.
  destruct data as [|d0 [|d1 [|d2 [|d3 [|d4 [|d5 l]]]]]];
    try (by intros [= <-]).
  destruct (stoi d0) as [id|]; [|done].
  destruct (stoi d1) as [item_id|]; [|done].
  destruct (stoi d3) as [qty|]; [|done].
  destruct (stod d4) as [profit|]; [|done].
  simpl. by intros [= <-].
Qed.

Lemma load_lines_inv (body : list string → State → result State)
    (lines : list string) (st st' : State) :
  (∀ data st st', body data st = Ok st' → load_inv st → load_inv st') →
  load_lines body lines st = Ok st' → load_inv st → load_inv st'.
Proof.
  intros Hbody. revert st.
  induction lines as [|line lines IH]; intros st; simpl.
  - by intros [= <-].
  - destruct (empty (trim line)); [apply IH|].
    destruct (body (parseCSV line) st) as [st1|] eqn:E; [|done].
    simpl. intros Hl Hinv. eapply IH; [done|]. by eapply Hbody.
Qed.

(** After a load that returns, and unless an id read is [INT_MAX], every
    item id is below the item counter: the state in which [main] starts
    its menu satisfies the invariant that id lookup relies on. *)
Lemma loadData_ids_below (st st' : State) (d : Disk) :
  loadData st d = Ok st' →
  (∀ it, it ∈ items st' → Item.id it < int_max) →
  ids_below st' ∧ 1 <= nextItemId st'.
Proof.
  unfold loadData, load_file. cbn [items sales nextItemId nextSaleId].
  set (st0 := {| items := []; sales := []; nextItemId := 1; nextSaleId := 1 |}).
  assert (H0 : load_inv st0).
  { intros _. split_and!; [|done..]. intros it Hin.
    by apply elem_of_nil in Hin. }
  destruct (match items_csv d with
            | Some content => load_lines load_item (getline_all LF content) st0
            | None => mret st0
            end) as [st1|] eqn:E1; [|done].
  assert (H1 : load_inv st1).
  { destruct (items_csv d); [|by injection E1 as <-].
    eapply load_lines_inv; [apply load_item_inv|done..]. }
  simpl.
  destruct (match sales_csv d with
            | Some content => load_lines load_sale (getline_all LF content) st1
            | None => mret st1
            end) as [st2|] eqn:E2; [|done].
  assert (H2 : load_inv st2).
  { destruct (sales_csv d); [|by injection E2 as <-].
    eapply load_lines_inv; [apply load_sale_inv|done..]. }
  simpl. intros [= <-] Hmax.
  destruct (items st2) as [|it l] eqn:Ei.
  - assert (Hm2 : ∀ it, it ∈ items st2 → Item.id it < int_max).
    { rewrite Ei. by intros ? ?%elem_of_nil. }
    destruct (H2 Hm2) as (_ & _ & Hone). specialize (Hone Ei).
    destruct (sales st2) as [|s l]; unfold ids_below.
    + unfold seedData. cbn [items nextItemId]. rewrite Ei, Hone.
      split; [|by vm_compute]. intros it Hin. cbn in Hin.
      repeat (apply elem_of_cons in Hin as [->|Hin]; [by vm_compute|]).
      by apply elem_of_nil in Hin.
    + rewrite Ei, Hone. split; [|done]. intros it Hin.
      by apply elem_of_nil in Hin.
  - by destruct (H2 Hmax) as (? & ? & _).
Qed.
End LoadedIds.

(** * Further properties *)

(** ** [logic_deleteItem] *)

(** X1. [logic_deleteItem]: when an item has the id, the call returns
    true and removes the first such item and nothing else: the items
    before it and after it keep their order, the store is one shorter,
    and the ledger and both counters are as before (the sales of the
    deleted item stay in the ledger). When no item has the id the call
    returns false and the state is as before. *)
Theorem logic_deleteItem_frame (st : State) (id : Z) :
  ((∃ it, it ∈ items st ∧ Item.id it = id) →
   ∃ i it st',
     logic_deleteItem st id = (true, st') ∧
     items st !! i = Some it ∧ Item.id it = id ∧
     (∀ j y, items st !! j = Some y → (j < i)%nat → Item.id y ≠ id) ∧
     items st' = (take i (items st) ++ drop (S i) (items st))%list ∧
     (∀ j, (j < i)%nat → items st' !! j = items st !! j) ∧
     (∀ j, (i <= j)%nat → items st' !! j = items st !! S j) ∧
     S (length (items st')) = length (items st) ∧
     sales st' = sales st ∧
     nextItemId st' = nextItemId st ∧
     nextSaleId st' = nextSaleId st) ∧
  ((¬ ∃ it, it ∈ items st ∧ Item.id it = id) →
   logic_deleteItem st id = (false, st)).
Proof.
  split.
  - intros Hex. apply find_item_present in Hex as (i & it & E).
    exists i, it. eexists. unfold logic_deleteItem. rewrite E.
    apply find_item_Some in E as (Hl & Hid & Hfirst).
    split; [reflexivity|]. simpl. split_and!; try done.
    + apply delete_take_drop.
    + intros j Hj. by apply list_lookup_delete_lt.
    + intros j Hj. by apply list_lookup_delete_ge.
    + pose proof (lookup_lt_Some _ _ _ Hl). rewrite length_delete by eauto.
      lia.
  - intros Hno. unfold logic_deleteItem.
    destruct (find_item id (items st)) as [[i it]|] eqn:E; [|done].
    destruct Hno. apply find_item_present. eauto.
Qed.

(** X2. What a lookup finds after [logic_deleteItem]. With distinct ids,
    an id that has been deleted is no longer found (and an id that was
    not there is still not found). In general only the first item with
    the id is erased: the lookup then finds the next item with that id
    further on in the store, one place up, and nothing when there is no
    such item. *)
Theorem logic_deleteItem_then_find (st : State) (id : Z) :
  (unique_ids st →
   find_item id (items (logic_deleteItem st id).2) = None) ∧
  (∀ i it, find_item id (items st) = Some (i, it) →
     find_item id (items (logic_deleteItem st id).2) =
       (λ '(j, x), ((i + j)%nat, x)) <$>
         find_item id (drop (S i) (items st))).
Proof.
  split.
  - intros Hnd. unfold logic_deleteItem.
    destruct (find_item id (items st)) as [[i it]|] eqn:E; [|done].
    simpl. apply find_item_None. intros x Hx Hxid.
    apply find_item_Some in E as (Hl & Hid & _).
    apply list_elem_of_lookup in Hx as [j Hj].
    unfold unique_ids in Hnd.
    destruct (decide (j < i)%nat) as [Hlt|Hge].
    + rewrite list_lookup_delete_lt in Hj by done.
      assert (j = i); [|lia].
      apply (NoDup_lookup (Item.id <$> items st) j i id); [done|..];
        rewrite list_lookup_fmap; [rewrite Hj|rewrite Hl]; simpl; congruence.
    + rewrite list_lookup_delete_ge in Hj by lia.
      assert (S j = i); [|lia].
      apply (NoDup_lookup (Item.id <$> items st) (S j) i id); [done|..];
        rewrite list_lookup_fmap; [rewrite Hj|rewrite Hl]; simpl; congruence.
  - intros i it E. unfold logic_deleteItem. rewrite E. simpl.
    apply find_item_Some in E as (Hl & Hid & Hfirst).
    assert (Hlen : length (take i (items st)) = i).
    { apply length_take_le. apply lookup_lt_Some in Hl. lia. }
    assert (Hnone : find_item id (take i (items st)) = None).
    { apply find_item_None. intros x [j [Hj Hlt]]%elem_of_take.
      by eapply Hfirst. }
    rewrite delete_take_drop. unfold find_item in *.
    rewrite (list_find_app_r _ _ _ Hnone), Hlen.
    destruct (list_find _ (drop (S i) (items st))) as [[j x]|]; simpl;
      [|done].
    do 2 f_equal. lia.
Qed.

Lemma logic_deleteItem_then_find_witness :
  find_item 2 (items (logic_deleteItem (seedData init_state) 2).2) = None.
Proof.
  destruct (logic_deleteItem_then_find (seedData init_state) 2) as [Hu _].
  apply Hu. unfold unique_ids. by apply (bool_decide_unpack _).
Defined.

(** Without distinct ids the lookup finds the next item with the id. *)
Example logic_deleteItem_duplicate :
  let st := {| items := [Item.mk 1 "A" "" 1 1%float 1%float;
                         Item.mk 1 "B" "" 2 1%float 1%float];
               sales := []; nextItemId := 2; nextSaleId := 1 |} in
  find_item 1 (items (logic_deleteItem st 1).2)
  = Some (0%nat, Item.mk 1 "B" "" 2 1%float 1%float).
Proof. reflexivity. Qed.

(** ** Unique ids *)

Lemma insert_same_id_ids (l : list Item.t) (i : nat) (it it' : Item.t) :
  l !! i = Some it → Item.id it' = Item.id it →
  Item.id <$> <[i := it']> l = Item.id <$> l.
Proof.
  intros Hl Hid. rewrite list_fmap_insert, Hid.
  apply list_insert_id. by rewrite list_lookup_fmap, Hl.
Qed.

Lemma step_unique_ids (st : State) (o : op) :
  ids_below st → unique_ids st → unique_ids (step st o).2.
Proof.
  unfold unique_ids. intros Hinv Hnd.
  destruct o as [name size qty buy sell|id|id qty buy sell|id qty now]; simpl.
  - rewrite fmap_app. apply list.NoDup_app. split_and!; [done| |].
    + intros x Hx Hin. apply list_elem_of_singleton in Hin. simpl in Hin. subst x.
      apply list_elem_of_fmap in Hx as (it & Hid & Hit).
      apply Hinv in Hit. lia.
    + apply NoDup_singleton.
  - unfold logic_deleteItem.
    destruct (find_item id (items st)) as [[i it]|]; [|done]. simpl.
    rewrite list_fmap_delete.
    eapply sublist_NoDup; [done|apply sublist_delete].
  - unfold logic_updateItem.
    destruct (find_item id (items st)) as [[i it]|] eqn:E; [|done]. simpl.
    apply find_item_Some in E as (Hl & _ & _).
    by rewrite (insert_same_id_ids _ _ it).
  - unfold logic_sellItem.
    destruct (find_item id (items st)) as [[i it]|] eqn:E; [|done].
    destruct (qty >? Item.quantity it); [done|]. simpl.
    apply find_item_Some in E as (Hl & _ & _).
    by rewrite (insert_same_id_ids _ _ it).
Qed.

Lemma step_ids_below (st : State) (o : op) :
  ids_below st → int_min <= nextItemId st < int_max →
  ids_below (step st o).2 ∧
  nextItemId (step st o).2 = nextItemId st + (if is_add o then 1 else 0).
Proof.
  intros Hinv Hr.
  destruct o as [name size qty buy sell|id|id qty buy sell|id qty now]; simpl.
  - apply logic_addItem_ids_below; [done|].
    unfold int_range, int_min, int_max in *. lia.
  - rewrite Z.add_0_r. by apply logic_deleteItem_ids_below.
  - rewrite Z.add_0_r. by apply logic_updateItem_ids_below.
  - rewrite Z.add_0_r. by apply logic_sellItem_ids_below.
Qed.

Lemma count_adds_cons (o : op) (ops : list op) :
  count_adds (o :: ops) = ((if is_add o then 1 else 0) + count_adds ops)%nat.
Proof. unfold count_adds, filter. simpl. by destruct (is_add o). Qed.

Lemma run_cons (o : op) (ops : list op) (st : State) :
  (run (o :: ops) st).2 = (run ops (step st o).2).2.
Proof.
  simpl. destruct (step st o) as [r st']. simpl.
  by destruct (run ops st') as [ids st''].
Qed.

(** X3. The uniqueness of item ids is an invariant of the logic layer:
    from a store whose ids are distinct and below the counter, any run
    of add, delete, update and sell calls leaves distinct ids, as long
    as the counter stays an [int]. *)
Theorem run_unique_ids (ops : list op) (st : State) :
  ids_below st → unique_ids st →
  int_min <= nextItemId st →
  nextItemId st + Z.of_nat (count_adds ops) <= int_max →
  unique_ids (run ops st).2 ∧ ids_below (run ops st).2.
Proof.
  revert st. induction ops as [|o ops IH]; intros st Hinv Hnd Hlo Hhi.
  - done.
  - rewrite run_cons. rewrite count_adds_cons in Hhi.
    destruct (is_add o) eqn:Ho.
    + destruct (step_ids_below st o Hinv) as [Hinv' Hnext]; [lia|].
      rewrite Ho in Hnext.
      apply IH; [done|by apply step_unique_ids|lia|lia].
    + assert (Hstep : ids_below (step st o).2 ∧
                      nextItemId (step st o).2 = nextItemId st).
      { destruct o; try done; simpl.
        - by apply logic_deleteItem_ids_below.
        - by apply logic_updateItem_ids_below.
        - by apply logic_sellItem_ids_below. }
      destruct Hstep as [Hinv' Hnext].
      apply IH; [done|by apply step_unique_ids|lia|lia].
Qed.

Lemma run_unique_ids_witness :
  unique_ids
    (run [Add "Cog" "Green" 2 1%float 2%float; Delete 2;
          Update 1 7 1%float 2%float; Sell 3 4 "2024-01-01 10:00:00";
          Add "Nut" "" 7 1%float 3%float]
         (seedData init_state)).2.
Proof.
  destruct (run_unique_ids
              [Add "Cog" "Green" 2 1%float 2%float; Delete 2;
               Update 1 7 1%float 2%float; Sell 3 4 "2024-01-01 10:00:00";
               Add "Nut" "" 7 1%float 3%float]
              (seedData init_state)) as [Hu _].
  - exact ids_below_seed.
  - unfold unique_ids. by apply (bool_decide_unpack _).
  - vm_compute. discriminate.
  - vm_compute. discriminate.
  - exact Hu.
Defined.

(** ** The ledger under the logic layer *)

Lemma step_sales (st : State) (o : op) :
  (sales (step st o).2 = sales st ∧
   nextSaleId (step st o).2 = nextSaleId st) ∨
  (is_sell o = true ∧
   ∃ s, sales (step st o).2 = (sales st ++ [s])%list ∧
        Sale.id s = nextSaleId st ∧
        nextSaleId (step st o).2 = wrap_int (nextSaleId st + 1)).
Proof.
  destruct o as [name size qty buy sell|id|id qty buy sell|id qty now]; simpl.
  - by left.
  - left. unfold logic_deleteItem.
    by destruct (find_item id (items st)) as [[i it]|].
  - left. unfold logic_updateItem.
    by destruct (find_item id (items st)) as [[i it]|].
  - unfold logic_sellItem.
    destruct (find_item id (items st)) as [[i it]|]; [|by left].
    destruct (qty >? Item.quantity it); [by left|].
    right. split; [done|]. eexists. simpl. done.
Qed.

Lemma count_sells_cons (o : op) (ops : list op) :
  count_sells (o :: ops) = ((if is_sell o then 1 else 0) + count_sells ops)%nat.
Proof. unfold count_sells, filter. simpl. by destruct (is_sell o). Qed.

(** X4. The ledger is append-only under the logic layer: after any run
    of add, delete, update and sell calls the ledger is the old ledger,
    unchanged and in place, followed by at most one new sale per sell
    call. *)
Theorem run_ledger_append_only (ops : list op) (st : State) :
  ∃ new,
    sales (run ops st).2 = (sales st ++ new)%list ∧
    (length new <= count_sells ops)%nat ∧
    ∀ k s, sales st !! k = Some s → sales (run ops st).2 !! k = Some s.
Proof.
  assert (Hmain : ∃ new, sales (run ops st).2 = (sales st ++ new)%list ∧
                         (length new <= count_sells ops)%nat).
  { revert st. induction ops as [|o ops IH]; intros st.
    - exists []. by rewrite app_nil_r.
    - rewrite run_cons, count_sells_cons.
      destruct (IH (step st o).2) as (new & -> & Hlen).
      destruct (step_sales st o) as [[-> _]|(-> & s & -> & _)].
      + exists new. split; [done|lia].
      + exists (s :: new). rewrite <- app_assoc. split; [done|]. simpl. lia. }
  destruct Hmain as (new & Hs & Hlen). exists new. split_and!; [done..|].
  intros k s Hk. rewrite Hs. by apply lookup_app_l_Some.
Qed.

(** X5. Sale ids are given out like item ids: from a ledger whose ids
    are below the sale counter, any run leaves the old ledger followed
    by new sales whose ids are the consecutive values of the counter, so
    the ids of a ledger stay below the counter, and stay distinct when
    they were, as long as the counter stays an [int]. *)
Theorem run_sale_ids (ops : list op) (st : State) :
  sale_ids_below st →
  int_min <= nextSaleId st →
  nextSaleId st + Z.of_nat (count_sells ops) <= int_max →
  ∃ new,
    sales (run ops st).2 = (sales st ++ new)%list ∧
    Sale.id <$> new =
      ((λ k : nat, nextSaleId st + Z.of_nat k) <$> seq 0 (length new)) ∧
    nextSaleId (run ops st).2 = nextSaleId st + Z.of_nat (length new) ∧
    sale_ids_below (run ops st).2 ∧
    (NoDup (Sale.id <$> sales st) →
     NoDup (Sale.id <$> sales (run ops st).2)).
Proof.
  intros Hbelow Hlo Hhi.
  assert (Hmain : ∃ new,
    sales (run ops st).2 = (sales st ++ new)%list ∧
    Sale.id <$> new =
      ((λ k : nat, nextSaleId st + Z.of_nat k) <$> seq 0 (length new)) ∧
    nextSaleId (run ops st).2 = nextSaleId st + Z.of_nat (length new)).
  { clear Hbelow. revert st Hlo Hhi.
    induction ops as [|o ops IH]; intros st Hlo Hhi.
    - exists []. rewrite app_nil_r. simpl. split_and!; [done..|lia].
    - rewrite run_cons. rewrite count_sells_cons in Hhi.
      destruct (step_sales st o) as [[Hs Hn]|(Ho & s & Hs & Hid & Hn)].
      + destruct (IH (step st o).2) as (new & -> & Hids & ->).
        { lia. } { destruct (is_sell o); lia. }
        rewrite Hs, Hn in *. by exists new.
      + rewrite Ho in Hhi.
        rewrite wrap_int_id in Hn
          by (unfold int_range, int_min, int_max in *; lia).
        destruct (IH (step st o).2) as (new & -> & Hids & ->).
        { lia. } { lia. }
        rewrite Hs, Hn in *. exists (s :: new).
        rewrite <- app_assoc. split; [done|]. split.
        * cbn [fmap list_fmap length seq]. rewrite Hid, Hids.
          f_equal; [lia|].
          rewrite <- fmap_S_seq, <- list_fmap_compose.
          apply list_fmap_ext. intros ? k _. simpl. lia.
        * cbn [length]. lia. }
  destruct Hmain as (new & Hs & Hids & Hn). exists new.
  assert (Hnew : ∀ s, s ∈ new →
            nextSaleId st <= Sale.id s < nextSaleId st + Z.of_nat (length new)).
  { intros s Hin.
    assert (Hin' : Sale.id s ∈ Sale.id <$> new)
      by (apply list_elem_of_fmap; eauto).
    rewrite Hids in Hin'. apply list_elem_of_fmap in Hin' as (k & -> & Hk).
    apply elem_of_seq in Hk. lia. }
  split_and!; [done..| |].
  - intros s Hin. rewrite Hs in Hin. rewrite Hn.
    apply elem_of_app in Hin as [Hin|Hin].
    + apply Hbelow in Hin. lia.
    + apply Hnew in Hin. lia.
  - intros Hnd. rewrite Hs, fmap_app. apply list.NoDup_app. split_and!.
    + done.
    + intros x Hx Hx'.
      apply list_elem_of_fmap in Hx as (s & -> & Hs1).
      apply list_elem_of_fmap in Hx' as (s' & Heq & Hs2).
      apply Hbelow in Hs1. apply Hnew in Hs2. lia.
    + rewrite Hids. apply NoDup_fmap_2; [|apply NoDup_seq].
      intros a b Hab. lia.
Qed.

Lemma run_sale_ids_witness :
  ∃ new,
    sales (run [Sell 1 2 "2024-01-01 10:00:00"; Sell 9 1 "2024-01-01 10:01:00";
                Delete 1; Sell 2 1 "2024-01-01 10:02:00"]
               (seedData init_state)).2 = new ∧
    Sale.id <$> new = [1; 2].
Proof.
  destruct (run_sale_ids
              [Sell 1 2 "2024-01-01 10:00:00"; Sell 9 1 "2024-01-01 10:01:00";
               Delete 1; Sell 2 1 "2024-01-01 10:02:00"]
              (seedData init_state)) as (new & Hs & _).
  - intros s Hin. by apply elem_of_nil in Hin.
  - vm_compute. discriminate.
  - vm_compute. discriminate.
  - exists new. split; [exact Hs|].
    vm_compute in Hs. subst new. reflexivity.
Defined.

(** ** How the store operations compose *)

(** X6. After an update that returned true, looking the id up finds,
    at the place of the item found before, the item with the three new
    values and the old id, name and variant. *)
Theorem logic_updateItem_then_find (st st' : State) (id qty : Z)
    (buy sell : float) :
  logic_updateItem st id qty buy sell = (true, st') →
  ∃ i it,
    find_item id (items st) = Some (i, it) ∧
    find_item id (items st') =
      Some (i, Item.mk id (Item.name it) (Item.size_color it) qty buy sell).
Proof.
  unfold logic_updateItem.
  destruct (find_item id (items st)) as [[i it]|] eqn:E; [|done].
  intros [= <-]. exists i, it. split; [done|]. simpl.
  apply find_item_Some in E as (Hl & Hid & Hfirst).
  apply find_item_Some. split_and!.
  - rewrite list_lookup_insert_eq by (by eapply lookup_lt_Some).
    by rewrite Hid.
  - done.
  - intros j y Hj Hlt. rewrite list_lookup_insert_ne in Hj by lia. eauto.
Qed.

Lemma logic_updateItem_then_find_witness :
  ∃ i it,
    find_item 2 (items (seedData init_state)) = Some (i, it) ∧
    find_item 2 (items (logic_updateItem (seedData init_state) 2 40
                          0.25%float 0.75%float).2) =
      Some (i, Item.mk 2 "Bolt" "Red" 40 0.25%float 0.75%float).
Proof.
  destruct (logic_updateItem_then_find (seedData init_state)
              (logic_updateItem (seedData init_state) 2 40
                 0.25%float 0.75%float).2 2 40 0.25%float 0.75%float)
    as (i & it & H1 & H2); [reflexivity|].
  exists i, it. split; [exact H1|].
  vm_compute in H1. injection H1 as <- <-. exact H2.
Defined.

(** X7. Adding an item and deleting it again under the id that the add
    returned restores the items, the ledger and the sale counter; only
    the item counter has moved on, so the id is not given out again.
    This needs the ids of the store to be below the counter. *)
Theorem logic_addItem_then_delete (st : State) (name size : string)
    (qty : Z) (buy sell : float) :
  ids_below st →
  let '(id, st1) := logic_addItem st name size qty buy sell in
  logic_deleteItem st1 id =
    (true, {| items := items st;
              sales := sales st;
              nextItemId := wrap_int (nextItemId st + 1);
              nextSaleId := nextSaleId st |}).
Proof.
  intros Hinv. simpl. unfold logic_deleteItem. simpl.
  assert (E : find_item (nextItemId st)
                (items st ++ [Item.mk (nextItemId st) name size qty buy sell])
              = Some (length (items st),
                      Item.mk (nextItemId st) name size qty buy sell)).
  { apply find_item_Some. split_and!.
    - by rewrite lookup_app_r, Nat.sub_diag.
    - done.
    - intros j y Hj Hlt. rewrite lookup_app_l in Hj by done.
      apply list_elem_of_lookup_2, Hinv in Hj. lia. }
  rewrite E. f_equal. f_equal.
  by rewrite delete_middle, app_nil_r.
Qed.

Lemma logic_addItem_then_delete_witness :
  logic_deleteItem
    (logic_addItem (seedData init_state) "Cog" "Green" 2 1%float 2%float).2 4
  = (true, {| items := items (seedData init_state);
              sales := [];
              nextItemId := 5;
              nextSaleId := 1 |}).
Proof.
  exact (logic_addItem_then_delete (seedData init_state) "Cog" "Green" 2
           1%float 2%float ids_below_seed).
Defined.

(** ** Splitting at a delimiter *)

Lemma getline_all_nil (d : ascii) (s : string) :
  getline_all d s = [] ↔ s = "".
Proof.
  destruct s as [|c s]; simpl; [done|].
  destruct (Ascii.eqb c d); [done|].
  by destruct (getline_all d s).
Qed.

Lemma join_cons_char (d c : ascii) (x : string) (xs : list string) :
  join d (String c x :: xs) = String c (join d (x :: xs)).
Proof. by destruct xs. Qed.

Lemma last_char_cons (c : ascii) (s : string) :
  s ≠ "" → last_char (String c s) = last_char s.
Proof. by destruct s. Qed.

Lemma getline_all_pieces (c d : ascii) (s x : string) :
  x ∈ getline_all d s →
  has_char d x = false ∧ (has_char c s = false → has_char c x = false).
Proof.
  revert x. induction s as [|a s IH]; simpl; intros x Hx.
  - by apply elem_of_nil in Hx.
  - destruct (Ascii.eqb a d) eqn:Ead.
    + apply elem_of_cons in Hx as [->|Hx]; [done|].
      destruct (IH x Hx) as [H1 H2]. split; [done|].
      intros [_ Hs]%orb_false_iff. auto.
    + destruct (getline_all d s) as [|y ys] eqn:E.
      * apply list_elem_of_singleton in Hx as ->. simpl. rewrite Ead.
        split; [done|]. intros [-> _]%orb_false_iff. done.
      * apply elem_of_cons in Hx as [->|Hx].
        -- destruct (IH y) as [H1 H2]; [by left|]. simpl. rewrite Ead, H1.
           split; [done|]. intros [-> Hs]%orb_false_iff. simpl. auto.
        -- destruct (IH x) as [H1 H2]; [by right|]. split; [done|].
           intros [_ Hs]%orb_false_iff. auto.
Qed.

(** X8. What the loop [while (getline(in, x, delim))] yields, for the
    fields of a line ([parseCSV], delimiter comma) as for the lines of
    a file (delimiter line feed): no piece holds the delimiter, and the
    pieces joined by the delimiter are the text again, up to one
    delimiter at the very end, which leaves no trace (so a last field
    that is empty is lost, and the empty text has no piece). *)
Theorem getline_all_spec (d : ascii) (s : string) :
  (∀ x, x ∈ getline_all d s → has_char d x = false) ∧
  s = (join d (getline_all d s) ++
       (if ends_with d s then String d "" else ""))%string ∧
  (getline_all d s = [] ↔ s = "").
Proof.
  split; [|split].
  - intros x Hx. by destruct (getline_all_pieces d d s x Hx).
  - induction s as [|c s IH]; [done|].
    assert (Hlast : s ≠ "" → ends_with d (String c s) = ends_with d s).
    { intros Hs. unfold ends_with. by rewrite last_char_cons. }
    cbn [getline_all].
    destruct (Ascii.eqb_spec c d) as [->|Hne].
    + destruct (getline_all d s) as [|y ys] eqn:E.
      * apply getline_all_nil in E as ->. unfold ends_with. simpl.
        by rewrite Ascii.eqb_refl.
      * assert (s ≠ "") by (intros ->; done).
        rewrite Hlast by done.
        change (join d ("" :: y :: ys)) with (String d (join d (y :: ys))).
        cbn [append]. f_equal. exact IH.
    + destruct (getline_all d s) as [|y ys] eqn:E.
      * apply getline_all_nil in E as ->. unfold ends_with. simpl.
        by destruct (Ascii.eqb_spec c d).
      * assert (s ≠ "") by (intros ->; done).
        rewrite Hlast, join_cons_char by done.
        cbn [append]. f_equal. exact IH.
  - apply getline_all_nil.
Qed.

(** ** [trim] *)

Lemma append_nil_r (s : string) : (s ++ "")%string = s.
Proof. induction s as [|c s IH]; simpl; [done|by rewrite IH]. Qed.

Lemma length_append (a b : string) :
  String.length (a ++ b) = (String.length a + String.length b)%nat.
Proof. induction a as [|c a IH]; simpl; [done|by rewrite IH]. Qed.

Lemma string_forall_app (p : ascii → bool) (a b : string) :
  string_forall p (a ++ b) = string_forall p a && string_forall p b.
Proof.
  induction a as [|c a IH]; simpl; [done|]. by rewrite IH, andb_assoc.
Qed.

Lemma last_char_app (a b : string) :
  b ≠ "" → last_char (a ++ b) = last_char b.
Proof.
  intros Hb. induction a as [|c a IH]; [done|].
  cbn [append]. rewrite last_char_cons; [done|]. by destruct a, b.
Qed.

Lemma substring_app (a b c : string) :
  substring (String.length a) (String.length b) (a ++ b ++ c) = b.
Proof.
  induction a as [|x a IH]; simpl; [|done].
  induction b as [|y b IHb]; simpl; [by destruct c|by rewrite IHb].
Qed.

Lemma find_first_not_of_None (s : string) :
  find_first_not_of s = None ↔ string_forall is_trim_ws s = true.
Proof.
  induction s as [|c s IH]; simpl; [done|].
  destruct (is_trim_ws c); simpl; [|done].
  rewrite <- IH. by destruct (find_first_not_of s).
Qed.

Lemma find_last_not_of_None (s : string) :
  find_last_not_of s = None ↔ string_forall is_trim_ws s = true.
Proof.
  induction s as [|c s IH]; simpl; [done|].
  destruct (find_last_not_of s) as [e|].
  - split; [done|]. intros [_ Hs]%andb_true_iff. by apply IH in Hs.
  - destruct IH as [IH _]. rewrite IH by done. by destruct (is_trim_ws c).
Qed.

Lemma find_first_not_of_lead (lead rest : string) (c : ascii) :
  string_forall is_trim_ws lead = true → is_trim_ws c = false →
  find_first_not_of (lead ++ String c rest) = Some (String.length lead).
Proof.
  intros Hl Hc. induction lead as [|x lead IH]; simpl.
  - by rewrite Hc.
  - simpl in Hl. apply andb_true_iff in Hl as [-> Hl]. by rewrite IH.
Qed.

Lemma find_last_not_of_last (s : string) (c : ascii) :
  last_char s = Some c → is_trim_ws c = false →
  find_last_not_of s = Some (String.length s - 1)%nat.
Proof.
  intros Hlast Hc. induction s as [|x s IH]; [done|].
  destruct s as [|y s].
  - simpl in *. injection Hlast as ->. by rewrite Hc.
  - rewrite last_char_cons in Hlast by done.
    cbn [find_last_not_of]. cbn [find_last_not_of] in IH.
    rewrite IH by done. simpl. by rewrite Nat.sub_0_r.
Qed.

Lemma find_last_not_of_trail (s trail : string) :
  string_forall is_trim_ws trail = true →
  find_last_not_of (s ++ trail) = find_last_not_of s.
Proof.
  intros Ht. induction s as [|x s IH]; simpl.
  - by apply find_last_not_of_None.
  - by rewrite IH.
Qed.

(** What [trim] returns on a core wrapped in white space. *)
Lemma trim_wrapped (lead core trail : string) :
  string_forall is_trim_ws lead = true →
  string_forall is_trim_ws trail = true →
  trimmed core →
  trim (lead ++ core ++ trail) = core.
Proof.
  intros Hl Ht Hcore. unfold trim.
  destruct core as [|a r].
  - simpl. destruct (find_first_not_of_None (lead ++ trail)) as [_ ->];
      [done|]. by rewrite string_forall_app, Hl, Ht.
  - unfold trimmed in Hcore. cbn [first_char] in Hcore.
    destruct (last_char (String a r)) as [b|] eqn:Hb; [|done].
    destruct Hcore as [Ha Hb'].
    cbn [append]. rewrite find_first_not_of_lead by done.
    change (lead ++ String a (r ++ trail))%string
      with (lead ++ (String a r ++ trail))%string.
    rewrite <- append_assoc, find_last_not_of_trail by done.
    rewrite (find_last_not_of_last _ b)
      by (done || by rewrite last_char_app).
    rewrite length_append. cbn [String.length].
    replace (String.length lead + S (String.length r) - 1
             - String.length lead + 1)%nat
      with (String.length (String a r)) by (simpl; lia).
    rewrite append_assoc. apply substring_app.
Qed.

Lemma trim_decompose (s : string) :
  ∃ lead core trail,
    s = (lead ++ core ++ trail)%string ∧
    string_forall is_trim_ws lead = true ∧
    string_forall is_trim_ws trail = true ∧
    trimmed core ∧
    (core = "" → string_forall is_trim_ws s = true).
Proof.
  induction s as [|c s IH].
  - by exists "", "", "".
  - destruct IH as (lead & core & trail & -> & Hl & Ht & Hcore & Hall).
    destruct (is_trim_ws c) eqn:Hc.
    + exists (String c lead), core, trail. simpl. rewrite Hc, Hl.
      split_and!; done.
    + destruct core as [|a r].
      * exists "", (String c ""), (lead ++ trail)%string. simpl.
        split_and!; try done. by rewrite string_forall_app, Hl, Ht.
      * exists "", (String c (lead ++ String a r)), trail.
        cbn [append]. rewrite append_assoc. split_and!; try done.
        unfold trimmed in *. cbn [first_char] in *.
        rewrite last_char_cons by (by destruct lead).
        rewrite last_char_app by done.
        destruct (last_char (String a r)); [|done]. by destruct Hcore.
Qed.

(** X9. [trim] removes exactly the blanks at both ends: every text is
    [trim] of it wrapped in spaces, tabs, line feeds and carriage
    returns; the result is empty or starts and ends with another
    character; it is empty exactly when the text holds nothing else;
    and trimming again changes nothing. *)
Theorem trim_spec (s : string) :
  (∃ lead trail,
     s = (lead ++ trim s ++ trail)%string ∧
     string_forall is_trim_ws lead = true ∧
     string_forall is_trim_ws trail = true) ∧
  trimmed (trim s) ∧
  (trim s = "" ↔ string_forall is_trim_ws s = true) ∧
  trim (trim s) = trim s.
Proof.
  destruct (trim_decompose s) as (lead & core & trail & Hs & Hl & Ht & Hc & Hall).
  assert (Htrim : trim s = core) by (rewrite Hs; by apply trim_wrapped).
  rewrite Htrim. split; [|split; [|split]].
  - by exists lead, trail.
  - done.
  - split; [done|]. intros Hws. unfold trim in Htrim.
    destruct (find_first_not_of_None s) as [_ Hn]. by rewrite Hn in Htrim.
  - rewrite <- (append_nil_r core) at 1.
    by apply (trim_wrapped "" core "").
Qed.

(** [trim] does not see white space added around its argument. *)
Lemma trim_wrap (lead s trail : string) :
  string_forall is_trim_ws lead = true →
  string_forall is_trim_ws trail = true →
  trim (lead ++ s ++ trail) = trim s.
Proof.
  intros Hl Ht.
  destruct (trim_decompose s) as (l & core & t & Hs & Hl' & Ht' & Hc & _).
  assert (Htrim : trim s = core) by (rewrite Hs; by apply trim_wrapped).
  rewrite Htrim, Hs.
  replace (lead ++ (l ++ core ++ t) ++ trail)%string
    with ((lead ++ l) ++ core ++ (t ++ trail))%string
    by (by rewrite !append_assoc).
  apply trim_wrapped; [| |done]; rewrite string_forall_app;
    by apply andb_true_iff.
Qed.

(** ** [toLowerStr] and [isCancel] *)

Lemma is_trim_ws_to_lower (c : ascii) :
  is_trim_ws (to_lower c) = is_trim_ws c.
Proof. by destruct c as [[] [] [] [] [] [] [] []]. Qed.

Lemma to_lower_idemp (c : ascii) : to_lower (to_lower c) = to_lower c.
Proof. by destruct c as [[] [] [] [] [] [] [] []]. Qed.

Lemma toLowerStr_app (a b : string) :
  toLowerStr (a ++ b) = (toLowerStr a ++ toLowerStr b)%string.
Proof. induction a as [|c a IH]; simpl; [done|by rewrite IH]. Qed.

Lemma toLowerStr_ws (s : string) :
  string_forall is_trim_ws (toLowerStr s) = string_forall is_trim_ws s.
Proof.
  induction s as [|c s IH]; simpl; [done|].
  by rewrite is_trim_ws_to_lower, IH.
Qed.

Lemma last_char_toLowerStr (s : string) :
  last_char (toLowerStr s) = to_lower <$> last_char s.
Proof.
  induction s as [|c s IH]; [done|]. destruct s as [|d s]; [done|].
  change (toLowerStr (String c (String d s)))
    with (String (to_lower c) (toLowerStr (String d s))).
  rewrite !last_char_cons by done. exact IH.
Qed.

Lemma trimmed_toLowerStr (s : string) : trimmed s → trimmed (toLowerStr s).
Proof.
  unfold trimmed. rewrite last_char_toLowerStr.
  destruct s as [|c s]; [done|]. cbn [toLowerStr first_char].
  destruct (last_char (String c s)) as [b|]; [|done]. simpl.
  by rewrite !is_trim_ws_to_lower.
Qed.

Lemma trim_toLowerStr (s : string) :
  trim (toLowerStr s) = toLowerStr (trim s).
Proof.
  destruct (trim_decompose s) as (l & core & t & Hs & Hl & Ht & Hc & _).
  assert (Htrim : trim s = core) by (rewrite Hs; by apply trim_wrapped).
  rewrite Htrim, Hs, !toLowerStr_app.
  apply trim_wrapped; [by rewrite toLowerStr_ws..|by apply trimmed_toLowerStr].
Qed.

Lemma toLowerStr_idemp (s : string) :
  toLowerStr (toLowerStr s) = toLowerStr s.
Proof.
  induction s as [|c s IH]; simpl; [done|]. by rewrite to_lower_idemp, IH.
Qed.

(** X10. Whether an answer cancels a dialog depends neither on the blanks
    around it nor on the case of its letters. *)
Theorem isCancel_invariant (lead trail a b : string) :
  string_forall is_trim_ws lead = true →
  string_forall is_trim_ws trail = true →
  toLowerStr a = toLowerStr b →
  isCancel (lead ++ a ++ trail) = isCancel b.
Proof.
  intros Hl Ht Hab. unfold isCancel.
  by rewrite trim_wrap, <- !trim_toLowerStr, Hab.
Qed.

Lemma isCancel_invariant_witness :
  isCancel (String TAB " " ++ "CaNcEl" ++ String CR (String LF "")) =
  isCancel "cancel" ∧ isCancel "cancel" = true.
Proof.
  split; [by apply isCancel_invariant|reflexivity].
Defined.

(** ** [toInt] *)

Lemma skip_space_split (s : string) :
  ∃ sp, s = (sp ++ skip_space s)%string ∧ string_forall isspace sp = true.
Proof.
  induction s as [|c s (sp & Hs & Hsp)]; [by exists ""|].
  simpl. destruct (isspace c) eqn:Hc; [|by exists ""].
  exists (String c sp). simpl. by rewrite Hc, Hsp, <- Hs.
Qed.

Lemma skip_space_app (sp : string) (c : ascii) (r : string) :
  string_forall isspace sp = true → isspace c = false →
  skip_space (sp ++ String c r) = String c r.
Proof.
  intros Hsp Hc. induction sp as [|x sp IH]; simpl.
  - by rewrite Hc.
  - simpl in Hsp. apply andb_true_iff in Hsp as [-> Hsp]. by apply IH.
Qed.

Lemma skip_digits_split (s : string) :
  ∃ ds, s = (ds ++ skip_digits s)%string ∧ string_forall is_digit ds = true.
Proof.
  induction s as [|c s (ds & Hs & Hds)]; [by exists ""|].
  simpl. destruct (is_digit c) eqn:Hc; [|by exists ""].
  exists (String c ds). simpl. by rewrite Hc, Hds, <- Hs.
Qed.

Lemma skip_digits_all (ds : string) :
  string_forall is_digit ds = true → skip_digits ds = "".
Proof.
  induction ds as [|c ds IH]; simpl; [done|].
  intros [-> Hds]%andb_true_iff. by apply IH.
Qed.

Lemma read_sign_split (s : string) :
  ∃ sign, s = (sign ++ (read_sign s).2)%string ∧
          sign ∈ [""; "+"; "-"] ∧
          (read_sign s).1 = String.eqb sign "-".
Proof.
  destruct s as [|c s]; [exists ""; split_and!; [done|by left|done]|].
  destruct (Ascii.eqb_spec c "-") as [->|Hm].
  { exists "-". split_and!; [done| |done]. apply list_elem_of_In. simpl. tauto. }
  destruct (Ascii.eqb_spec c "+") as [->|Hp].
  { exists "+". split_and!; [done| |done]. apply list_elem_of_In. simpl. tauto. }
  exists "". split_and!; [| |].
  - by destruct c as [[] [] [] [] [] [] [] []].
  - apply list_elem_of_In. simpl. tauto.
  - by destruct c as [[] [] [] [] [] [] [] []].
Qed.

Lemma read_sign_digit (c : ascii) (s : string) :
  is_digit c = true → read_sign (String c s) = (false, String c s).
Proof. by destruct c as [[] [] [] [] [] [] [] []]. Qed.

Lemma digit_not_space (c : ascii) : is_digit c = true → isspace c = false.
Proof. by destruct c as [[] [] [] [] [] [] [] []]. Qed.

Lemma digit_not_trim_ws (c : ascii) :
  is_digit c = true → is_trim_ws c = false.
Proof. by destruct c as [[] [] [] [] [] [] [] []]. Qed.

(** The texts [stol] reads to their end: blanks, an optional sign and
    digits whose value is a [long]. *)
Lemma stol_whole (t : string) (v : Z) :
  stol t = Ok (v, String.length t) ↔
  ∃ sp sign ds,
    t = (sp ++ sign ++ ds)%string ∧
    string_forall isspace sp = true ∧
    sign ∈ [""; "+"; "-"] ∧
    ds ≠ "" ∧ string_forall is_digit ds = true ∧
    v = (if String.eqb sign "-" then - read_digits ds 0
         else read_digits ds 0) ∧
    long_min <= v <= long_max.
Proof.
  split.
  - unfold stol. intros Hst.
    destruct (skip_space_split t) as (sp & Ht & Hsp).
    destruct (read_sign_split (skip_space t)) as (sign & Hr & Hsign & Hneg).
    destruct (read_sign (skip_space t)) as [neg r]. simpl in Hr, Hneg.
    destruct (starts_with_digit r) eqn:Hd; [|done].
    set (n := if neg then - read_digits r 0 else read_digits r 0) in *.
    destruct (Z.leb_spec long_min n); [|done].
    destruct (Z.leb_spec n long_max); [|done].
    simpl in Hst. injection Hst as Hv Hidx.
    assert (Hlen : String.length t =
                   (String.length sp + (String.length sign + String.length r))%nat).
    { rewrite Ht at 1. rewrite Hr at 1. by rewrite !length_append. }
    destruct (skip_digits_split r) as (ds & Hds & Hall).
    assert (Hrest : skip_digits r = "").
    { destruct (skip_digits r) as [|x rest] eqn:E; [done|].
      rewrite Hds, length_append in Hlen. simpl in *. lia. }
    rewrite Hrest, append_nil_r in Hds. subst ds.
    exists sp, sign, r. split_and!; try done.
    + by rewrite Ht at 1; rewrite Hr at 1.
    + by destruct r.
    + subst v n. by rewrite Hneg.
    + lia.
    + lia.
  - intros (sp & sign & ds & -> & Hsp & Hsign & Hne & Hds & -> & Hrange).
    destruct ds as [|c ds]; [done|].
    pose proof Hds as Hc. simpl in Hc. apply andb_true_iff in Hc as [Hc _].
    assert (Hskip : skip_space (sp ++ sign ++ String c ds) = (sign ++ String c ds)%string).
    { apply list_elem_of_In in Hsign. simpl in Hsign.
      destruct Hsign as [<-|[<-|[<-|[]]]]; cbn [append];
        apply skip_space_app; try done. by apply digit_not_space. }
    assert (Hrs : read_sign (sign ++ String c ds) =
                  (String.eqb sign "-", String c ds)).
    { apply list_elem_of_In in Hsign. simpl in Hsign.
      destruct Hsign as [<-|[<-|[<-|[]]]]; try done.
      by apply read_sign_digit. }
    unfold stol. rewrite Hskip, Hrs. cbn [starts_with_digit]. rewrite Hc.
    rewrite skip_digits_all by done.
    destruct (Z.leb_spec long_min
                (if (sign =? "-")%string then - read_digits (String c ds) 0
                 else read_digits (String c ds) 0)); [|lia].
    destruct (Z.leb_spec
                (if (sign =? "-")%string then - read_digits (String c ds) 0
                 else read_digits (String c ds) 0) long_max); [|lia].
    simpl. by rewrite Nat.sub_0_r.
Qed.

(** X11. [toInt] accepts exactly the texts that, once trimmed, are blanks
    (a vertical tab or form feed can be left in front), an optional sign
    and one or more digits with a value in the range of [long]; nothing
    may follow the digits. The result is that value cut to 32 bits. *)
Theorem toInt_accepts (s : string) (v : Z) :
  toInt s = Some v ↔
  ∃ sp sign ds,
    trim s = (sp ++ sign ++ ds)%string ∧
    string_forall isspace sp = true ∧
    sign ∈ [""; "+"; "-"] ∧
    ds ≠ "" ∧ string_forall is_digit ds = true ∧
    let n := if String.eqb sign "-" then - read_digits ds 0
             else read_digits ds 0 in
    long_min <= n <= long_max ∧ v = wrap_int n.
Proof.
  unfold toInt. split.
  - destruct (stol (trim s)) as [[n idx]|e] eqn:Hst; [|done].
    destruct (Nat.eqb_spec idx (String.length (trim s))) as [->|]; [|done].
    intros [= <-]. apply stol_whole in Hst
      as (sp & sign & ds & Ht & Hsp & Hsign & Hne & Hds & Hn & Hrange).
    exists sp, sign, ds. cbn zeta. rewrite <- Hn. repeat split; (done || lia).
  - intros (sp & sign & ds & Ht & Hsp & Hsign & Hne & Hds & Hrange & ->).
    cbn zeta in Hrange.
    destruct (stol_whole (trim s)
                (if String.eqb sign "-" then - read_digits ds 0
                 else read_digits ds 0)) as [_ Hst].
    rewrite Hst by (by exists sp, sign, ds).
    by rewrite Nat.eqb_refl.
Qed.

Lemma put_digits_all_digits (fuel : nat) (n : Z) (acc : string) :
  string_forall is_digit (put_digits fuel n acc) = string_forall is_digit acc.
Proof.
  revert n acc. induction fuel as [|fuel IH]; intros n acc.
  - simpl. destruct (digit_char_spec (n mod 10)) as [-> _]; [|done].
    apply Z.mod_pos_bound. lia.
  - cbn [put_digits]. destruct (n <? 10).
    + simpl. destruct (digit_char_spec (n mod 10)) as [-> _]; [|done].
      apply Z.mod_pos_bound. lia.
    + rewrite IH. simpl.
      destruct (digit_char_spec (n mod 10)) as [-> _]; [|done].
      apply Z.mod_pos_bound. lia.
Qed.

Lemma last_char_digit (s : string) :
  s ≠ "" → string_forall is_digit s = true →
  ∃ c, last_char s = Some c ∧ is_digit c = true.
Proof.
  induction s as [|x s IH]; [done|]. intros _ Hs. simpl in Hs.
  apply andb_true_iff in Hs as [Hx Hs].
  destruct s as [|y s]; [by exists x|].
  rewrite last_char_cons by done. by apply IH.
Qed.

(** The text of an integer: an optional minus and digits. *)
Lemma put_int_shape (z : Z) :
  ∃ ds, put_int z = ((if (z <? 0)%Z then "-" else "") ++ ds)%string ∧
        ds ≠ "" ∧ string_forall is_digit ds = true ∧
        read_digits ds 0 = Z.abs z.
Proof.
  unfold put_int. destruct (Z.ltb_spec z 0) as [Hneg|Hpos].
  - exists (put_digits (Z.to_nat (Z.log2 (- z))) (- z) "").
    split_and!; [done| |by rewrite put_digits_all_digits|].
    + by destruct (put_digits_head (Z.to_nat (Z.log2 (- z))) (- z) "")
        as (c & s & -> & _).
    + rewrite read_digits_put_digits by (split; [lia|apply log2_fuel; lia]).
      simpl. lia.
  - exists (put_digits (Z.to_nat (Z.log2 z)) z "").
    split_and!; [done| |by rewrite put_digits_all_digits|].
    + by destruct (put_digits_head (Z.to_nat (Z.log2 z)) z "")
        as (c & s & -> & _).
    + rewrite read_digits_put_digits by (split; [lia|apply log2_fuel; lia]).
      simpl. lia.
Qed.

Lemma put_int_trimmed (z : Z) : trimmed (put_int z).
Proof.
  destruct (put_int_head z) as (c & s & E & Hc).
  destruct (put_int_shape z) as (ds & Hz & Hne & Hds & _).
  destruct (last_char_digit ds Hne Hds) as (b & Hb & Hbd).
  unfold trimmed. rewrite Hz, last_char_app, Hb by done. rewrite <- Hz, E.
  cbn [first_char]. split; [done|by apply digit_not_trim_ws].
Qed.

(** X12. An integer as the program prints it is read back by [toInt],
    whatever blanks surround it: a [long] comes back cut to 32 bits, an
    [int] unchanged. *)
Theorem toInt_put_int (lead trail : string) (z : Z) :
  string_forall is_trim_ws lead = true →
  string_forall is_trim_ws trail = true →
  long_min <= z <= long_max →
  toInt (lead ++ put_int z ++ trail) = Some (wrap_int z) ∧
  (int_range z → toInt (lead ++ put_int z ++ trail) = Some z).
Proof.
  intros Hl Ht Hz.
  assert (Hto : toInt (lead ++ put_int z ++ trail) = Some (wrap_int z)).
  { unfold toInt. rewrite trim_wrapped by (done || apply put_int_trimmed).
    destruct (put_int_shape z) as (ds & Hp & Hne & Hds & Hv).
    destruct (stol_whole (put_int z) z) as [_ Hst].
    rewrite Hst, Nat.eqb_refl; [done|].
    exists "", (if z <? 0 then "-" else ""), ds.
    split_and!; try done.
    - destruct (z <? 0); [by right; right; left|by left].
    - rewrite Hv. destruct (Z.ltb_spec z 0); simpl; lia.
    - lia.
    - lia. }
  split; [done|]. intros Hr. by rewrite Hto, wrap_int_id.
Qed.

Lemma toInt_put_int_witness :
  toInt (" " ++ put_int (-42) ++ String CR "") = Some (-42).
Proof.
  apply (toInt_put_int " " (String CR "") (-42));
    [reflexivity|reflexivity|done|done].
Defined.

(** A number above the range of [int] is accepted and wraps around; text
    after the digits, or no digit at all, is refused. *)
Example toInt_edges :
  toInt "4294967297" = Some 1 ∧ toInt "12abc" = None ∧ toInt "" = None ∧
  toInt "9223372036854775808" = None ∧ toInt "+7" = Some 7.
Proof. by vm_compute. Qed.

(** ** Invariants of [loadData] *)

Section LoadedStore.
Context `{DoubleText}.

Lemma load_lines_preserves (P : State → Prop)
    (body : list string → State → result State)
    (lines : list string) (st st' : State) :
  (∀ line st st', line ∈ lines →
     body (parseCSV line) st = Ok st' → P st → P st') →
  load_lines body lines st = Ok st' → P st → P st'.
Proof.
  revert st. induction lines as [|line lines IH]; intros st Hbody; simpl.
  - by intros [= <-].
  - destruct (empty (trim line)).
    + apply IH. intros l s s' Hl. apply Hbody. by right.
    + destruct (body (parseCSV line) st) as [st1|] eqn:E; [|done].
      simpl. intros Hl HP. eapply IH; [|done|].
      * intros l s s' Hin. apply Hbody. by right.
      * eapply Hbody; [by left|done..].
Qed.

(** A property of the empty store that every loaded line and the seeding
    keep holds of whatever [loadData] returns. *)
Lemma loadData_preserves (P : State → Prop) (st st' : State) (d : Disk) :
  P {| items := []; sales := []; nextItemId := 1; nextSaleId := 1 |} →
  (∀ line st st', has_char LF line = false →
     load_item (parseCSV line) st = Ok st' → P st → P st') →
  (∀ line st st', has_char LF line = false →
     load_sale (parseCSV line) st = Ok st' → P st → P st') →
  (∀ st, items st = [] → sales st = [] → P st → P (seedData st)) →
  loadData st d = Ok st' → P st'.
Proof.
  intros H0 Hitem Hsale Hseed.
  unfold loadData, load_file. cbn [items sales nextItemId nextSaleId].
  set (st0 := {| items := []; sales := []; nextItemId := 1; nextSaleId := 1 |})
    in *.
  destruct (match items_csv d with
            | Some content => load_lines load_item (getline_all LF content) st0
            | None => mret st0
            end) as [st1|] eqn:E1; [|done].
  assert (H1 : P st1).
  { destruct (items_csv d) as [content|]; [|by injection E1 as <-].
    eapply load_lines_preserves; [|done..].
    intros line s s' Hin. apply Hitem.
    by destruct (getline_all_pieces LF LF content line Hin). }
  simpl.
  destruct (match sales_csv d with
            | Some content => load_lines load_sale (getline_all LF content) st1
            | None => mret st1
            end) as [st2|] eqn:E2; [|done].
  assert (H2 : P st2).
  { destruct (sales_csv d) as [content|]; [|by injection E2 as <-].
    eapply load_lines_preserves; [|done..].
    intros line s s' Hin. apply Hsale.
    by destruct (getline_all_pieces LF LF content line Hin). }
  simpl. intros [= <-].
  destruct (items st2) eqn:Ei; [|done].
  destruct (sales st2) eqn:Es; [|done]. by apply Hseed.
Qed.

Lemma parseCSV_plain (line x : string) :
  has_char LF line = false → x ∈ parseCSV line → plain x.
Proof.
  intros Hline Hx. unfold plain.
  destruct (getline_all_pieces LF COMMA line x Hx) as [Hc Hl]. auto.
Qed.

Lemma load_item_loaded (line : string) (st st' : State) :
  has_char LF line = false →
  load_item (parseCSV line) st = Ok st' → loaded_store st → loaded_store st'.
Proof.
  intros Hline. unfold load_item.
  pose proof (parseCSV_plain line) as Hplain.
  destruct (parseCSV line) as [|d0 [|d1 [|d2 [|d3 [|d4 [|d5 l]]]]]];
    try (by intros [= <-]).
  destruct (stoi d0) as [id|] eqn:Eid; [|done].
  destruct (stoi d3) as [qty|] eqn:Eqty; [|done].
  destruct (stod d4) as [buy|]; [|done].
  destruct (stod d5) as [sell|]; [|done].
  simpl. intros [= <-] (Hi & Hs & Hn). unfold loaded_store. simpl.
  split_and!; [|done|].
  - apply Forall_app. split; [done|]. apply Forall_singleton.
    unfold loaded_item. simpl. split_and!.
    + by eapply stoi_int_range.
    + by eapply stoi_int_range.
    + apply Hplain; [done|]. by right; left.
    + apply Hplain; [done|]. by right; right; left.
  - destruct (id >=? nextItemId st); [apply wrap_int_range|done].
Qed.

Lemma load_sale_loaded (line : string) (st st' : State) :
  has_char LF line = false →
  load_sale (parseCSV line) st = Ok st' → loaded_store st → loaded_store st'.
Proof.
  intros Hline. unfold load_sale.
  pose proof (parseCSV_plain line) as Hplain.
  destruct (parseCSV line) as [|d0 [|d1 [|d2 [|d3 [|d4 [|d5 l]]]]]];
    try (by intros [= <-]).
  destruct (stoi d0) as [id|] eqn:Eid; [|done].
  destruct (stoi d1) as [item_id|] eqn:Eitem; [|done].
  destruct (stoi d3) as [qty|] eqn:Eqty; [|done].
  destruct (stod d4) as [profit|]; [|done].
  simpl. intros [= <-] (Hi & Hs & Hn). unfold loaded_store. simpl.
  split_and!; [done| |done].
  apply Forall_app. split; [done|]. apply Forall_singleton.
  unfold loaded_sale. simpl. split_and!.
  - by eapply stoi_int_range.
  - by eapply stoi_int_range.
  - by eapply stoi_int_range.
  - apply Hplain; [done|]. by right; right; left.
  - apply Hplain; [done|]. by do 5 right; left.
Qed.

Lemma seedData_loaded (st : State) :
  loaded_store st → loaded_store (seedData st).
Proof.
  intros (Hi & Hs & Hn). unfold loaded_store, seedData. simpl.
  split_and!; [|done|apply wrap_int_range].
  rewrite <- !app_assoc. apply Forall_app. split; [done|].
  repeat apply Forall_cons; try apply Forall_nil;
    unfold loaded_item; simpl;
    (split_and!; [done || apply wrap_int_range|done..]).
Qed.

Lemma load_item_sales_inv (data : list string) (st st' : State) :
  load_item data st = Ok st' → load_sales_inv st → load_sales_inv st'.
Proof.
  unfold load_item.
  destruct data as [|d0 [|d1 [|d2 [|d3 [|d4 [|d5 l]]]]]];
    try (by intros [= <-]).
  destruct (stoi d0) as [id|]; [|done].
  destruct (stoi d3) as [qty|]; [|done].
  destruct (stod d4) as [buy|]; [|done].
  destruct (stod d5) as [sell|]; [|done].
  simpl. by intros [= <-].
Qed.

Lemma load_sale_sales_inv (data : list string) (st st' : State) :
  load_sale data st = Ok st' → load_sales_inv st → load_sales_inv st'.
Proof.
  unfold load_sale.
  destruct data as [|d0 [|d1 [|d2 [|d3 [|d4 [|d5 l]]]]]];
    try (by intros [= <-]).
  destruct (stoi d0) as [id|] eqn:Eid; [|done].
  destruct (stoi d1) as [item_id|]; [|done].
  destruct (stoi d3) as [qty|]; [|done].
  destruct (stod d4) as [profit|]; [|done].
  simpl. intros [= <-] Hinv Hmax. unfold sale_ids_below in *. simpl in *.
  apply stoi_int_range in Eid as [Hlo _].
  destruct Hinv as (Hbelow & Hone).
  { intros s Hin. apply Hmax, elem_of_app. by left. }
  assert (Hid : id < int_max).
  { apply (Hmax (Sale.mk id item_id d2 qty profit d5)), elem_of_app. right.
    by apply list_elem_of_singleton. }
  assert (Hw : wrap_int (id + 1) = id + 1).
  { apply wrap_int_id. unfold int_range. lia. }
  rewrite Hw. split.
  - intros s Hin. apply elem_of_app in Hin as [Hin|Hin].
    + apply Hbelow in Hin. destruct (Z.geb_spec id (nextSaleId st)); lia.
    + apply list_elem_of_singleton in Hin as ->. simpl.
      destruct (Z.geb_spec id (nextSaleId st)); lia.
  - destruct (Z.geb_spec id (nextSaleId st)); lia.
Qed.

(** X13. After a load that returns, and unless an id read from a file is
    [INT_MAX], both counters are at least 1 and above every id of their
    kind in the store: the next item and the next sale get ids that no
    loaded record has. *)
Theorem loadData_counters (st st' : State) (d : Disk) :
  loadData st d = Ok st' →
  (∀ it, it ∈ items st' → Item.id it < int_max) →
  (∀ s, s ∈ sales st' → Sale.id s < int_max) →
  ids_below st' ∧ sale_ids_below st' ∧
  1 <= nextItemId st' ∧ 1 <= nextSaleId st'.
Proof.
  intros Hload Hitems Hsales.
  destruct (loadData_ids_below st st' d Hload Hitems) as [Hi Hn].
  assert (Hs : load_sales_inv st').
  { apply (loadData_preserves load_sales_inv st st' d); [| | | |done].
    - intros _. split; [|done]. by intros s ?%elem_of_nil.
    - intros line s s' _. apply load_item_sales_inv.
    - intros line s s' _. apply load_sale_sales_inv.
    - by intros s _ _. }
  destruct (Hs Hsales) as [Hb Hone]. done.
Qed.

Lemma loadData_loaded_store (st st' : State) (d : Disk) :
  loadData st d = Ok st' → loaded_store st'.
Proof.
  intros Hload.
  apply (loadData_preserves loaded_store st st' d); [| | | |done].
  - by split_and!.
  - apply load_item_loaded.
  - apply load_sale_loaded.
  - intros s _ _. apply seedData_loaded.
Qed.

(** X14. In a store that [loadData] returns, every id and quantity is
    an [int], no text field holds a comma or a line feed, and the store
    is not empty: with nothing read from the files it holds the three
    seeded items. *)
Theorem loadData_fields (st st' : State) (d : Disk) :
  loadData st d = Ok st' →
  Forall loaded_item (items st') ∧ Forall loaded_sale (sales st') ∧
  (items st' ≠ [] ∨ sales st' ≠ []).
Proof.
  intros Hload.
  destruct (loadData_loaded_store st st' d Hload) as (Hi & Hs & _).
  split_and!; [done..|].
  revert Hload. unfold loadData.
  destruct (load_file load_item _ _) as [st1|]; [|done]. simpl.
  destruct (load_file load_sale _ _) as [st2|]; [|done]. simpl.
  intros [= <-]. destruct (items st2) eqn:Ei; [|left; by rewrite Ei].
  destruct (sales st2) eqn:Es; [|right; by rewrite Es].
  left. unfold seedData. simpl. by destruct (items st2).
Qed.
End LoadedStore.

Lemma loadData_counters_witness :
  ∃ st', loadData (H := reference_text) init_state
           {| items_csv := Some ("7,Cog,Steel,4,1.5,2" ++ String LF "")%string;
              sales_csv := Some ("3,7,Cog,1,0.5,2024-01-01 10:00:00"
                                   ++ String LF "")%string |} = Ok st' ∧
         ids_below st' ∧ sale_ids_below st' ∧
         nextItemId st' = 8 ∧ nextSaleId st' = 4.
Proof.
  eexists. split; [by vm_compute|].
  match goal with
  | |- ids_below ?s ∧ _ =>
      destruct (loadData_counters (H := reference_text) init_state s
                  {| items_csv :=
                       Some ("7,Cog,Steel,4,1.5,2" ++ String LF "")%string;
                     sales_csv :=
                       Some ("3,7,Cog,1,0.5,2024-01-01 10:00:00"
                               ++ String LF "")%string |})
        as (Hi & Hs & _ & _)
  end.
  - by vm_compute.
  - intros it Hin. apply list_elem_of_singleton in Hin as ->. by vm_compute.
  - intros s Hin. apply list_elem_of_singleton in Hin as ->. by vm_compute.
  - done.
Defined.

Lemma loadData_fields_witness :
  ∃ st', loadData (H := reference_text) init_state
           {| items_csv := Some ("7,Cog,Steel,4,1.5,2" ++ String LF "")%string;
              sales_csv := None |} = Ok st' ∧
         Forall loaded_item (items st').
Proof.
  eexists. split; [by vm_compute|].
  match goal with
  | |- Forall loaded_item (items ?s) =>
      destruct (loadData_fields (H := reference_text) init_state s
                  {| items_csv :=
                       Some ("7,Cog,Steel,4,1.5,2" ++ String LF "")%string;
                     sales_csv := None |})
        as (Hi & _)
  end.
  - by vm_compute.
  - done.
Defined.

(** ** Lines that the load loops pass over *)

Lemma ends_with_cons (d c : ascii) (s : string) :
  ends_with d (String c s) = true →
  (s = "" ∧ c = d) ∨ (s ≠ "" ∧ ends_with d s = true).
Proof.
  unfold ends_with. destruct s as [|x s].
  - simpl. intros Hc%Ascii.eqb_eq. by left.
  - rewrite last_char_cons by done. intros Hs. by right.
Qed.

Lemma getline_all_app (d : ascii) (a b : string) :
  a = "" ∨ ends_with d a = true →
  getline_all d (a ++ b) = (getline_all d a ++ getline_all d b)%list.
Proof.
  induction a as [|c a IH]; [done|]. intros [Hnil|Hend]; [done|].
  apply ends_with_cons in Hend as [[-> ->]|[Hne Hend]].
  - simpl. by rewrite Ascii.eqb_refl.
  - cbn [append getline_all]. rewrite IH by (by right).
    destruct (Ascii.eqb c d); [done|].
    destruct (getline_all d a) as [|x xs] eqn:E; [|done].
    by apply getline_all_nil in E.
Qed.

Section SkippedLines.
Context `{DoubleText}.

Lemma load_lines_app (body : list string → State → result State)
    (l1 l2 : list string) (st : State) :
  load_lines body (l1 ++ l2) st =
  (load_lines body l1 st ≫= load_lines body l2).
Proof.
  revert st. induction l1 as [|line l1 IH]; intros st; simpl; [done|].
  destruct (empty (trim line)); [apply IH|].
  destruct (body (parseCSV line) st) as [st1|]; simpl; [apply IH|done].
Qed.

Lemma load_file_skips_short (body : list string → State → result State)
    (a line b : string) (st : State) :
  body = load_item ∨ body = load_sale →
  a = "" ∨ ends_with LF a = true →
  has_char LF line = false →
  (length (parseCSV line) < 6)%nat →
  load_file body (Some (a ++ line ++ String LF b)%string) st =
  load_file body (Some (a ++ b)%string) st.
Proof.
  intros Hbody Ha Hline Hshort. unfold load_file.
  rewrite (getline_all_app LF a (line ++ String LF b)) by done.
  rewrite (getline_all_app LF a b) by done.
  rewrite getline_all_cons, !load_lines_app by done.
  destruct (load_lines body (getline_all LF a) st) as [st1|]; [|done].
  simpl. by apply load_lines_skips_short.
Qed.

(** X15. A line with fewer than six fields, a blank line among them,
    counts for nothing wherever it stands in either file: [loadData]
    gives the same outcome as for the file without that line. *)
Theorem loadData_skips_short_lines (st : State) (a line b : string)
    (other : option string) :
  a = "" ∨ ends_with LF a = true →
  has_char LF line = false →
  (length (parseCSV line) < 6)%nat →
  loadData st {| items_csv := Some (a ++ line ++ String LF b)%string;
                 sales_csv := other |} =
  loadData st {| items_csv := Some (a ++ b)%string; sales_csv := other |} ∧
  loadData st {| items_csv := other;
                 sales_csv := Some (a ++ line ++ String LF b)%string |} =
  loadData st {| items_csv := other; sales_csv := Some (a ++ b)%string |}.
Proof.
  intros Ha Hline Hshort. unfold loadData.
  cbn [items_csv sales_csv items sales nextItemId nextSaleId].
  split.
  - by rewrite (load_file_skips_short load_item) by auto.
  - destruct (load_file load_item other _) as [st1|]; [|done].
    pose proof (load_file_skips_short load_sale a line b st1
                  (or_intror eq_refl) Ha Hline Hshort) as Hs.
    simpl in *. by rewrite Hs.
Qed.
End SkippedLines.

Lemma loadData_skips_short_lines_witness :
  loadData (H := reference_text) init_state
    {| items_csv := Some (("7,Cog,Steel,4,1.5,2" ++ String LF "") ++
                          "id,name,size" ++
                          String LF ("8,Nut,Brass,9,0.5,1" ++ String LF ""))%string;
       sales_csv := None |} =
  loadData (H := reference_text) init_state
    {| items_csv := Some (("7,Cog,Steel,4,1.5,2" ++ String LF "") ++
                          ("8,Nut,Brass,9,0.5,1" ++ String LF ""))%string;
       sales_csv := None |}.
Proof.
  apply (loadData_skips_short_lines (H := reference_text));
    [by right|done|vm_compute; lia].
Defined.

(** ** The number of fields of a line *)

(** X16. [parseCSV] returns one field more than the line has commas,
    except that nothing follows a final comma (an empty last field is
    lost) and that the empty line has no field at all. *)
Theorem parseCSV_length (line : string) :
  length (parseCSV line) =
  (count_char COMMA line +
   (if empty line || ends_with COMMA line then 0 else 1))%nat.
Proof.
  assert (Hone : ∀ c, ends_with COMMA (String c "") = Ascii.eqb c COMMA)
    by done.
  assert (Hmore : ∀ c x s, ends_with COMMA (String c (String x s)) =
                           ends_with COMMA (String x s)) by done.
  unfold parseCSV. induction line as [|c s IH]; [done|].
  cbn [getline_all count_char empty orb].
  destruct s as [|x s].
  - rewrite Hone. by destruct (Ascii.eqb c COMMA).
  - rewrite Hmore. cbn [empty orb] in IH.
    destruct (Ascii.eqb c COMMA).
    + cbn [length]. rewrite IH. lia.
    + destruct (getline_all COMMA (String x s)) as [|y ys] eqn:E.
      { by apply getline_all_nil in E. }
      cbn [length] in *. rewrite IH. lia.
Qed.

(** ** [getCurrentDate] *)

Lemma string_forall_impl (p q : ascii → bool) (s : string) :
  (∀ c, p c = true → q c = true) →
  string_forall p s = true → string_forall q s = true.
Proof.
  intros Hpq. induction s as [|c s IH]; simpl; [done|].
  intros [Hc Hs]%andb_true_iff. by rewrite (Hpq c Hc), IH.
Qed.

Lemma date_chars_plain (s : string) :
  string_forall is_date_char s = true → plain s.
Proof.
  unfold plain. induction s as [|c s IH]; simpl; [done|].
  intros [Hc Hs]%andb_true_iff. destruct (IH Hs) as [-> ->].
  split; rewrite orb_false_r;
    by destruct c as [[] [] [] [] [] [] [] []].
Qed.

Lemma put_int_date_chars (z : Z) :
  string_forall is_date_char (put_int z) = true.
Proof.
  destruct (put_int_shape z) as (ds & -> & _ & Hds & _).
  rewrite string_forall_app. apply andb_true_iff. split.
  - by destruct (z <? 0).
  - apply (string_forall_impl is_digit); [|done].
    intros c Hc. unfold is_date_char. by rewrite Hc.
Qed.

Lemma put_int_w2_date_chars (z : Z) :
  string_forall is_date_char (put_int_w2 z) = true.
Proof.
  unfold put_int_w2. destruct (_ <? _)%nat; [simpl|];
    apply put_int_date_chars.
Qed.

Lemma length_put_digits (fuel : nat) (n : Z) (acc : string) :
  String.length (put_digits fuel n acc) =
  (count_digits fuel n + String.length acc)%nat.
Proof.
  revert n acc. induction fuel as [|fuel IH]; intros n acc; [done|].
  cbn [put_digits count_digits]. destruct (n <? 10); [done|].
  rewrite IH. simpl. lia.
Qed.

Lemma count_digits_exact (k fuel : nat) (n : Z) :
  10 ^ Z.of_nat k <= n < 10 ^ Z.of_nat (S k) → (k <= fuel)%nat →
  count_digits fuel n = S k.
Proof.
  revert fuel n. induction k as [|k IH]; intros fuel n Hn Hf.
  - change (10 ^ Z.of_nat 1) with 10 in Hn.
    destruct fuel; [done|]. simpl.
    destruct (Z.ltb_spec n 10); [done|lia].
  - destruct fuel as [|fuel]; [lia|]. cbn [count_digits].
    rewrite !Nat2Z.inj_succ, !Z.pow_succ_r in Hn by lia.
    assert (0 < 10 ^ Z.of_nat k) by (apply Z.pow_pos_nonneg; lia).
    destruct (Z.ltb_spec n 10); [nia|].
    rewrite IH; [done| |lia].
    rewrite Nat2Z.inj_succ, Z.pow_succ_r by lia.
    split.
    + apply Z.div_le_lower_bound; lia.
    + apply Z.div_lt_upper_bound; lia.
Qed.

Lemma length_put_int (k : nat) (n : Z) :
  10 ^ Z.of_nat k <= n < 10 ^ Z.of_nat (S k) →
  String.length (put_int n) = S k.
Proof.
  intros Hn.
  assert (0 < 10 ^ Z.of_nat k) by (apply Z.pow_pos_nonneg; lia).
  unfold put_int. destruct (Z.ltb_spec n 0); [lia|].
  rewrite length_put_digits, (count_digits_exact k); [simpl; lia|done|].
  apply Nat2Z.inj_le. rewrite Z2Nat.id by (apply Z.log2_nonneg).
  apply Z.log2_le_pow2; [lia|].
  etrans; [|apply Hn]. apply Z.pow_le_mono_l. lia.
Qed.

Lemma length_put_int_w2 (n : Z) :
  0 <= n < 100 → String.length (put_int_w2 n) = 2%nat.
Proof.
  intros Hn. unfold put_int_w2.
  destruct (Z.ltb_spec n 10).
  - destruct (Z.eq_dec n 0) as [->|]; [done|].
    assert (Hl : String.length (put_int n) = 1%nat)
      by (apply (length_put_int 0); simpl; lia).
    rewrite Hl. simpl. by rewrite Hl.
  - assert (Hl : String.length (put_int n) = 2%nat).
    { apply (length_put_int 1). change (10 ^ Z.of_nat 1) with 10.
      change (10 ^ Z.of_nat 2) with 100. lia. }
    by rewrite Hl.
Qed.

Lemma getCurrentDate_date_chars (t : tm) :
  string_forall is_date_char (getCurrentDate t) = true.
Proof.
  unfold getCurrentDate.
  rewrite !string_forall_app, put_int_date_chars, !put_int_w2_date_chars.
  done.
Qed.

(** X17. The time stamp of a sale holds digits, dashes, colons and one
    space only, so neither a comma nor a line feed, and is never empty;
    for a time in the years 1000 to 9999 it has the 19 characters of
    [YYYY-MM-DD HH:MM:SS]. *)
Theorem getCurrentDate_plain (t : tm) :
  string_forall is_date_char (getCurrentDate t) = true ∧
  plain (getCurrentDate t) ∧
  getCurrentDate t ≠ "" ∧
  (tm_ok t → String.length (getCurrentDate t) = 19%nat).
Proof.
  pose proof (getCurrentDate_date_chars t) as Hchars.
  split_and!; [done|by apply date_chars_plain| |].
  - unfold getCurrentDate.
    destruct (put_int_head (wrap_int (1900 + tm_year t))) as (c & s & -> & _).
    done.
  - intros (Hy & Hmon & Hd & Hh & Hm & Hs). unfold getCurrentDate.
    rewrite !length_append, !wrap_int_id
      by (unfold int_range, int_min, int_max; lia).
    rewrite (length_put_int 3)
      by (change (10 ^ Z.of_nat 3) with 1000;
          change (10 ^ Z.of_nat 4) with 10000; lia).
    rewrite !length_put_int_w2 by lia. done.
Qed.

Lemma getCurrentDate_plain_witness :
  String.length (getCurrentDate (mk_tm 124 0 5 9 3 7)) = 19%nat ∧
  getCurrentDate (mk_tm 124 0 5 9 3 7) = "2024-01-05 09:03:07".
Proof.
  split; [|reflexivity].
  apply (getCurrentDate_plain (mk_tm 124 0 5 9 3 7)).
  unfold tm_ok. simpl. lia.
Defined.

(** ** The texts of the store *)

Lemma elem_of_insert_inv {A : Type} (l : list A) (i : nat) (x y : A) :
  x ∈ <[i := y]> l → x = y ∨ x ∈ l.
Proof.
  intros [j Hj]%list_elem_of_lookup.
  apply list_lookup_insert_Some in Hj as [(_ & -> & _)|[_ Hj]]; [by left|].
  right. by eapply list_elem_of_lookup_2.
Qed.

Lemma step_texts_plain (st : State) (o : op) :
  texts_plain st → op_plain o → texts_plain (step st o).2.
Proof.
  intros [Hi Hs] Ho. destruct o as [name size qty buy sell|id|id qty buy sell|id qty now];
    simpl.
  - split; [|done]. simpl. intros it [Hin| ->%list_elem_of_singleton]%elem_of_app;
      [by apply Hi|done].
  - unfold logic_deleteItem. destruct (find_item id (items st)) as [[i it]|];
      [|done].
    split; [|done]. simpl. intros x Hx%list_elem_of_delete_inv. by apply Hi.
  - unfold logic_updateItem.
    destruct (find_item id (items st)) as [[i it]|] eqn:E; [|done].
    apply find_item_Some in E as (Hl%list_elem_of_lookup_2 & _ & _).
    split; [|done]. simpl. intros x [->|Hx]%elem_of_insert_inv; [|by apply Hi].
    simpl. by apply Hi.
  - unfold logic_sellItem.
    destruct (find_item id (items st)) as [[i it]|] eqn:E; [|done].
    destruct (qty >? Item.quantity it); [done|].
    apply find_item_Some in E as (Hl%list_elem_of_lookup_2 & _ & _).
    split; simpl.
    + intros x [->|Hx]%elem_of_insert_inv; [|by apply Hi]. simpl. by apply Hi.
    + intros s [Hin| ->%list_elem_of_singleton]%elem_of_app; [by apply Hs|].
      simpl. split; [|done]. by apply Hi.
Qed.

Lemma run_keeps_texts_plain (ops : list op) (st : State) :
  texts_plain st → Forall op_plain ops → texts_plain (run ops st).2.
Proof.
  revert st. induction ops as [|o ops IH]; intros st Hst Hops; [done|].
  apply list.Forall_cons in Hops as [Ho Hops].
  rewrite run_cons. apply IH; [|done]. by apply step_texts_plain.
Qed.

(** X18. As long as the names and sizes handed to [logic_addItem] and the
    time stamps hold no comma and no line feed, no text of the store ever
    does, whatever is added, deleted, updated and sold. *)
Theorem run_texts_plain (ops : list op) (st : State) :
  texts_plain st → Forall op_plain ops → texts_plain (run ops st).2.
Proof.
  intros Hst Hops. revert st Hst.
  induction Hops as [|o ops Ho Hops IH]; intros st Hst; [done|].
  rewrite run_cons. apply IH.
  destruct o; by apply step_texts_plain.
Qed.

Lemma run_texts_plain_witness :
  texts_plain
    (run [Add "Nut" "M8" 12 0.25%float 0.5%float;
          Sell 4 2 "2024-01-05 09:03:07"; Delete 1]
         (seedData init_state)).2.
Proof.
  apply run_texts_plain.
  - split.
    + intros it Hin. simpl in Hin.
      repeat (apply elem_of_cons in Hin as [->|Hin]; [done|]).
      by apply elem_of_nil in Hin.
    + by intros s Hin%elem_of_nil.
  - repeat constructor.
Defined.

(** ** The dialogs *)

Lemma getline_no_delim (d : ascii) (s x rest : string) :
  getline d s = Some (x, rest) → has_char d x = false.
Proof.
  revert x rest. induction s as [|c s IH]; intros x rest; simpl; [done|].
  destruct (Ascii.eqb c d) eqn:Ec; [by intros [= <- <-]|].
  destruct (getline d s) as [[y r]|].
  - intros [= <- <-]. simpl. rewrite Ec. by eapply IH.
  - intros [= <- <-]. simpl. by rewrite Ec.
Qed.

Lemma getline_line (d : ascii) (x rest : string) :
  has_char d x = false → getline d (x ++ String d rest) = Some (x, rest).
Proof.
  induction x as [|c x IH]; simpl.
  - by rewrite Ascii.eqb_refl.
  - intros [-> Hx]%orb_false_iff. by rewrite IH.
Qed.

Lemma promptLine_line (msg : string) (c : Console) :
  has_char LF (promptLine msg c).1 = false.
Proof.
  unfold promptLine. simpl.
  destruct (getline LF (cin c)) as [[x rest]|] eqn:E; [|done].
  simpl. by eapply getline_no_delim.
Qed.

Lemma replace_plain (s : string) :
  has_char LF s = false → plain (replace COMMA SP s).
Proof.
  unfold plain. induction s as [|c s IH]; simpl; [done|].
  intros [Hc Hs]%orb_false_iff. destruct (IH Hs) as [-> ->].
  rewrite !orb_false_r. destruct (Ascii.eqb_spec c COMMA) as [->|Hne]; [done|].
  split; [by apply Ascii.eqb_neq|done].
Qed.

Lemma one_call_refl (st : State) : one_call st st.
Proof. exists []. split_and!; [simpl; lia|constructor|done]. Qed.

Lemma one_call_op (st : State) (o : op) :
  op_plain o → one_call st (step st o).2.
Proof.
  intros Ho. exists [o]. split_and!; [simpl; lia|by repeat constructor|].
  by rewrite run_cons.
Qed.

Section DialogProperties.
Context `{DoubleText} `{DoubleScan}.

Lemma ui_addItem_one_call (st : State) (c : Console) :
  one_call st (ui_addItem st c).1.
Proof.
  unfold ui_addItem.
  pose proof (promptLine_line "Item name (or type 'cancel' to return): "
                (cin_ignore c)) as Hname.
  destruct (promptLine _ (cin_ignore c)) as [name c1].
  destruct (isCancel name || empty (trim name)); [apply one_call_refl|].
  pose proof (promptLine_line "Size/Color (or type 'cancel' to return): " c1)
    as Hsize.
  destruct (promptLine _ c1) as [size c2].
  destruct (isCancel size); [apply one_call_refl|].
  destruct (promptLine _ c2) as [l3 c3].
  destruct (accepted toInt l3) as [qty|]; [|apply one_call_refl].
  destruct (promptLine _ c3) as [l4 c4].
  destruct (accepted toDouble l4) as [buy|]; [|apply one_call_refl].
  destruct (promptLine _ c4) as [l5 c5].
  destruct (accepted toDouble l5) as [sell|]; [|apply one_call_refl].
  apply (one_call_op st (Add (replace COMMA SP name) (replace COMMA SP size)
                             qty buy sell)).
  split; by apply replace_plain.
Qed.

Lemma ui_updateItem_one_call (st : State) (c : Console) :
  one_call st (ui_updateItem st c).1.
Proof.
  unfold ui_updateItem.
  destruct (promptLine _ (cin_ignore c)) as [l1 c1].
  destruct (accepted toInt l1) as [id|]; [|apply one_call_refl].
  destruct (promptLine _ c1) as [l2 c2].
  destruct (accepted toInt l2) as [qty|]; [|apply one_call_refl].
  destruct (promptLine _ c2) as [l3 c3].
  destruct (accepted toDouble l3) as [buy|]; [|apply one_call_refl].
  destruct (promptLine _ c3) as [l4 c4].
  destruct (accepted toDouble l4) as [sell|]; [|apply one_call_refl].
  pose proof (one_call_op st (Update id qty buy sell) I) as Hop.
  simpl in Hop. by destruct (logic_updateItem st id qty buy sell).
Qed.

Lemma ui_deleteItem_one_call (st : State) (c : Console) :
  one_call st (ui_deleteItem st c).1.
Proof.
  unfold ui_deleteItem.
  destruct (promptLine _ (cin_ignore c)) as [l1 c1].
  destruct (accepted toInt l1) as [id|]; [|apply one_call_refl].
  destruct (find_item id (items st)) as [[i it]|] eqn:E; [|apply one_call_refl].
  destruct (promptLine _ _) as [confirm c2].
  destruct (negb _); [apply one_call_refl|].
  pose proof (one_call_op st (Delete id) I) as Hop.
  simpl in Hop. by destruct (logic_deleteItem st id).
Qed.

Lemma ui_sellItem_one_call (now : tm) (st : State) (c : Console) :
  one_call st (ui_sellItem now st c).1.
Proof.
  unfold ui_sellItem.
  destruct (promptLine _ (cin_ignore c)) as [l1 c1].
  destruct (accepted toInt l1) as [id|]; [|apply one_call_refl].
  destruct (promptLine _ c1) as [l2 c2].
  destruct (accepted toInt l2) as [qty|]; [|apply one_call_refl].
  pose proof (one_call_op st (Sell id qty (getCurrentDate now))) as Hop.
  simpl in Hop.
  destruct (logic_sellItem st id qty (getCurrentDate now) 0) as [[r p] st'].
  apply Hop. apply date_chars_plain, getCurrentDate_date_chars.
Qed.

(** X19. Whatever is typed, each of the four dialogs that can change the
    store does so by one call of the logic layer at most, and the texts it
    hands over hold no comma and no line feed: the commas of a name or a
    size have been replaced, a line read holds no line feed, and the time
    stamp is made of digits and punctuation. *)
Theorem dialogs_one_call (now : tm) (st : State) (c : Console) :
  one_call st (ui_addItem st c).1 ∧
  one_call st (ui_updateItem st c).1 ∧
  one_call st (ui_deleteItem st c).1 ∧
  one_call st (ui_sellItem now st c).1.
Proof.
  split_and!; [apply ui_addItem_one_call|apply ui_updateItem_one_call|
               apply ui_deleteItem_one_call|apply ui_sellItem_one_call].
Qed.
End DialogProperties.

(** ** The menu loop *)

Lemma run_app (a b : list op) (st : State) :
  (run (a ++ b) st).2 = (run b (run a st).2).2.
Proof.
  revert st. induction a as [|o a IH]; intros st; [done|].
  by rewrite <- app_comm_cons, !run_cons, IH.
Qed.

Lemma session_refl (st : State) : session st st.
Proof. by exists []. Qed.

Lemma session_step (st st1 st' : State) :
  one_call st st1 → session st1 st' → session st st'.
Proof.
  intros (a & _ & Ha & ->) (b & Hb & ->). exists (a ++ b)%list.
  split; [by apply Forall_app|by rewrite run_app].
Qed.

Lemma loaded_store_texts_plain (st : State) :
  loaded_store st → texts_plain st.
Proof.
  intros (Hi & Hs & _). split.
  - intros it Hin. rewrite list.Forall_forall in Hi.
    by destruct (Hi it Hin) as (_ & _ & ? & ?).
  - intros s Hin. rewrite list.Forall_forall in Hs.
    by destruct (Hs s Hin) as (_ & _ & _ & ? & ?).
Qed.

Lemma skip_space_all (s : string) :
  string_forall isspace s = true → skip_space s = "".
Proof.
  induction s as [|c s IH]; simpl; [done|].
  intros [-> Hs]%andb_true_iff. by apply IH.
Qed.

Section MenuLoop.
Context `{DoubleText} `{DoubleScan}.
Variables (open_items open_sales : bool) (clock : nat → tm).

Lemma dispatch_effect (now : tm) (choice : Z) (st : State) (c : Console)
    (d : Disk) :
  one_call st (dispatch open_items open_sales now choice st c d).1.1 ∧
  (dispatch open_items open_sales now choice st c d).2 =
    (if choice =? 10 then saveData open_items open_sales st d else d) ∧
  (choice = 10 →
   (dispatch open_items open_sales now choice st c d).1.1 = st).
Proof.
  unfold dispatch.
  destruct (Z.eqb_spec choice 1) as [->|_].
  { pose proof (ui_addItem_one_call st c). by destruct (ui_addItem st c). }
  destruct (Z.eqb_spec choice 2) as [->|_].
  { pose proof (ui_updateItem_one_call st c).
    by destruct (ui_updateItem st c). }
  destruct (Z.eqb_spec choice 3) as [->|_].
  { pose proof (ui_deleteItem_one_call st c).
    by destruct (ui_deleteItem st c). }
  destruct (Z.eqb_spec choice 4) as [->|_];
    [split_and!; [apply one_call_refl|done..]|].
  destruct (Z.eqb_spec choice 5) as [->|_];
    [split_and!; [apply one_call_refl|done..]|].
  destruct (Z.eqb_spec choice 6) as [->|_].
  { pose proof (ui_sellItem_one_call now st c).
    by destruct (ui_sellItem now st c). }
  destruct (Z.eqb_spec choice 7) as [->|_];
    [split_and!; [apply one_call_refl|done..]|].
  destruct (Z.eqb_spec choice 8) as [->|_];
    [split_and!; [apply one_call_refl|done..]|].
  destruct (Z.eqb_spec choice 9) as [->|_];
    [split_and!; [apply one_call_refl|done..]|].
  destruct (Z.eqb_spec choice 10) as [->|_];
    split_and!; (apply one_call_refl || done).
Qed.

Lemma menu_loop_session (fuel n : nat) (st : State) (c : Console) (d : Disk)
    (st' : State) (c' : Console) (d' : Disk) :
  menu_loop open_items open_sales clock fuel n st c d = Some (st', c', d') →
  session st st' ∧ d' = saveData open_items open_sales st' d.
Proof.
  revert n st c d. induction fuel as [|fuel IH]; intros n st c d; [done|].
  cbn [menu_loop].
  destruct (cin_choice (print menu c)) as [choice c1].
  destruct (dispatch_effect (clock n) choice st c1 d) as (Hone & Hd & Hst).
  destruct (dispatch open_items open_sales (clock n) choice st c1 d)
    as [[st1 c2] d1].
  simpl in Hone, Hd, Hst.
  destruct (Z.eqb_spec choice 10) as [->|Hne].
  - intros [= <- <- <-]. rewrite Hst by done. split; [apply session_refl|done].
  - intros Hloop. apply IH in Hloop as [Hs ->]. subst d1.
    split; [by eapply session_step|done].
Qed.

Lemma menu_loop_end_of_input (fuel n : nat) (st : State) (c : Console)
    (d : Disk) :
  string_forall isspace (cin c) = true →
  menu_loop open_items open_sales clock fuel n st c d = None.
Proof.
  revert n c. induction fuel as [|fuel IH]; intros n c Hc; [done|].
  cbn [menu_loop]. unfold cin_choice, extract_int. cbn [print cin cout].
  rewrite skip_space_all by done. cbn.
  by apply IH.
Qed.

(** X20. When [main] returns, the store that it leaves comes from the
    loaded one by calls of the logic layer, holds no text with a comma or
    a line feed, and is the one saved: the files are written once, from
    the final store, at the exit. *)
Theorem main_session (fuel : nat) (c : Console) (d : Disk)
    (st' : State) (c' : Console) (d' : Disk) :
  main open_items open_sales clock fuel c d = Ok (Some (st', c', d')) →
  ∃ st0, loadData init_state d = Ok st0 ∧
         session st0 st' ∧ texts_plain st' ∧
         d' = saveData open_items open_sales st' d.
Proof.
  unfold main.
  destruct (loadData init_state d) as [st0|] eqn:Hload; [|done]. simpl.
  destruct (loadData_out d) as [out|]; [|done]. simpl.
  intros [= Hloop]. apply menu_loop_session in Hloop as [Hs ->].
  exists st0. split_and!; [done..| |done].
  destruct Hs as (ops & Hops & ->). apply run_keeps_texts_plain; [|done].
  by eapply loaded_store_texts_plain, loadData_loaded_store.
Qed.

(** X21. Once the input holds nothing but white space, the menu loop
    never ends: however many passes it is given, [main] has not returned
    (unless [loadData] threw before the loop), and so it never saves. *)
Theorem main_end_of_input (fuel : nat) (c : Console) (d : Disk) :
  string_forall isspace (cin c) = true →
  main open_items open_sales clock fuel c d = Ok None ∨
  ∃ e, main open_items open_sales clock fuel c d = Throw e.
Proof.
  intros Hc. unfold main.
  destruct (loadData init_state d) as [st0|e]; [|right; by exists e]. simpl.
  destruct (loadData_out d) as [out|e]; [|right; by exists e]. simpl.
  left. by rewrite menu_loop_end_of_input.
Qed.
End MenuLoop.

Lemma main_session_witness :
  ∃ st' c' d',
    main (H := reference_text) (H0 := reference_scan) true true
         (λ _, mk_tm 124 0 5 9 3 7) 5
         {| cin := "6" ++ nl ++ "3" ++ nl ++ "2" ++ nl ++ "10" ++ nl;
            cout := "" |}
         {| items_csv := None; sales_csv := None |}
    = Ok (Some (st', c', d')) ∧
    texts_plain st' ∧
    d' = saveData (H := reference_text) true true st'
           {| items_csv := None; sales_csv := None |}.
Proof.
  destruct (main (H := reference_text) (H0 := reference_scan) true true
              (λ _, mk_tm 124 0 5 9 3 7) 5
              {| cin := "6" ++ nl ++ "3" ++ nl ++ "2" ++ nl ++ "10" ++ nl;
                 cout := "" |}
              {| items_csv := None; sales_csv := None |})
    as [[[[st' c'] d']|]|] eqn:E; [|by vm_compute in E..].
  exists st', c', d'. split; [done|].
  by destruct (main_session _ _ _ _ _ _ _ _ _ E) as (st0 & _ & _ & Ht & Hd).
Defined.

Lemma main_end_of_input_witness :
  main (H := reference_text) (H0 := reference_scan) true true
       (λ _, mk_tm 124 0 5 9 3 7) 7
       {| cin := " " ++ nl; cout := "" |}
       {| items_csv := None; sales_csv := None |}
  = Ok None.
Proof.
  destruct (main_end_of_input (H := reference_text) (H0 := reference_scan)
              true true (λ _, mk_tm 124 0 5 9 3 7) 7
              {| cin := " " ++ nl; cout := "" |}
              {| items_csv := None; sales_csv := None |})
    as [E|[e E]]; [reflexivity|exact E|by vm_compute in E].
Defined.

(** ** Answers to the dialogs *)

Lemma accepted_cancel {A : Type} (conv : string → option A) (line : string) :
  isCancel line = true → accepted conv line = None.
Proof. unfold accepted. by intros ->. Qed.

Lemma accepted_toInt_blank (line : string) :
  trim line = "" → accepted toInt line = None.
Proof.
  intros Hb. unfold accepted, toInt. rewrite Hb.
  by destruct (isCancel line).
Qed.

Section Answers.
Context `{DoubleText} `{DoubleScan}.

(** X22. A dialog whose first answer is a cancel word or blank leaves the
    store as it is, and has read the rest of the menu line and that answer
    and nothing more. *)
Theorem dialogs_cancel (now : tm) (st : State)
    (junk line rest out : string) :
  has_char LF junk = false → has_char LF line = false →
  isCancel line = true ∨ trim line = "" →
  ∀ r, r ∈ [ui_addItem st; ui_updateItem st; ui_deleteItem st;
            ui_sellItem now st] →
       (r {| cin := junk ++ String LF (line ++ String LF rest);
             cout := out |}).1 = st ∧
       cin (r {| cin := junk ++ String LF (line ++ String LF rest);
                 cout := out |}).2 = rest.
Proof.
  intros Hjunk Hline Hans r Hr.
  assert (Hint : accepted toInt line = None).
  { destruct Hans; [by apply accepted_cancel|by apply accepted_toInt_blank]. }
  assert (Hname : isCancel line || empty (trim line) = true).
  { destruct Hans as [->| ->]; [done|by rewrite orb_true_r]. }
  repeat (apply elem_of_cons in Hr as [->|Hr]);
    [| | | |by apply elem_of_nil in Hr].
  - unfold ui_addItem, cin_ignore, promptLine. cbn [cin cout print].
    rewrite !getline_line by done. by rewrite Hname.
  - unfold ui_updateItem, cin_ignore, promptLine. cbn [cin cout print].
    rewrite !getline_line by done. by rewrite Hint.
  - unfold ui_deleteItem, cin_ignore, promptLine. cbn [cin cout print].
    rewrite !getline_line by done. by rewrite Hint.
  - unfold ui_sellItem, cin_ignore, promptLine. cbn [cin cout print].
    rewrite !getline_line by done. by rewrite Hint.
Qed.

(** X23. [ui_deleteItem], given the id of an item and an answer to its
    question: the first item with the id is erased when the answer is
    [y] or [Y], blanks around it aside, and the store is left as it is
    for any other answer, [yes] among them; the input is read up to the
    end of the answer. *)
Theorem ui_deleteItem_confirm (st : State)
    (junk idline answer rest out : string) (id : Z) (i : nat) (it : Item.t) :
  has_char LF junk = false → has_char LF idline = false →
  has_char LF answer = false →
  accepted toInt idline = Some id →
  find_item id (items st) = Some (i, it) →
  (ui_deleteItem st
     {| cin := junk ++ String LF (idline ++ String LF (answer ++ String LF rest));
        cout := out |}).1 =
    (if String.eqb (toLowerStr (trim answer)) "y"
     then {| items := delete i (items st); sales := sales st;
             nextItemId := nextItemId st; nextSaleId := nextSaleId st |}
     else st) ∧
  cin (ui_deleteItem st
         {| cin := junk ++ String LF (idline ++ String LF (answer ++ String LF rest));
            cout := out |}).2 = rest.
Proof.
  intros Hjunk Hid Hans Hacc Hfind.
  unfold ui_deleteItem, cin_ignore, promptLine. cbn [cin cout print].
  rewrite !getline_line by done. rewrite Hacc, Hfind.
  cbn [cin cout print]. rewrite getline_line by done.
  destruct (String.eqb (toLowerStr (trim answer)) "y"); cbn [negb]; [|done].
  unfold logic_deleteItem. by rewrite Hfind.
Qed.
End Answers.

Lemma dialogs_cancel_witness :
  (ui_sellItem (H := reference_text) (mk_tm 124 0 5 9 3 7)
     (seedData init_state)
     {| cin := "6" ++ String LF (" Cancel " ++ String LF "8");
        cout := "" |}).1 = seedData init_state.
Proof.
  apply (dialogs_cancel (H := reference_text) (H0 := reference_scan)
           (mk_tm 124 0 5 9 3 7) (seedData init_state)
           "6" " Cancel " "8" "");
    [done|done|by left|].
  do 3 right. by left.
Defined.

Lemma ui_deleteItem_confirm_witness :
  items (ui_deleteItem (seedData init_state)
           {| cin := "" ++ String LF ("2" ++ String LF (" Y" ++ String LF ""));
              cout := "" |}).1 =
  [Item.mk 1 "Widget" "Small" 10 5%float 8%float;
   Item.mk 3 "Gadget" "Blue" 20 10%float 15%float] ∧
  (ui_deleteItem (seedData init_state)
     {| cin := "" ++ String LF ("2" ++ String LF ("yes" ++ String LF ""));
        cout := "" |}).1 = seedData init_state.
Proof.
  split.
  - destruct (ui_deleteItem_confirm (seedData init_state) "" "2" " Y" "" ""
                2 1%nat (Item.mk 2 "Bolt" "Red" 3 0.5%float 1%float))
      as [-> _]; done.
  - destruct (ui_deleteItem_confirm (seedData init_state) "" "2" "yes" "" ""
                2 1%nat (Item.mk 2 "Bolt" "Red" 3 0.5%float 1%float))
      as [-> _]; done.
Defined.

(** The name is checked before its commas are replaced: a name of commas
    only is accepted and stored as blanks. *)
Example ui_addItem_blank_name :
  Item.name <$>
    items (ui_addItem (H0 := reference_scan) init_state
             {| cin := "1" ++ nl ++ ",," ++ nl ++ "M8" ++ nl ++ "4" ++ nl ++
                       "1.5" ++ nl ++ "2" ++ nl;
                cout := "" |}).1 = ["  "].
Proof. by vm_compute. Qed.
